(** * fb_ad_monitor: the extraction, filter, ledger and feed pipeline

    A shallow embedding of [src/fb_ad_monitor.py] (class [fbRssAdMonitor]) and
    the properties its specification states about it.

    Layout: Part I embeds the program (Python text and values, the keyword
    filter, the page extractor, the SQLite ledger, the ingestion pass, the
    feed); Part II proves general lemmas; Part III settles the specification's
    claims, one theorem each; Part IV proves further properties of the
    program. *)

From Stdlib Require Import List Bool Arith ZArith NArith Lia String Ascii Floats.
From Stdlib Require Import Permutation Sorted.
Import ListNotations.

Set Implicit Arguments.
Set Warnings "-register-all".

(* ===================================================================== *)
(** * Part I. The program                                                 *)
(* ===================================================================== *)

(* --------------------------------------------------------------------- *)
(** ** Python text *)

(** A Python [str] is a sequence of Unicode code points. *)
Definition str := list N.

(** A literal of the source, written in ASCII. *)
Definition lit (s : string) : str := map N_of_ascii (list_ascii_of_string s).

Fixpoint str_eqb (a b : str) : bool :=
  match a, b with
  | [], [] => true
  | x :: a', y :: b' => N.eqb x y && str_eqb a' b'
  | _, _ => false
  end.

(** [s.startswith(prefix)] *)
Fixpoint startswith (s prefix : str) : bool :=
  match prefix, s with
  | [], _ => true
  | _ :: _, [] => false
  | p :: prefix', c :: s' => N.eqb p c && startswith s' prefix'
  end.

(** [needle in s] on two strings: [needle] occurs in [s] as a substring. *)
Fixpoint contains (needle s : str) : bool :=
  startswith s needle
  || match s with
     | [] => false
     | _ :: s' => contains needle s'
     end.

(** [s.split(sep)[0]] for a one-character separator: the text before its
    first occurrence, all of [s] when there is none. *)
Fixpoint before (sep : N) (s : str) : str :=
  match s with
  | [] => []
  | c :: s' => if N.eqb c sep then [] else c :: before sep s'
  end.

(** Membership in a Python [set] (or list) of strings. *)
Definition mem (x : str) (l : list str) : bool := existsb (str_eqb x) l.

(** Text comparison as SQLite's BINARY collation makes it: code point by
    code point, a proper prefix first. *)
Fixpoint str_ltb (a b : str) : bool :=
  match a, b with
  | _, [] => false
  | [], _ :: _ => true
  | x :: a', y :: b' => N.ltb x y || (N.eqb x y && str_ltb a' b')
  end.

(** The ASCII range, where the behaviour of the built-ins is fixed below. *)
Definition ascii_text (s : str) : bool := forallb (fun c => N.ltb c 128) s.

(** ASCII together with the currency signs U+20A0 to U+20CF, which have no
    case. *)
Definition plain_char (c : N) : bool :=
  N.ltb c 128 || (N.leb 8352 c && N.leb c 8399).

Definition plain_text (s : str) : bool := forallb plain_char s.

Definition ascii_lower_char (c : N) : N :=
  if N.leb 65 c && N.leb c 90 then (c + 32)%N else c.

Definition ascii_lower (s : str) : str := map ascii_lower_char s.

Definition is_decimal_digit (c : N) : bool := N.leb 48 c && N.leb c 57.

Definition ascii_isdigit (s : str) : bool :=
  match s with
  | [] => false
  | _ :: _ => forallb is_decimal_digit s
  end.

(** The number a string of decimal digits denotes. *)
Definition decimal (s : str) : Z :=
  fold_left (fun acc c => (10 * acc + (Z.of_N c - 48))%Z) s 0%Z.

(* --------------------------------------------------------------------- *)
(** ** Exceptions and results *)

(** The exception classes the program distinguishes.  [IntegrityError] and
    [OperationalError] are [sqlite3.DatabaseError]s; [InterfaceError] is a
    [sqlite3.Error] that is not a [DatabaseError]; the others are plain
    [Exception]s. *)
Inductive exn : Type :=
| IntegrityError
| OperationalError
| InterfaceError
| ValueError
| TypeError
| AttributeError
| OverflowError
| WebDriverException
| RuntimeError.

Definition is_sqlite_error (e : exn) : bool :=
  match e with
  | IntegrityError | OperationalError | InterfaceError => true
  | _ => false
  end.

Definition is_database_error (e : exn) : bool :=
  match e with
  | IntegrityError | OperationalError => true
  | _ => false
  end.

Definition is_integrity_error (e : exn) : bool :=
  match e with
  | IntegrityError => true
  | _ => false
  end.

Inductive result (A : Type) : Type :=
| Ok (a : A)
| Raise (e : exn).
Arguments Ok {A} a.
Arguments Raise {A} e.

(* --------------------------------------------------------------------- *)
(** ** JSON values, as [json.load] returns them *)

Inductive json : Type :=
| JNull
| JBool (b : bool)
| JInt (n : Z)
| JFloat (x : float)
| JStr (s : str)
| JList (l : list json)
| JDict (d : list (str * json)).

(** A [dict] with string keys, in insertion order. *)
Definition dict := list (str * json).

(** [d.get(key)] *)
Fixpoint dict_get (d : dict) (key : str) : option json :=
  match d with
  | [] => None
  | (k, v) :: d' => if str_eqb k key then Some v else dict_get d' key
  end.

(** [d.keys()] *)
Definition keys (d : dict) : list str := map fst d.

(** Python truthiness, what [if not x] tests. *)
Definition truthy (v : json) : bool :=
  match v with
  | JNull => false
  | JBool b => b
  | JInt n => negb (Z.eqb n 0)
  | JFloat x => negb (PrimFloat.eqb x 0%float)
  | JStr s => match s with [] => false | _ => true end
  | JList l => match l with [] => false | _ => true end
  | JDict d => match d with [] => false | _ => true end
  end.

(* --------------------------------------------------------------------- *)
(** ** Timestamps *)

(** A timezone-aware [datetime] in UTC, by its fields. *)
Record datetime : Type := {
  year : Z;
  month : Z;
  day : Z;
  hour : Z;
  minute : Z;
  second : Z;
  microsecond : Z
}.

(** The field ranges of a [datetime] object. *)
Definition valid_datetime (d : datetime) : Prop :=
  (1 <= year d <= 9999 /\ 1 <= month d <= 12 /\ 1 <= day d <= 31 /\
   0 <= hour d <= 23 /\ 0 <= minute d <= 59 /\ 0 <= second d <= 59 /\
   0 <= microsecond d <= 999999)%Z.

(** The fields of an instant in the order that decides which comes first. *)
Definition dt_fields (d : datetime) : list Z :=
  [year d; month d; day d; hour d; minute d; second d; microsecond d].

Fixpoint lex_ltb (a b : list Z) : bool :=
  match a, b with
  | x :: a', y :: b' => Z.ltb x y || (Z.eqb x y && lex_ltb a' b')
  | _, _ => false
  end.

(** [a < b] on two UTC datetimes: [a] is the earlier instant. *)
Definition dt_ltb (a b : datetime) : bool := lex_ltb (dt_fields a) (dt_fields b).

(** [n] written with [w] decimal digits, zero-padded ([%0wd] for
    [0 <= n < 10^w]). *)
Fixpoint pad (w : nat) (n : Z) : str :=
  match w with
  | O => []
  | S w' => pad w' (n / 10) ++ [Z.to_N (48 + n mod 10)]
  end.

(** [d.isoformat()] for an aware UTC datetime:
    [YYYY-MM-DDTHH:MM:SS+00:00], with [.ffffff] after the seconds when the
    microsecond field is not zero. *)
Definition isoformat (d : datetime) : str :=
  pad 4 (year d) ++ lit "-" ++ pad 2 (month d) ++ lit "-" ++ pad 2 (day d)
  ++ lit "T" ++ pad 2 (hour d) ++ lit ":" ++ pad 2 (minute d) ++ lit ":"
  ++ pad 2 (second d)
  ++ (if Z.eqb (microsecond d) 0 then [] else lit "." ++ pad 6 (microsecond d))
  ++ lit "+00:00".

(** The part of that text after the seconds. *)
Definition iso_tail (us : Z) : str :=
  (if Z.eqb us 0 then [] else lit "." ++ pad 6 us) ++ lit "+00:00".

Definition is_leap (y : Z) : bool :=
  (Z.eqb (y mod 4) 0 && negb (Z.eqb (y mod 100) 0)) || Z.eqb (y mod 400) 0.

Definition days_in_month (y m : Z) : Z :=
  if Z.eqb m 2 then (if is_leap y then 29 else 28)
  else if Z.eqb m 4 || Z.eqb m 6 || Z.eqb m 9 || Z.eqb m 11 then 30
  else 31.

Definition with_date (d : datetime) (y m dd : Z) : datetime :=
  {| year := y; month := m; day := dd; hour := hour d; minute := minute d;
     second := second d; microsecond := microsecond d |}.

(** The same time of day one calendar day earlier. *)
Definition prev_day (d : datetime) : datetime :=
  if Z.ltb 1 (day d) then with_date d (year d) (month d) (day d - 1)
  else if Z.ltb 1 (month d)
       then with_date d (year d) (month d - 1) (days_in_month (year d) (month d - 1))
       else with_date d (year d - 1) 12 31.

Fixpoint minus_days (d : datetime) (n : nat) : datetime :=
  match n with
  | O => d
  | S n' => minus_days (prev_day d) n'
  end.

(** [d - timedelta(days=n)]; it raises [OverflowError] below year 1. *)
Definition sub_days (d : datetime) (n : nat) : result datetime :=
  let d' := minus_days d n in
  if Z.ltb (year d') 1 then Raise OverflowError else Ok d'.

(** An aware [datetime] in some zone: its wall-clock fields and the
    zone's offset from UTC at that instant, in seconds. *)
Record local_datetime : Type := {
  wall : datetime;
  utcoffset_seconds : Z
}.

(** The same time of day one calendar day later. *)
Definition next_day (d : datetime) : datetime :=
  if Z.ltb (day d) (days_in_month (year d) (month d))
  then with_date d (year d) (month d) (day d + 1)
  else if Z.ltb (month d) 12
       then with_date d (year d) (month d + 1) 1
       else with_date d (year d + 1) 1 1.

(** The date of [d] with the time of day that is [secs] seconds after
    midnight. *)
Definition with_time (d : datetime) (secs : Z) : datetime :=
  {| year := year d; month := month d; day := day d;
     hour := secs / 3600; minute := (secs / 60) mod 60; second := secs mod 60;
     microsecond := microsecond d |}.

(** [d + timedelta(seconds=offset)] on the fields, for an offset of less
    than a day either way (as the offset of a zone is); the year is not
    checked here. *)
Definition plus_seconds (d : datetime) (offset : Z) : datetime :=
  let secs := (hour d * 3600 + minute d * 60 + second d + offset)%Z in
  if Z.ltb secs 0 then with_time (prev_day d) (secs + 86400)
  else if Z.leb 86400 secs then with_time (next_day d) (secs - 86400)
  else with_time d secs.

(** [dt.astimezone(tz)] for a UTC [dt] and a zone that is [offset] seconds
    east of UTC at that instant: the wall clock of the zone; it raises
    [OverflowError] when that falls outside the years 1 to 9999. *)
Definition astimezone (dt : datetime) (offset : Z) : result local_datetime :=
  let d' := plus_seconds dt offset in
  if Z.ltb (year d') 1 || Z.ltb 9999 (year d') then Raise OverflowError
  else Ok {| wall := d'; utcoffset_seconds := offset |}.

(* --------------------------------------------------------------------- *)
(** ** Parsed markup *)

(** The tree BeautifulSoup builds: text nodes and tags with their
    attributes. *)
Inductive node : Type :=
| Text (s : str)
| Tag (name : str) (attrs : list (str * str)) (children : list node).

(** The parsed document: its top-level nodes. *)
Definition soup := list node.

(** [tag.descendants]: every node below [n], in document order. *)
Fixpoint descendants (n : node) : list node :=
  match n with
  | Text _ => []
  | Tag _ _ cs =>
      (fix below (l : list node) : list node :=
         match l with
         | [] => []
         | c :: l' => c :: descendants c ++ below l'
         end) cs
  end.

Definition soup_descendants (s : soup) : list node :=
  flat_map (fun c => c :: descendants c) s.

(** [tag.get(key)] *)
Fixpoint attr_get (attrs : list (str * str)) (key : str) : option str :=
  match attrs with
  | [] => None
  | (k, v) :: attrs' => if str_eqb k key then Some v else attr_get attrs' key
  end.

Definition node_attrs (n : node) : list (str * str) :=
  match n with
  | Text _ => []
  | Tag _ a _ => a
  end.

Definition is_tag (name : str) (n : node) : bool :=
  match n with
  | Text _ => false
  | Tag t _ _ => str_eqb t name
  end.

(* --------------------------------------------------------------------- *)
(** ** The Python runtime and the libraries *)

(** What the program takes from the interpreter and from libraries.  The
    development holds for every implementation of this interface; where a
    result depends on what the built-ins do, their behaviour on ASCII text
    ([runtime_ok]) is all that is used. *)
Class Runtime : Type := {
  (** [s.lower()] *)
  lower : str -> str;
  (** [s.isdigit()] *)
  isdigit : str -> bool;
  (** [int(s)]; [None] is [ValueError] (which CPython also raises for a
      string of more than 4300 digits) *)
  int_of_str : str -> option Z;
  (** [s.strip()] *)
  strip : str -> str;
  (** [hashlib.md5(s.encode('utf-8')).hexdigest()] *)
  md5_hexdigest : str -> str;
  (** [BeautifulSoup(content, 'html.parser')] *)
  html_parser : str -> result soup;
  (** [dateutil.parser.isoparse(s)], as the instant in UTC; [None] is
      [ValueError] *)
  isoparse : str -> option datetime
}.

Record runtime_ok (R : Runtime) : Prop := {
  lower_plain : forall s, plain_text s = true -> lower s = ascii_lower s;
  isdigit_ascii : forall s, ascii_text s = true -> isdigit s = ascii_isdigit s;
  int_ascii : forall s, ascii_isdigit s = true ->
                        (List.length s <= 4300)%nat ->
                        int_of_str s = Some (decimal s)
}.

(* --------------------------------------------------------------------- *)
(** ** Constants and configuration *)

Definition AD_LINK_TAG : str := lit "a".
Definition AD_TITLE_SELECTOR_STYLE : str := lit "-webkit-line-clamp".
Definition AD_PRICE_SELECTOR_DIR : str := lit "auto".
Definition FACEBOOK_BASE_URL : str := lit "https://facebook.com".

(** What [load_from_json] stores on the monitor and the pipeline reads:
    [self.url_filters] (checked to be a dict) and [self.currency] (any JSON
    value of the file, by default the string "$"). *)
Record config : Type := {
  url_filters : dict;
  currency : json
}.

(** [self.urls_to_monitor = list(self.url_filters.keys())] *)
Definition urls_to_monitor (cfg : config) : list str := keys (url_filters cfg).

(** One extracted ad: [(ad_id_hash, title, price, ad_url)]. *)
Definition ad : Type := (str * str * str * str)%type.

Definition ad_hash (a : ad) : str := fst (fst (fst a)).
Definition ad_title (a : ad) : str := snd (fst (fst a)).
Definition ad_price (a : ad) : str := snd (fst a).
Definition ad_link_url (a : ad) : str := snd a.

Definition is_empty (s : str) : bool :=
  match s with
  | [] => true
  | _ :: _ => false
  end.

Section Pipeline.

Context {R : Runtime}.
Variable cfg : config.

(* --------------------------------------------------------------------- *)
(** ** [apply_filters] *)

(** [k.startswith('level') and k[5:].isdigit()] *)
Definition is_level_key (k : str) : bool :=
  startswith k (lit "level") && isdigit (skipn 5 k).

(** The sort key [int(x[5:])]. *)
Definition level_number (k : str) : result Z :=
  match int_of_str (skipn 5 k) with
  | Some n => Ok n
  | None => Raise ValueError
  end.

(** [sorted] computes the key of every element first, in order. *)
Fixpoint with_sort_keys (l : list str) : result (list (Z * str)) :=
  match l with
  | [] => Ok []
  | k :: l' =>
      match level_number k with
      | Raise e => Raise e
      | Ok n =>
          match with_sort_keys l' with
          | Raise e => Raise e
          | Ok r => Ok ((n, k) :: r)
          end
      end
  end.

(** Stable insertion: [x] goes before the first element with a key that is
    not smaller. *)
Fixpoint insert_sorted (x : Z * str) (l : list (Z * str)) : list (Z * str) :=
  match l with
  | [] => [x]
  | y :: l' => if Z.leb (fst x) (fst y) then x :: y :: l' else y :: insert_sorted x l'
  end.

(** [sorted(l, key=lambda x: int(x[5:]))]: ascending, equal keys in their
    original order. *)
Definition sorted_levels (l : list str) : result (list str) :=
  match with_sort_keys l with
  | Raise e => Raise e
  | Ok r => Ok (map snd (fold_right insert_sorted [] r))
  end.

(** [any(keyword.lower() in title_lower for keyword in keywords)]: the scan
    stops at the first keyword that occurs; [.lower()] on a value that is not
    a string raises [AttributeError]. *)
Fixpoint any_keyword (keywords : list json) (title_lower : str) : result bool :=
  match keywords with
  | [] => Ok false
  | JStr keyword :: rest =>
      if contains (lower keyword) title_lower then Ok true
      else any_keyword rest title_lower
  | _ :: _ => Raise AttributeError
  end.

(** The loop [for level in level_keys]. *)
Fixpoint check_levels (filters : dict) (title_lower : str) (level_keys : list str)
  : result bool :=
  match level_keys with
  | [] => Ok true
  | level :: rest =>
      match dict_get filters level with
      | Some (JList keywords) =>
          match keywords with
          | [] => check_levels filters title_lower rest
          | _ :: _ =>
              match any_keyword keywords title_lower with
              | Raise e => Raise e
              | Ok false => Ok false
              | Ok true => check_levels filters title_lower rest
              end
          end
      | Some _ => check_levels filters title_lower rest
      | None => check_levels filters title_lower rest
      end
  end.

(** The body of the [try] of [apply_filters]. *)
Definition apply_filters_try (filters : dict) (title : str) : result bool :=
  match sorted_levels (filter is_level_key (keys filters)) with
  | Raise e => Raise e
  | Ok level_keys =>
      match level_keys with
      | [] => Ok true
      | _ :: _ => check_levels filters (lower title) level_keys
      end
  end.

Definition apply_filters (url title : str) : bool :=
  match dict_get (url_filters cfg) url with
  | None => true
  | Some filters =>
      if negb (truthy filters) then true
      else
        match filters with
        | JDict d =>
            match apply_filters_try d title with
            | Ok b => b
            | Raise _ => false
            end
        | _ => true
        end
  end.

(* --------------------------------------------------------------------- *)
(** ** [get_ads_hash] and [extract_ad_details] *)

Definition get_ads_hash (content : str) : str := md5_hexdigest content.

Definition has_attr (key : str) (n : node) : bool :=
  match attr_get (node_attrs n) key with
  | Some _ => true
  | None => false
  end.

(** [soup.find_all(AD_LINK_TAG, href=True)] *)
Definition find_all_links (s : soup) : list node :=
  filter (fun n => is_tag AD_LINK_TAG n && has_attr (lit "href") n)
         (soup_descendants s).

(** [tag.find('span', ...)]: the first [span] below [tag] whose attributes
    satisfy the test. *)
Definition find_span (test : list (str * str) -> bool) (tag : node) : option node :=
  find (fun c => is_tag (lit "span") c && test (node_attrs c)) (descendants tag).

(** [style=lambda value: value and AD_TITLE_SELECTOR_STYLE in value] *)
Definition title_style (attrs : list (str * str)) : bool :=
  match attr_get attrs (lit "style") with
  | Some value => negb (is_empty value) && contains AD_TITLE_SELECTOR_STYLE value
  | None => false
  end.

(** [dir=AD_PRICE_SELECTOR_DIR] *)
Definition price_dir (attrs : list (str * str)) : bool :=
  match attr_get attrs (lit "dir") with
  | Some value => str_eqb value AD_PRICE_SELECTOR_DIR
  | None => false
  end.

Definition text_of (n : node) : list str :=
  match n with
  | Text s => [s]
  | Tag _ _ _ => []
  end.

(** [tag.get_text(strip=True)]: the stripped, non-empty strings below
    [tag], joined. *)
Definition get_text (tag : node) : str :=
  List.concat (filter (fun s => negb (is_empty s))
                      (map strip (flat_map text_of (descendants tag)))).

(** [price.startswith(self.currency) or 'free' in price.lower()];
    [startswith] raises [TypeError] on an argument that is not a string. *)
Definition price_format_ok (price : str) : result bool :=
  match currency cfg with
  | JStr symbol => Ok (startswith price symbol || contains (lit "free") (lower price))
  | _ => Raise TypeError
  end.

(** [ad_link.get('href', '')] *)
Definition href_of (ad_link : node) : str :=
  match attr_get (node_attrs ad_link) (lit "href") with
  | Some h => h
  | None => []
  end.

(** [f"{FACEBOOK_BASE_URL}{href.split('?')[0]}"]; 63 is the question mark. *)
Definition full_url_of (href : str) : str := FACEBOOK_BASE_URL ++ before 63 href.

(** The loop [for ad_link in ad_links], with its two accumulators. *)
Fixpoint scan_links (source_url : str) (ad_links : list node)
  (processed_urls : list str) (ads_found : list ad) : result (list ad) :=
  match ad_links with
  | [] => Ok ads_found
  | ad_link :: rest =>
      let href := href_of ad_link in
      if is_empty href || negb (startswith href (lit "/marketplace/item/"))
      then scan_links source_url rest processed_urls ads_found
      else
        let full_url := full_url_of href in
        if mem full_url processed_urls
        then scan_links source_url rest processed_urls ads_found
        else
          let processed_urls := full_url :: processed_urls in
          match find_span title_style ad_link, find_span price_dir ad_link with
          | Some title_span, Some price_span =>
              let title := get_text title_span in
              let price := get_text price_span in
              match price_format_ok price with
              | Raise e => Raise e
              | Ok true =>
                  let ad_id_hash := get_ads_hash full_url in
                  if apply_filters source_url title
                  then scan_links source_url rest processed_urls
                         (ads_found ++ [(ad_id_hash, title, price, full_url)])
                  else scan_links source_url rest processed_urls ads_found
              | Ok false => scan_links source_url rest processed_urls ads_found
              end
          | _, _ => scan_links source_url rest processed_urls ads_found
          end
  end.

Definition extract_ad_details (content source_url : str) : list ad :=
  match html_parser content with
  | Raise _ => []
  | Ok parsed =>
      match scan_links source_url (find_all_links parsed) [] [] with
      | Ok ads_found => ads_found
      | Raise _ => []
      end
  end.

End Pipeline.

(* --------------------------------------------------------------------- *)
(** ** The ledger: table [ad_changes] *)

(** One row of [ad_changes] (the surrogate key [id] is never read). *)
Record row : Type := {
  url : str;
  ad_id : str;
  title : str;
  price : str;
  first_seen : str;
  last_checked : str
}.

Definition table := list row.

Definition has_ad_id (id : str) (r : row) : bool := str_eqb (ad_id r) id.

(** [SET last_checked = ?] on one row. *)
Definition touch (now_iso : str) (r : row) : row :=
  {| url := url r; ad_id := ad_id r; title := title r; price := price r;
     first_seen := first_seen r; last_checked := now_iso |}.

(** [UPDATE ad_changes SET last_checked = ? WHERE ad_id = ?] *)
Definition sql_update (now_iso id : str) (t : table) : table :=
  map (fun r => if has_ad_id id r then touch now_iso r else r) t.

(** [DELETE FROM ad_changes WHERE last_checked < ?]: the rows that stay. *)
Definition sql_delete (cutoff : str) (t : table) : table :=
  filter (fun r => negb (str_ltb (last_checked r) cutoff)) t.

(** The rows that statement deletes; their number is [cursor.rowcount]. *)
Definition sql_deleted (cutoff : str) (t : table) : table :=
  filter (fun r => str_ltb (last_checked r) cutoff) t.

Fixpoint insert_desc (r : row) (l : table) : table :=
  match l with
  | [] => [r]
  | x :: l' =>
      if str_ltb (last_checked r) (last_checked x) then x :: insert_desc r l'
      else r :: x :: l'
  end.

(** [SELECT ... WHERE last_checked >= ? ORDER BY last_checked DESC LIMIT 100].
    SQL leaves the order among rows of equal [last_checked] open; SQLite
    answers this query by walking the index [idx_last_checked] backwards,
    which gives, among such rows, the one stored later first.  The table is
    in the order of storing, so it is sorted from its end. *)
Definition sql_recent (since : str) (t : table) : table :=
  firstn 100
    (fold_right insert_desc []
       (rev (filter (fun r => negb (str_ltb (last_checked r) since)) t))).

(* --------------------------------------------------------------------- *)
(** ** The feed object and the state of the process *)

(** A [PyRSS2Gen.RSSItem]. *)
Record rss_item : Type := {
  item_title : str;
  link : str;
  description : str;
  guid : str;
  pubDate : local_datetime
}.

(** Messages of the logger that the properties below refer to. *)
Inductive log_event : Type :=
| LogJobAlreadyRunning
| LogNoConnection
| LogUrlError (source_url : str) (e : exn)
| LogIntegrityError (id : str)
| LogAdDbError (id : str) (e : exn)
| LogPruned (deleted_count : nat)
| LogPruneError (e : exn)
| LogFinished (new_ads_added : nat)
| LogPassError (e : exn).

(** The mutable state: the database file, the open connection's view of
    it, the monitor's feed object and lock, the local variables of the
    running method ([conn]: whether it holds a connection), the log, and how
    far the environment's oracles have been read. *)
Record world : Type := {
  disk : table;
  txn : table;
  conn : bool;
  rss_items : list rss_item;
  lastBuildDate : datetime;
  job_lock : bool;
  added_ad_ids_this_run : list str;
  new_ads_added_count : nat;
  log : list log_event;
  db_calls : nat;
  clock_reads : nat
}.

Definition set_disk (t : table) (w : world) : world :=
  {| disk := t; txn := txn w; conn := conn w; rss_items := rss_items w;
     lastBuildDate := lastBuildDate w; job_lock := job_lock w;
     added_ad_ids_this_run := added_ad_ids_this_run w;
     new_ads_added_count := new_ads_added_count w; log := log w;
     db_calls := db_calls w; clock_reads := clock_reads w |}.

Definition set_txn (t : table) (w : world) : world :=
  {| disk := disk w; txn := t; conn := conn w; rss_items := rss_items w;
     lastBuildDate := lastBuildDate w; job_lock := job_lock w;
     added_ad_ids_this_run := added_ad_ids_this_run w;
     new_ads_added_count := new_ads_added_count w; log := log w;
     db_calls := db_calls w; clock_reads := clock_reads w |}.

Definition set_conn (b : bool) (w : world) : world :=
  {| disk := disk w; txn := txn w; conn := b; rss_items := rss_items w;
     lastBuildDate := lastBuildDate w; job_lock := job_lock w;
     added_ad_ids_this_run := added_ad_ids_this_run w;
     new_ads_added_count := new_ads_added_count w; log := log w;
     db_calls := db_calls w; clock_reads := clock_reads w |}.

Definition set_rss_items (l : list rss_item) (w : world) : world :=
  {| disk := disk w; txn := txn w; conn := conn w; rss_items := l;
     lastBuildDate := lastBuildDate w; job_lock := job_lock w;
     added_ad_ids_this_run := added_ad_ids_this_run w;
     new_ads_added_count := new_ads_added_count w; log := log w;
     db_calls := db_calls w; clock_reads := clock_reads w |}.

Definition set_lastBuildDate (d : datetime) (w : world) : world :=
  {| disk := disk w; txn := txn w; conn := conn w;
     rss_items := rss_items w; lastBuildDate := d; job_lock := job_lock w;
     added_ad_ids_this_run := added_ad_ids_this_run w;
     new_ads_added_count := new_ads_added_count w; log := log w;
     db_calls := db_calls w; clock_reads := clock_reads w |}.

Definition set_job_lock (b : bool) (w : world) : world :=
  {| disk := disk w; txn := txn w; conn := conn w;
     rss_items := rss_items w; lastBuildDate := lastBuildDate w;
     job_lock := b; added_ad_ids_this_run := added_ad_ids_this_run w;
     new_ads_added_count := new_ads_added_count w; log := log w;
     db_calls := db_calls w; clock_reads := clock_reads w |}.

Definition set_added (l : list str) (w : world) : world :=
  {| disk := disk w; txn := txn w; conn := conn w;
     rss_items := rss_items w; lastBuildDate := lastBuildDate w;
     job_lock := job_lock w; added_ad_ids_this_run := l;
     new_ads_added_count := new_ads_added_count w; log := log w;
     db_calls := db_calls w; clock_reads := clock_reads w |}.

Definition set_new_count (n : nat) (w : world) : world :=
  {| disk := disk w; txn := txn w; conn := conn w;
     rss_items := rss_items w; lastBuildDate := lastBuildDate w;
     job_lock := job_lock w;
     added_ad_ids_this_run := added_ad_ids_this_run w;
     new_ads_added_count := n; log := log w; db_calls := db_calls w;
     clock_reads := clock_reads w |}.

Definition add_log (ev : log_event) (w : world) : world :=
  {| disk := disk w; txn := txn w; conn := conn w;
     rss_items := rss_items w; lastBuildDate := lastBuildDate w;
     job_lock := job_lock w;
     added_ad_ids_this_run := added_ad_ids_this_run w;
     new_ads_added_count := new_ads_added_count w; log := log w ++ [ev];
     db_calls := db_calls w; clock_reads := clock_reads w |}.

Definition count_db_call (w : world) : world :=
  {| disk := disk w; txn := txn w; conn := conn w;
     rss_items := rss_items w; lastBuildDate := lastBuildDate w;
     job_lock := job_lock w;
     added_ad_ids_this_run := added_ad_ids_this_run w;
     new_ads_added_count := new_ads_added_count w; log := log w;
     db_calls := S (db_calls w); clock_reads := clock_reads w |}.

Definition count_clock_read (w : world) : world :=
  {| disk := disk w; txn := txn w; conn := conn w;
     rss_items := rss_items w; lastBuildDate := lastBuildDate w;
     job_lock := job_lock w;
     added_ad_ids_this_run := added_ad_ids_this_run w;
     new_ads_added_count := new_ads_added_count w; log := log w;
     db_calls := db_calls w; clock_reads := S (clock_reads w) |}.

(** What fetching a source page gives: [init_selenium] raises, or
    [get_page_content] returns [None], or it returns the page source. *)
Inductive page : Type :=
| DriverFails (e : exn)
| NoContent
| Content (content : str).

(** The environment of a run.  [db_fault n] is the exception the [n]-th
    call into sqlite3 raises, if it raises one; [clock n] is the [n]-th
    reading of [datetime.now(timezone.utc)]; [utcoffset] is the local zone
    [tzlocal.get_localzone()] gave. *)
Record env : Type := {
  db_fault : nat -> option exn;
  clock : nat -> datetime;
  fetch : str -> page;
  to_xml_raises : bool;
  (** [self.local_tz]: the offset of the local zone from UTC, in seconds,
      at a UTC instant *)
  utcoffset : datetime -> Z
}.

(* --------------------------------------------------------------------- *)
(** ** Computations: state and exceptions *)

Definition M (A : Type) : Type := world -> result A * world.

Definition ret {A : Type} (a : A) : M A := fun w => (Ok a, w).

Definition raise {A : Type} (e : exn) : M A := fun w => (Raise e, w).

Definition bind {A B : Type} (m : M A) (k : A -> M B) : M B :=
  fun w =>
    match m w with
    | (Ok a, w') => k a w'
    | (Raise e, w') => (Raise e, w')
    end.

Definition gets {A : Type} (f : world -> A) : M A := fun w => (Ok (f w), w).

Definition modify (f : world -> world) : M unit := fun w => (Ok tt, f w).

(** [try: body  except Exception as e: handler e] *)
Definition try_except {A : Type} (body : M A) (handler : exn -> M A) : M A :=
  fun w =>
    match body w with
    | (Ok a, w') => (Ok a, w')
    | (Raise e, w') => handler e w'
    end.

(** [try: body  finally: cleanup] *)
Definition try_finally {A : Type} (body : M A) (cleanup : world -> world) : M A :=
  fun w =>
    match body w with
    | (r, w') => (r, cleanup w')
    end.

Declare Scope monad_scope.
Delimit Scope monad_scope with monad.
Notation "x <- m ;; k" := (bind m (fun x => k))
  (at level 61, m at next level, right associativity) : monad_scope.
Notation "m ;; k" := (bind m (fun _ => k))
  (at level 61, right associativity) : monad_scope.
Open Scope monad_scope.

(** [for x in l: f x] *)
Fixpoint for_each {A : Type} (f : A -> M unit) (l : list A) : M unit :=
  match l with
  | [] => ret tt
  | x :: l' => f x ;; for_each f l'
  end.

Section Monitor.

Context {R : Runtime}.
Variable cfg : config.
Variable E : env.

(* --------------------------------------------------------------------- *)
(** ** Calls into sqlite3 and the clock *)

(** Every call into sqlite3 consults the environment: it raises what
    [db_fault] says, and has no effect then. *)
Definition db_call : M unit :=
  fun w =>
    match db_fault E (db_calls w) with
    | Some e => (Raise e, count_db_call w)
    | None => (Ok tt, count_db_call w)
    end.

(** [datetime.now(timezone.utc)] *)
Definition now : M datetime :=
  fun w => (Ok (clock E (clock_reads w)), count_clock_read w).

(** [get_db_connection]: [True] stands for a connection, [False] for
    [None]; a new connection sees the committed rows. *)
Definition get_db_connection : M bool :=
  try_except
    (db_call ;; modify (fun w => set_txn (disk w) w) ;; ret true)
    (fun e => if is_sqlite_error e then ret false else raise e).

(** [conn = self.get_db_connection()] *)
Definition open_connection : M bool :=
  c <- get_db_connection ;; modify (set_conn c) ;; ret c.

(** [if conn: conn.close()]: changes that were not committed are lost. *)
Definition close (w : world) : world :=
  if conn w then set_txn (disk w) w else w.

(** [SELECT ad_id FROM ad_changes WHERE ad_id = ?] and [fetchone()]:
    whether a row came back. *)
Definition select_ad_id (id : str) : M bool :=
  db_call ;; gets (fun w => existsb (has_ad_id id) (txn w)).

(** [INSERT INTO ad_changes (url, ad_id, title, price, first_seen,
    last_checked) VALUES (...)]; column [ad_id] is UNIQUE. *)
Definition insert_ad (r : row) : M unit :=
  db_call ;;
  exists_ <- gets (fun w => existsb (has_ad_id (ad_id r)) (txn w)) ;;
  if (exists_ : bool) then raise IntegrityError
  else modify (fun w => set_txn (txn w ++ [r]) w).

Definition update_last_checked (now_iso id : str) : M unit :=
  db_call ;; modify (fun w => set_txn (sql_update now_iso id (txn w)) w).

(** [conn.commit()] *)
Definition commit : M unit :=
  db_call ;; modify (fun w => set_disk (txn w) w).

(** [conn.rollback()] *)
Definition rollback : M unit :=
  db_call ;; modify (fun w => set_txn (disk w) w).

(** [if conn: conn.rollback()] *)
Definition rollback_if_conn : M unit :=
  c <- gets conn ;; if (c : bool) then rollback else ret tt.

(** The [DELETE] statement, returning [cursor.rowcount]. *)
Definition delete_older (cutoff : str) : M nat :=
  db_call ;;
  deleted_count <- gets (fun w => List.length (sql_deleted cutoff (txn w))) ;;
  modify (fun w => set_txn (sql_delete cutoff (txn w)) w) ;;
  ret deleted_count.

(** The feed's [SELECT] and [fetchall()]. *)
Definition select_recent (since : str) : M table :=
  db_call ;; gets (fun w => sql_recent since (txn w)).

Definition lift {A : Type} (r : result A) : M A := fun w => (r, w).

Definition log_msg (ev : log_event) : M unit := modify (add_log ev).

(* --------------------------------------------------------------------- *)
(** ** [check_for_new_ads] *)

(** [local_time(dt)] for a [dt] in UTC: [dt.astimezone(self.local_tz)]. *)
Definition local_time (dt : datetime) : result local_datetime :=
  astimezone dt (utcoffset E dt).

Definition new_rss_item (title price ad_url id : str) (pub : local_datetime)
  : rss_item :=
  {| item_title := title ++ lit " - " ++ price;
     link := ad_url;
     description := lit "Price: " ++ price ++ lit " | Title: " ++ title;
     guid := id;
     pubDate := pub |}.

(** The body of [for ad_id, title, price, ad_url in ads].  The item of a
    new ad is built, with [self.local_time(now_utc)] as its [pubDate],
    before the [try] of the insert: an exception of the conversion leaves
    the loop over the ads. *)
Definition process_ad (a : ad) : M unit :=
  let '(ad_id, title, price, ad_url) := a in
  added <- gets added_ad_ids_this_run ;;
  if mem ad_id added then ret tt
  else
    existing_ad <- select_ad_id ad_id ;;
    now_utc <- now ;;
    let now_iso := isoformat now_utc in
    if (existing_ad : bool)
    then update_last_checked now_iso ad_id ;; commit
    else
      pubDate <- lift (local_time now_utc) ;;
      let new_item := new_rss_item title price ad_url ad_id pubDate in
      try_except
        (insert_ad {| url := ad_url; ad_id := ad_id; title := title;
                      price := price; first_seen := now_iso;
                      last_checked := now_iso |} ;;
         commit ;;
         modify (fun w => set_rss_items (new_item :: rss_items w) w) ;;
         modify (fun w => set_added (ad_id :: added_ad_ids_this_run w) w) ;;
         modify (fun w => set_new_count (S (new_ads_added_count w)) w))
        (fun e =>
           if is_integrity_error e
           then log_msg (LogIntegrityError ad_id) ;;
                update_last_checked now_iso ad_id ;; commit
           else if is_sqlite_error e
                then log_msg (LogAdDbError ad_id e) ;; rollback
                else raise e).

(** The body of [for url in self.urls_to_monitor], with its [try]. *)
Definition process_url (source_url : str) : M unit :=
  try_except
    (match fetch E source_url with
     | DriverFails e => raise e
     | NoContent => ret tt
     | Content content =>
         match extract_ad_details cfg content source_url with
         | [] => ret tt
         | ads => for_each process_ad ads
         end
     end)
    (fun e => log_msg (LogUrlError source_url e)).

(** [prune_old_ads(conn, days_to_keep)] *)
Definition prune_old_ads (days_to_keep : nat) : M unit :=
  try_except
    (now_utc <- now ;;
     cutoff_date <- lift (sub_days now_utc days_to_keep) ;;
     deleted_count <- delete_older (isoformat cutoff_date) ;;
     commit ;;
     log_msg (LogPruned deleted_count))
    (fun e =>
       if is_sqlite_error e then log_msg (LogPruneError e) ;; rollback
       else raise e).

(** [self.job_lock.acquire(blocking=False)] *)
Definition try_acquire (w : world) : bool * world :=
  if job_lock w then (false, w) else (true, set_job_lock true w).

(** [self.job_lock.release()] *)
Definition release (w : world) : world := set_job_lock false w.

(** The statements between [conn = self.get_db_connection()] and the
    [except] clauses. *)
Definition pass_try : M bool :=
  c <- open_connection ;;
  if (c : bool)
  then
    modify (set_added []) ;;
    for_each process_url (urls_to_monitor cfg) ;;
    prune_old_ads 14 ;;
    n <- gets new_ads_added_count ;;
    log_msg (LogFinished n) ;;
    ret true
  else log_msg LogNoConnection ;; ret false.

(** What runs while the lock is held: the local variables are set, then
    the [try] with its two [except] clauses and its [finally], which closes
    the connection and releases the lock. *)
Definition pass_locked : M unit :=
  modify (set_conn false) ;;
  modify (set_new_count 0) ;;
  try_finally
    (try_except
       (pass_try ;; ret tt)
       (fun e =>
          log_msg (LogPassError e) ;;
          if is_database_error e then rollback_if_conn else ret tt))
    (fun w => release (close w)).

Definition check_for_new_ads : M unit :=
  fun w =>
    match try_acquire w with
    | (false, w') => (Ok tt, add_log LogJobAlreadyRunning w')
    | (true, w') => pass_locked w'
    end.

(* --------------------------------------------------------------------- *)
(** ** The feed *)

(** The body of [for change in changes], with its [try]: one fetched row
    as a feed item, with the local time of its [last_checked] as
    [pubDate]; a row whose [last_checked] does not parse, or whose
    conversion to local time raises, is skipped. *)
Definition item_of_change (change : row) : list rss_item :=
  match isoparse (last_checked change) with
  | Some last_checked_dt_utc =>
      match local_time last_checked_dt_utc with
      | Ok pub_date_local =>
          [new_rss_item (title change) (price change) (url change) (ad_id change)
             pub_date_local]
      | Raise _ => []
      end
  | None => []
  end.

Definition generate_rss_feed_from_db : M unit :=
  modify (set_conn false) ;;
  try_finally
    (try_except
       (c <- open_connection ;;
        if (c : bool)
        then
          now_utc <- now ;;
          relevant_period_start <- lift (sub_days now_utc 7) ;;
          changes <- select_recent (isoformat relevant_period_start) ;;
          let new_items := flat_map item_of_change changes in
          modify (set_rss_items new_items) ;;
          built <- now ;;
          modify (set_lastBuildDate built)
        else ret tt)
       (fun _ => modify (set_rss_items [])))
    close.

(** The answer of the [/rss] endpoint: the feed document (by its items and
    build date) or the plain-text status 500 answer. *)
Inductive response : Type :=
| FeedXml (items : list rss_item) (built : datetime)
| Status500.

Definition rss : M response :=
  generate_rss_feed_from_db ;;
  items <- gets rss_items ;;
  built <- gets lastBuildDate ;;
  if to_xml_raises E then ret Status500 else ret (FeedXml items built).

End Monitor.

(* --------------------------------------------------------------------- *)
(** ** Several triggers of the job *)

(** A trigger of [check_for_new_ads] (a scheduler tick or a manual call)
    that has not tested the lock yet, holds it, has released it, or was
    turned away. *)
Inductive phase : Type :=
| Triggered
| InFlight
| Finished
| Turned_away.

Record system : Type := {
  shared : world;
  jobs : list phase
}.

Fixpoint set_phase (i : nat) (p : phase) (l : list phase) : list phase :=
  match l, i with
  | [], _ => []
  | _ :: l', O => p :: l'
  | q :: l', S i' => q :: set_phase i' p l'
  end.

Definition in_flight (p : phase) : bool :=
  match p with
  | InFlight => true
  | _ => false
  end.

Definition count_in_flight (l : list phase) : nat := List.length (filter in_flight l).

(** The lock is held exactly while one trigger is in flight. *)
Definition lock_tracks_flight (sys : system) : Prop :=
  (job_lock (shared sys) = true /\ count_in_flight (jobs sys) = 1%nat)
  \/ (job_lock (shared sys) = false /\ count_in_flight (jobs sys) = 0%nat).

Section Triggers.

Context {R : Runtime}.
Variable cfg : config.
Variable E : env.

(** One trigger moves at a time.  Testing the lock is one atomic step
    ([Lock.acquire(blocking=False)]); the job that holds the lock then runs
    [pass_locked] to its end. *)
Inductive job_step : system -> system -> Prop :=
| step_acquire (i : nat) (sys : system) (w' : world) :
    nth_error (jobs sys) i = Some Triggered ->
    try_acquire (shared sys) = (true, w') ->
    job_step sys {| shared := w'; jobs := set_phase i InFlight (jobs sys) |}
| step_turned_away (i : nat) (sys : system) (w' : world) :
    nth_error (jobs sys) i = Some Triggered ->
    try_acquire (shared sys) = (false, w') ->
    job_step sys {| shared := add_log LogJobAlreadyRunning w';
                    jobs := set_phase i Turned_away (jobs sys) |}
| step_finish (i : nat) (sys : system) :
    nth_error (jobs sys) i = Some InFlight ->
    job_step sys {| shared := snd (pass_locked cfg E (shared sys));
                    jobs := set_phase i Finished (jobs sys) |}.

Inductive job_steps : system -> system -> Prop :=
| steps_none (sys : system) : job_steps sys sys
| steps_more (a b c : system) : job_steps a b -> job_step b c -> job_steps a c.

(** Before any trigger has moved: the lock is free. *)
Definition initial (sys : system) : Prop :=
  job_lock (shared sys) = false /\ Forall (fun p => p = Triggered) (jobs sys).

End Triggers.

(* --------------------------------------------------------------------- *)
(** ** The specification's notions *)

Section SpecNotions.

Context {R : Runtime}.

(** A policy as the configuration file is meant to give it: level names
    with their keywords. *)
Definition policy := list (str * list str).

Definition policy_json (p : policy) : json :=
  JDict (map (fun kv => (fst kv, JList (map JStr (snd kv)))) p).

(** [level] followed by one or more decimal digits. *)
Definition level_name (k : str) : bool :=
  startswith k (lit "level") && ascii_isdigit (skipn 5 k).

Definition well_formed_policy (p : policy) : Prop :=
  NoDup (map fst p) /\ Forall (fun kv => level_name (fst kv) = true) p.

(** No level number has more than 4300 digits, the most that [int]
    converts. *)
Definition short_levels (p : policy) : Prop :=
  Forall (fun kv => (List.length (skipn 5 (fst kv)) <= 4300)%nat) p.

(** [kw] occurs in [title] as a substring when case is ignored. *)
Definition occurs_ignoring_case (kw title : str) : bool :=
  contains (lower kw) (lower title).

(** Every level that has a keyword has one that occurs in the title. *)
Definition passes_policy (p : policy) (title : str) : Prop :=
  forall level kws,
    In (level, kws) p -> kws <> [] ->
    exists kw, In kw kws /\ occurs_ignoring_case kw title = true.

(** A configuration with its malformed pieces taken out: a keyword that is
    not a string is dropped, a level that is not a list has no keyword, a
    policy that is not a mapping has no level. *)
Definition is_str (v : json) : bool :=
  match v with
  | JStr _ => true
  | _ => false
  end.

Definition sanitize_level (v : json) : json :=
  match v with
  | JList kws => JList (filter is_str kws)
  | _ => JList []
  end.

Definition sanitize_policy (v : json) : json :=
  match v with
  | JDict d => JDict (map (fun kv => (fst kv, sanitize_level (snd kv))) d)
  | _ => JDict []
  end.

Definition sanitize (cfg : config) : config :=
  {| url_filters := map (fun kv => (fst kv, sanitize_policy (snd kv))) (url_filters cfg);
     currency := currency cfg |}.

(** Anchors that point at a listing, and the link they stand for. *)
Definition is_listing_link (ad_link : node) : bool :=
  negb (is_empty (href_of ad_link))
  && startswith (href_of ad_link) (lit "/marketplace/item/").

Definition canonical_url (ad_link : node) : str := full_url_of (href_of ad_link).

(** First occurrence wins: an anchor counts when no anchor before it (nor
    [seen]) has its canonical link. *)
Fixpoint first_occurrences (seen : list str) (ad_links : list node) : list node :=
  match ad_links with
  | [] => []
  | a :: rest =>
      if mem (canonical_url a) seen then first_occurrences seen rest
      else a :: first_occurrences (canonical_url a :: seen) rest
  end.

(** The candidates of a page, in document order. *)
Definition candidates (parsed : soup) : list node :=
  first_occurrences [] (filter is_listing_link (find_all_links parsed)).

Definition title_of (ad_link : node) : str :=
  match find_span title_style ad_link with
  | Some title_span => get_text title_span
  | None => []
  end.

Definition price_of (ad_link : node) : str :=
  match find_span price_dir ad_link with
  | Some price_span => get_text price_span
  | None => []
  end.

(** The currency gate. *)
Definition currency_gate (symbol price : str) : bool :=
  startswith price symbol || contains (lit "free") (lower price).

(** Both nodes are found and the price passes the gate. *)
Definition accepted (symbol : str) (ad_link : node) : bool :=
  match find_span title_style ad_link, find_span price_dir ad_link with
  | Some _, Some _ => currency_gate symbol (price_of ad_link)
  | _, _ => false
  end.

Definition record_of (ad_link : node) : ad :=
  (get_ads_hash (canonical_url ad_link), title_of ad_link, price_of ad_link,
   canonical_url ad_link).

(** What [extract_ad_details] keeps of a candidate: it is accepted and its
    title passes the filter of the source. *)
Definition kept (cfg : config) (symbol source_url : str) (ad_link : node) : bool :=
  accepted symbol ad_link && apply_filters cfg source_url (title_of ad_link).


End SpecNotions.

(** Rows that differ at most in [last_checked]. *)
Definition same_but_last_checked (r r' : row) : Prop :=
  url r' = url r /\ ad_id r' = ad_id r /\ title r' = title r /\
  price r' = price r /\ first_seen r' = first_seen r.

(** The ledger entries of an identity. *)
Definition entries (id : str) (t : table) : table := filter (has_ad_id id) t.

(** Column [ad_id] is UNIQUE. *)
Definition unique_ids (t : table) : Prop := NoDup (map ad_id t).

(** No call into sqlite3 raises from the [n]-th on. *)
Definition no_fault_from (E : env) (n : nat) : Prop :=
  forall k, (n <= k)%nat -> db_fault E k = None.

(* --------------------------------------------------------------------- *)
(** ** A runtime to run the program on examples *)

(** Whitespace of the ASCII range, as [str.strip] sees it. *)
Definition is_space (c : N) : bool :=
  (N.leb 9 c && N.leb c 13) || (N.leb 28 c && N.leb c 32).

Fixpoint lstrip (s : str) : str :=
  match s with
  | [] => []
  | c :: s' => if is_space c then lstrip s' else s
  end.

Definition ascii_strip (s : str) : str := rev (lstrip (rev (lstrip s))).

(** [int(s)] on ASCII text, with CPython's default limit of 4300 digits. *)
Definition ascii_int (s : str) : option Z :=
  if ascii_isdigit s && Nat.leb (List.length s) 4300 then Some (decimal s) else None.

Fixpoint read_digits (n : nat) (acc : Z) (s : str) : option (Z * str) :=
  match n with
  | O => Some (acc, s)
  | S n' =>
      match s with
      | [] => None
      | c :: s' =>
          if is_decimal_digit c
          then read_digits n' (10 * acc + (Z.of_N c - 48))%Z s'
          else None
      end
  end.

Definition expect (c : N) (s : str) : option str :=
  match s with
  | [] => None
  | x :: s' => if N.eqb x c then Some s' else None
  end.

Definition and_then {A B : Type} (o : option A) (k : A -> option B) : option B :=
  match o with
  | Some a => k a
  | None => None
  end.

(** Reads back the texts [isoformat] writes. *)
Definition parse_iso (s : str) : option datetime :=
  and_then (read_digits 4 0%Z s) (fun '(y, s) =>
  and_then (expect 45 s) (fun s =>
  and_then (read_digits 2 0%Z s) (fun '(mo, s) =>
  and_then (expect 45 s) (fun s =>
  and_then (read_digits 2 0%Z s) (fun '(d, s) =>
  and_then (expect 84 s) (fun s =>
  and_then (read_digits 2 0%Z s) (fun '(h, s) =>
  and_then (expect 58 s) (fun s =>
  and_then (read_digits 2 0%Z s) (fun '(mi, s) =>
  and_then (expect 58 s) (fun s =>
  and_then (read_digits 2 0%Z s) (fun '(sec, s) =>
  and_then (match expect 46 s with
            | Some s' => read_digits 6 0%Z s'
            | None => Some (0%Z, s)
            end) (fun '(us, s) =>
  if str_eqb s (lit "+00:00")
  then Some {| year := y; month := mo; day := d; hour := h; minute := mi;
               second := sec; microsecond := us |}
  else None)))))))))))).

Fixpoint page_lookup (pages : list (str * soup)) (content : str) : result soup :=
  match pages with
  | [] => Ok []
  | (c, parsed) :: pages' =>
      if str_eqb c content then Ok parsed else page_lookup pages' content
  end.

(** The built-ins on ASCII text, the parser by a table of the pages it is
    given, and a digest that keeps its input readable. *)
Definition example_runtime (pages : list (str * soup)) : Runtime :=
  {| lower := ascii_lower;
     isdigit := ascii_isdigit;
     int_of_str := ascii_int;
     strip := ascii_strip;
     md5_hexdigest := fun s => lit "md5:" ++ s;
     html_parser := page_lookup pages;
     isoparse := parse_iso |}.

(* --------------------------------------------------------------------- *)
(** ** Notions used to state what the filter computes *)

(** What the caller of a [try] body gets when [except] answers [False]. *)
Definition verdict (r : result bool) : bool :=
  match r with
  | Ok b => b
  | Raise _ => false
  end.

Definition converts (o : option Z) : bool :=
  match o with
  | Some _ => true
  | None => false
  end.

Section FilterNotions.

Context {R : Runtime}.

(** One level lets the title through: its value is no list, or an empty
    list, or the scan of its keywords ends on a keyword that occurs. *)
Definition level_passes (v : option json) (title_lower : str) : bool :=
  match v with
  | Some (JList ((_ :: _) as keywords)) => verdict (any_keyword keywords title_lower)
  | _ => true
  end.

(** The level keys of a policy, in the order of the dict. *)
Definition level_keys_of (d : dict) : list str := filter is_level_key (keys d).

(** [int(x[5:])] succeeds on every level key. *)
Definition levels_convert (d : dict) : bool :=
  forallb (fun k => converts (int_of_str (skipn 5 k))) (level_keys_of d).

End FilterNotions.

(* --------------------------------------------------------------------- *)
(** ** Example data *)

Definition example_source : str :=
  lit "https://www.facebook.com/marketplace/search?query=bike".

Definition other_source : str :=
  lit "https://www.facebook.com/marketplace/brisbane/search?query=bike".

(** The policy [{level1: ["a", "b"], level2: ["c"]}]. *)
Definition example_policy : policy :=
  [(lit "level1", [lit "a"; lit "b"]); (lit "level2", [lit "c"])].

Definition example_config : config :=
  {| url_filters := [(example_source, policy_json example_policy)];
     currency := JStr (lit "$") |}.

(** A level name with a number of 4301 digits, and the policy with that
    one level and the keyword "bike". *)
Definition long_level : str := lit "level" ++ repeat 49%N 4301.

Definition long_level_policy : policy := [(long_level, [lit "bike"])].

Definition long_level_config : config :=
  {| url_filters := [(example_source, policy_json long_level_policy)];
     currency := JStr (lit "$") |}.

(** A policy whose first level lists a number before a keyword:
    [{level1: [5, "bike"]}]. *)
Definition number_in_level_config : config :=
  {| url_filters :=
       [(example_source, JDict [(lit "level1", JList [JInt 5; JStr (lit "bike")])])];
     currency := JStr (lit "$") |}.

(** [{level1: "bike", level2: ["red"]}]: the first level is no list. *)
Definition level_not_a_list_config : config :=
  {| url_filters :=
       [(example_source,
         JDict [(lit "level1", JStr (lit "bike")); (lit "level2", JList [JStr (lit "red")])])];
     currency := JStr (lit "$") |}.

(** An anchor with a title span and a price span, and one with neither. *)
Definition listing_anchor (href title price : str) : node :=
  Tag (lit "a") [(lit "href", href)]
    [Tag (lit "span") [(lit "style", lit "-webkit-line-clamp: 2;")] [Text title];
     Tag (lit "span") [(lit "dir", lit "auto")] [Text price]].

Definition bare_anchor (href : str) : node :=
  Tag (lit "a") [(lit "href", href)] [].

(** A page with one listing, "Sofa" at "$50". *)
Definition sofa_content : str := lit "<html>sofa</html>".

Definition sofa_page : soup :=
  [Tag (lit "div") []
     [listing_anchor (lit "/marketplace/item/101/?ref=search") (lit "Sofa") (lit "$50")]].


(** The example source with an empty policy. *)
Definition open_config : config :=
  {| url_filters := [(example_source, JDict [])]; currency := JStr (lit "$") |}.

(** A page where the same listing is linked twice: first by an anchor
    without title and price, then by a complete one. *)
Definition twice_content : str := lit "<html>twice</html>".

Definition twice_page : soup :=
  [Tag (lit "div") []
     [bare_anchor (lit "/marketplace/item/7/");
      listing_anchor (lit "/marketplace/item/7/?ref=search") (lit "Bike") (lit "$10")]].

Definition example_pages : list (str * soup) :=
  [(sofa_content, sofa_page); (twice_content, twice_page)].

(* --------------------------------------------------------------------- *)
(** ** Notions used to state what a pass does to the ledger *)

(** The identity of the ad is the digest of its link. *)
Definition hashed_from_link {R : Runtime} (x : ad) : Prop :=
  ad_hash x = get_ads_hash (ad_link_url x).

(** The row [process_ad] inserts for an ad sighted at [stamp]. *)
Definition row_of_ad (a : ad) (stamp : str) : row :=
  {| url := ad_link_url a; ad_id := ad_hash a; title := ad_title a;
     price := ad_price a; first_seen := stamp; last_checked := stamp |}.

(** The ads a source page yields in this run. *)
Definition sighted {R : Runtime} (cfg : config) (E : env) (source_url : str) : list ad :=
  match fetch E source_url with
  | Content content => extract_ad_details cfg content source_url
  | _ => []
  end.

(** The first of [ads], in order, with identity [id]. *)
Definition first_sighting (id : str) (ads : list ad) : option ad :=
  find (fun x => str_eqb (ad_hash x) id) ads.

(** Between two listings of a fault-free pass: the connection has nothing
    uncommitted and the UNIQUE constraint holds. *)
Definition settled (w : world) : Prop :=
  unique_ids (txn w) /\ disk w = txn w.

(** The identity has no entry and was not handled in this pass. *)
Definition absent (id : str) (w : world) : Prop :=
  entries id (txn w) = [] /\ ~ In id (added_ad_ids_this_run w).

(** The identity was added in this pass, as the single entry [r]. *)
Definition stored (id : str) (r : row) (w : world) : Prop :=
  entries id (txn w) = [r] /\ In id (added_ad_ids_this_run w).

(** The identity has the single entry [r], from before this pass. *)
Definition existing (id : str) (r : row) (w : world) : Prop :=
  entries id (txn w) = [r] /\ ~ In id (added_ad_ids_this_run w).

(** What a stretch [m] of a fault-free pass that sights [ads] does: it
    ends normally and settled; an identity added earlier in the pass keeps
    its entry; an absent identity stays absent when [ads] does not have
    it, and else gets the row of its first sighting in [ads]; an entry from
    before the pass is the same row when [ads] does not have its identity,
    and else the same row with [last_checked] set to a reading of the
    clock. *)
Definition advances (E : env) (m : M unit) (ads : list ad) : Prop :=
  forall w,
    no_fault_from E (db_calls w) -> settled w ->
    exists w',
      m w = (Ok tt, w')
      /\ no_fault_from E (db_calls w') /\ settled w'
      /\ (forall id r, stored id r w -> stored id r w')
      /\ (forall id, absent id w -> first_sighting id ads = None -> absent id w')
      /\ (forall id a, absent id w -> first_sighting id ads = Some a ->
          exists k, stored id (row_of_ad a (isoformat (clock E k))) w')
      /\ (forall id r, existing id r w -> first_sighting id ads = None ->
          existing id r w')
      /\ (forall id r a, existing id r w -> first_sighting id ads = Some a ->
          exists k, existing id (touch (isoformat (clock E k)) r) w').

(* --------------------------------------------------------------------- *)
(** ** Example runs *)

(** A clock that advances one second per reading, from noon on
    2024-05-20, and starts the hour again after 3600 readings. *)
Definition example_clock (n : nat) : datetime :=
  {| year := 2024; month := 5; day := 20; hour := 12;
     minute := (Z.of_nat n / 60) mod 60;
     second := Z.of_nat n mod 60; microsecond := 0 |}.

Definition bikes_content : str := lit "<html>bikes</html>".
Definition brisbane_content : str := lit "<html>brisbane</html>".

(** The example source lists item 7 and then item 8. *)
Definition bikes_page : soup :=
  [Tag (lit "div") []
     [listing_anchor (lit "/marketplace/item/7/?ref=search") (lit "Bike") (lit "$10");
      listing_anchor (lit "/marketplace/item/8/?ref=search") (lit "Red bike") (lit "$20")]].

(** The other source lists item 7 again. *)
Definition brisbane_page : soup :=
  [Tag (lit "div") []
     [listing_anchor (lit "/marketplace/item/7/?ref=brisbane") (lit "Bike") (lit "$10")]].

Definition run_pages : list (str * soup) :=
  [(bikes_content, bikes_page); (brisbane_content, brisbane_page)].

Definition example_fetch (source_url : str) : page :=
  if str_eqb source_url example_source then Content bikes_content
  else if str_eqb source_url other_source then Content brisbane_content
  else NoContent.

(** No call into sqlite3 raises. *)
Definition quiet_env : env :=
  {| db_fault := fun _ => None; clock := example_clock; fetch := example_fetch;
     to_xml_raises := false; utcoffset := fun _ => 36000%Z |}.

(** The [n]-th call into sqlite3 raises [e], the others succeed. *)
Definition faulty_env (n : nat) (e : exn) : env :=
  {| db_fault := fun k => if Nat.eqb k n then Some e else None;
     clock := example_clock; fetch := example_fetch; to_xml_raises := false;
     utcoffset := fun _ => 36000%Z |}.

Definition one_source_config : config :=
  {| url_filters := [(example_source, JDict [])]; currency := JStr (lit "$") |}.

Definition two_source_config : config :=
  {| url_filters := [(example_source, JDict []); (other_source, JDict [])];
     currency := JStr (lit "$") |}.

Definition link7 : str := lit "https://facebook.com/marketplace/item/7/".
Definition link8 : str := lit "https://facebook.com/marketplace/item/8/".
Definition id7 : str := lit "md5:https://facebook.com/marketplace/item/7/".
Definition id8 : str := lit "md5:https://facebook.com/marketplace/item/8/".

Definition bike_ad : ad := (id7, lit "Bike", lit "$10", link7).

(** Item 7 as a pass of the day before stored it. *)
Definition bike_row : row :=
  {| url := link7; ad_id := id7; title := lit "Bike"; price := lit "$10";
     first_seen := lit "2024-05-19T09:30:00+00:00";
     last_checked := lit "2024-05-19T09:30:00+00:00" |}.

(** The process at rest with ledger [t]: no connection, the lock free, an
    empty feed object. *)
Definition world_with (t : table) : world :=
  {| disk := t; txn := t; conn := false; rss_items := [];
     lastBuildDate := example_clock 0; job_lock := false;
     added_ad_ids_this_run := []; new_ads_added_count := 0; log := [];
     db_calls := 0; clock_reads := 0 |}.

(** An entry last seen on 2024-05-01, more than 14 days before the example
    clock. *)
Definition old_row : row :=
  {| url := lit "https://facebook.com/marketplace/item/3/";
     ad_id := lit "md5:https://facebook.com/marketplace/item/3/";
     title := lit "Old bike"; price := lit "$5";
     first_seen := lit "2024-04-28T08:00:00+00:00";
     last_checked := lit "2024-05-01T08:00:00+00:00" |}.

(** The feed object as an earlier pass left it, with the item of item 7. *)
Definition bike_item : rss_item :=
  {| item_title := lit "Bike - $10"; link := link7;
     description := lit "Price: $10 | Title: Bike"; guid := id7;
     pubDate := {| wall := {| year := 2024; month := 5; day := 20; hour := 22;
                              minute := 0; second := 0; microsecond := 0 |};
                   utcoffset_seconds := 36000 |} |}.

Definition world_with_feed (t : table) (items : list rss_item) : world :=
  {| disk := t; txn := t; conn := false; rss_items := items;
     lastBuildDate := example_clock 0; job_lock := false;
     added_ad_ids_this_run := []; new_ads_added_count := 0; log := [];
     db_calls := 0; clock_reads := 0 |}.

(** The field ranges of a [datetime] but for the lower bound of the
    year, which [timedelta] arithmetic checks at its end. *)
Definition in_range_but_year (d : datetime) : Prop :=
  (year d <= 9999 /\ 1 <= month d <= 12 /\ 1 <= day d <= 31 /\
   0 <= hour d <= 23 /\ 0 <= minute d <= 59 /\ 0 <= second d <= 59 /\
   0 <= microsecond d <= 999999)%Z.

(** Table [t] still has every entry of [t0], each changed at most in
    [last_checked], and satisfies the UNIQUE constraint. *)
Definition keeps (t0 t : table) : Prop :=
  unique_ids t
  /\ forall r, In r t0 -> exists r', In r' t /\ same_but_last_checked r r'.

(** During a pass that started on ledger [t0]: both the committed rows
    and the connection's view keep the entries of [t0], and the identities
    handled in the pass are new ones. *)
Definition pass_invariant (t0 : table) (w : world) : Prop :=
  keeps t0 (txn w) /\ keeps t0 (disk w)
  /\ forall id, In id (added_ad_ids_this_run w) -> ~ In id (map ad_id t0).

(** Every row of [t] whose identity [t0] had is the row [t0] had, changed
    at most in [last_checked]; and [t] satisfies the UNIQUE constraint.
    (Rows of [t0] may be gone from [t].) *)
Definition frame_only (t0 t : table) : Prop :=
  unique_ids t
  /\ forall r r', In r t0 -> In r' t -> ad_id r' = ad_id r -> same_but_last_checked r r'.

(** That, of the committed rows and of the connection's view. *)
Definition frame_invariant (t0 : table) (w : world) : Prop :=
  frame_only t0 (txn w) /\ frame_only t0 (disk w).

(** From a state in [P], the computation [m] ends, normally or by an
    exception, with a result and in a state related by [Q]. *)
Definition hoare {A : Type} (P : world -> Prop) (m : M A)
  (Q : result A -> world -> Prop) : Prop :=
  forall w, P w -> Q (fst (m w)) (snd (m w)).

(** [m] maintains [I], however it ends. *)
Definition maintains {A : Type} (I : world -> Prop) (m : M A) : Prop :=
  hoare I m (fun _ => I).

(** Every reading of the clock is a [datetime], and none lies before the
    cutoff that a retention of [days] gives at any other reading: the run
    is shorter than the retention. *)
Definition within_retention (E : env) (days : nat) : Prop :=
  (forall i, valid_datetime (clock E i))
  /\ forall i j cutoff,
       sub_days (clock E j) days = Ok cutoff -> dt_ltb (clock E i) cutoff = false.

(** The conversion to the local zone succeeds at every reading of the
    clock: no reading is so close to year 1 or year 9999 that the zone's
    wall clock leaves the range of [datetime]. *)
Definition zone_converts (E : env) : Prop :=
  forall i, exists pub, local_time E (clock E i) = Ok pub.

(** The state in which the loop over the sources starts when the connection
    is opened in [w]. *)
Definition connected (w : world) : world :=
  set_added [] (set_conn true (set_txn (disk w) (count_db_call w))).

(* --------------------------------------------------------------------- *)
(** ** Further example data *)

(** The example policy with its levels written in the other order:
    [{level2: ["c"], level1: ["a", "b"]}]. *)
Definition reordered_config : config :=
  {| url_filters :=
       [(example_source,
         policy_json [(lit "level2", [lit "c"]); (lit "level1", [lit "a"; lit "b"])])];
     currency := JStr (lit "$") |}.

(* --------------------------------------------------------------------- *)
(** ** The live feed during a pass *)

(** What holds of the feed object between two listings of a pass that
    found it holding [old]: it holds [old] with an item in front for every
    identity handled in the pass, the counter is their number, and every
    such item was made from an ad in [P] at a reading [clock E k] of the
    clock: its [pubDate] is the local time of that reading, and the row of
    that ad stamped with that reading is in the committed ledger and in the
    connection's view. *)
Definition announced (E : env) (P : ad -> Prop) (old : list rss_item) (w : world)
  : Prop :=
  exists new_items,
    rss_items w = new_items ++ old
    /\ map guid new_items = added_ad_ids_this_run w
    /\ new_ads_added_count w = List.length new_items
    /\ NoDup (added_ad_ids_this_run w)
    /\ forall it, In it new_items ->
         exists a k,
           P a
           /\ local_time E (clock E k) = Ok (pubDate it)
           /\ it = new_rss_item (ad_title a) (ad_price a) (ad_link_url a) (ad_hash a)
                     (pubDate it)
           /\ In (row_of_ad a (isoformat (clock E k))) (disk w)
           /\ In (row_of_ad a (isoformat (clock E k))) (txn w).

(** The same, before a listing with identity [id] that was not handled in
    the pass yet. *)
Definition pending (E : env) (P : ad -> Prop) (old : list rss_item) (id : str)
  (w : world) : Prop :=
  announced E P old w /\ ~ In id (added_ad_ids_this_run w).

(* --------------------------------------------------------------------- *)
(** ** Results that are no database error *)

(** The computation ended normally, or by an exception that is not a
    [sqlite3.DatabaseError]. *)
Definition no_database_error {A : Type} (r : result A) : Prop :=
  match r with
  | Ok _ => True
  | Raise e => is_database_error e = false
  end.

(** What the feed build and the endpoint leave alone: the committed
    ledger, the lock, and the local variables of a pass. *)
Definition same_ledger_and_lock (w0 w : world) : Prop :=
  disk w = disk w0 /\ job_lock w = job_lock w0
  /\ added_ad_ids_this_run w = added_ad_ids_this_run w0
  /\ new_ads_added_count w = new_ads_added_count w0.

(* --------------------------------------------------------------------- *)
(** ** The order of the feed query *)

(** Row [a] was not checked before row [b]: the order of
    [ORDER BY last_checked DESC]. *)
Definition not_older (a b : row) : Prop :=
  str_ltb (last_checked a) (last_checked b) = false.

(** The condition [last_checked >= ?] of the feed query. *)
Definition checked_since (since : str) (r : row) : bool :=
  negb (str_ltb (last_checked r) since).

(** A date of the calendar with a time of day: the field ranges of a
    [datetime], and a day that the month has. *)
Definition real_date (d : datetime) : Prop :=
  valid_datetime d /\ (day d <= days_in_month (year d) (month d))%Z.

(** The same without the lower bound of the year. *)
Definition on_calendar (d : datetime) : Prop :=
  in_range_but_year d /\ (day d <= days_in_month (year d) (month d))%Z.

(** The date and the time of day of an instant as two numbers that order
    the instants the way [dt_ltb] does. *)
Definition date_key (d : datetime) : Z := ((year d * 13 + month d) * 32 + day d)%Z.

Definition time_key (d : datetime) : Z :=
  (((hour d * 60 + minute d) * 60 + second d) * 1000000 + microsecond d)%Z.

(* --------------------------------------------------------------------- *)
(** ** [load_from_json] *)

(** What [open(json_file)] and [json.load(file)] give. *)
Inductive config_file : Type :=
| NoSuchFile                (* [open] raises [FileNotFoundError] *)
| NotJson                   (* [json.load] raises [json.JSONDecodeError] *)
| Document (data : json).

(** The attributes of the monitor that [load_from_json] assigns.
    [data.get] hands over whatever JSON value the file has under the key,
    so each setting is a [json]; [self.url_filters] is checked to be a
    dict. *)
Record monitor_settings : Type := {
  self_server_ip : json;
  self_server_port : json;
  self_currency : json;
  self_refresh_interval_minutes : json;
  self_log_filename : json;
  self_database : json;
  self_url_filters : dict;
  self_urls_to_monitor : list str
}.

Definition DEFAULT_DB_NAME : str := lit "fb-rss-feed.db".

(** The attributes as [__init__] sets them before it calls
    [load_from_json]. *)
Definition initial_settings : monitor_settings :=
  {| self_server_ip := JStr (lit "0.0.0.0");
     self_server_port := JInt 5000;
     self_currency := JStr (lit "$");
     self_refresh_interval_minutes := JInt 15;
     self_log_filename := JStr (lit "fb_monitor.log");
     self_database := JStr DEFAULT_DB_NAME;
     self_url_filters := [];
     self_urls_to_monitor := [] |}.

(** How a call of [load_from_json] ends: it returns, or raises
    [FileNotFoundError], or raises one of the other exceptions. *)
Inductive load_result : Type :=
| Loaded
| RaisesFileNotFoundError
| RaisesOther (e : exn).

(** [data.get(key, default)] *)
Definition get_or (data : dict) (key : str) (default : json) : json :=
  match dict_get data key with
  | Some v => v
  | None => default
  end.

(** [load_from_json]: how the call ends and the attributes after it.
    [.get] on a document that is not an object raises [AttributeError],
    which the last handler re-raises; the settings read before
    [url_filters] is checked stay assigned when the check raises. *)
Definition load_from_json (file : config_file) (self : monitor_settings)
  : load_result * monitor_settings :=
  match file with
  | NoSuchFile => (RaisesFileNotFoundError, self)
  | NotJson => (RaisesOther ValueError, self)
  | Document (JDict data) =>
      let self1 :=
        {| self_server_ip := get_or data (lit "server_ip") (self_server_ip self);
           self_server_port := get_or data (lit "server_port") (self_server_port self);
           self_currency := get_or data (lit "currency") (self_currency self);
           self_refresh_interval_minutes :=
             get_or data (lit "refresh_interval_minutes")
               (self_refresh_interval_minutes self);
           self_log_filename := get_or data (lit "log_filename") (self_log_filename self);
           self_database := get_or data (lit "database_name") (self_database self);
           self_url_filters := self_url_filters self;
           self_urls_to_monitor := self_urls_to_monitor self |} in
      match get_or data (lit "url_filters") (JDict []) with
      | JDict url_filters_raw =>
          (Loaded,
           {| self_server_ip := self_server_ip self1;
              self_server_port := self_server_port self1;
              self_currency := self_currency self1;
              self_refresh_interval_minutes := self_refresh_interval_minutes self1;
              self_log_filename := self_log_filename self1;
              self_database := self_database self1;
              self_url_filters := url_filters_raw;
              self_urls_to_monitor := keys url_filters_raw |})
      | _ => (RaisesOther ValueError, self1)
      end
  | Document _ => (RaisesOther AttributeError, self)
  end.

(** The part of the monitor's attributes that the filter and the extractor
    read. *)
Definition config_of (self : monitor_settings) : config :=
  {| url_filters := self_url_filters self; currency := self_currency self |}.

(** A JSON object. *)
Definition is_object (v : json) : bool :=
  match v with
  | JDict _ => true
  | _ => false
  end.

(** The configuration file
    [{"currency": "EUR", "url_filters": {<the example source>: {}}}]. *)
Definition example_file : config_file :=
  Document
    (JDict [(lit "currency", JStr (lit "EUR"));
            (lit "url_filters", JDict [(example_source, JDict [])])]).


(* ===================================================================== *)
(** * Part II. Lemmas                                                     *)
(* ===================================================================== *)

(* --------------------------------------------------------------------- *)
(** ** Text *)

Lemma str_eqb_eq (a b : str) : str_eqb a b = true <-> a = b.
Proof.
  revert b; induction a as [|x a IH]; intros [|y b]; simpl; try (split; congruence).
  rewrite andb_true_iff, N.eqb_eq, IH. split.
  - intros [-> ->]; reflexivity.
  - intros H; inversion H; auto.
Qed.

Lemma str_eqb_refl (a : str) : str_eqb a a = true.
Proof. apply str_eqb_eq; reflexivity. Qed.

Lemma str_eqb_neq (a b : str) : str_eqb a b = false <-> a <> b.
Proof.
  split.
  - intros H Hab. apply str_eqb_eq in Hab. congruence.
  - intros H. destruct (str_eqb a b) eqn:Heq; [|reflexivity].
    apply str_eqb_eq in Heq. contradiction.
Qed.

Lemma mem_In (x : str) (l : list str) : mem x l = true <-> In x l.
Proof.
  unfold mem. rewrite existsb_exists. split.
  - intros [y [Hy Heq]]. apply str_eqb_eq in Heq. subst. exact Hy.
  - intros H. exists x. split; [exact H | apply str_eqb_refl].
Qed.

Lemma mem_not_In (x : str) (l : list str) : mem x l = false <-> ~ In x l.
Proof.
  rewrite <- mem_In. destruct (mem x l); split; congruence.
Qed.

Lemma ascii_text_skipn (n : nat) (s : str) :
  ascii_text s = true -> ascii_text (skipn n s) = true.
Proof.
  unfold ascii_text. rewrite !forallb_forall. intros H c Hc.
  apply H. clear H. revert s Hc.
  induction n as [|n IH]; intros [|x s] Hc; simpl in *; auto.
Qed.

Lemma ascii_isdigit_ascii_text (s : str) :
  ascii_isdigit s = true -> ascii_text s = true.
Proof.
  unfold ascii_isdigit, ascii_text. destruct s as [|c s]; [discriminate|].
  rewrite !forallb_forall. intros H x Hx. specialize (H x Hx).
  unfold is_decimal_digit in H. apply andb_true_iff in H. destruct H as [_ H].
  apply N.leb_le in H. apply N.ltb_lt. lia.
Qed.

Lemma ascii_text_plain (s : str) : ascii_text s = true -> plain_text s = true.
Proof.
  unfold ascii_text, plain_text, plain_char. rewrite !forallb_forall.
  intros H c Hc. rewrite (H c Hc). reflexivity.
Qed.

Lemma lower_ascii {R : Runtime} (HR : runtime_ok R) (s : str) :
  ascii_text s = true -> lower s = ascii_lower s.
Proof.
  intros H. apply (lower_plain HR). apply ascii_text_plain. exact H.
Qed.

(* --------------------------------------------------------------------- *)
(** ** Dicts *)

Lemma dict_get_In (d : dict) (k : str) (v : json) :
  dict_get d k = Some v -> In (k, v) d.
Proof.
  induction d as [|[k' v'] d IH]; simpl; [discriminate|].
  destruct (str_eqb k' k) eqn:Hk.
  - apply str_eqb_eq in Hk. intros H. inversion H. subst. left; reflexivity.
  - intros H. right. auto.
Qed.

Lemma In_dict_get (d : dict) (k : str) (v : json) :
  NoDup (keys d) -> In (k, v) d -> dict_get d k = Some v.
Proof.
  induction d as [|[k' v'] d IH]; simpl; [contradiction|].
  intros Hnd [Heq | Hin].
  - inversion Heq; subst. rewrite str_eqb_refl. reflexivity.
  - inversion Hnd as [|? ? Hnotin Hnd']; subst.
    destruct (str_eqb k' k) eqn:Hk.
    + apply str_eqb_eq in Hk. subst. exfalso. apply Hnotin.
      unfold keys. apply in_map_iff. exists (k, v). auto.
    + apply IH; assumption.
Qed.

(* --------------------------------------------------------------------- *)
(** ** The filter *)

Section FilterFacts.

Context {R : Runtime}.

#[local] Arguments skipn : simpl never.

Lemma insert_sorted_In (x y : Z * str) (l : list (Z * str)) :
  In y (insert_sorted x l) <-> y = x \/ In y l.
Proof.
  induction l as [|z l IH]; simpl.
  - intuition.
  - destruct (Z.leb (fst x) (fst z)); simpl.
    + intuition.
    + rewrite IH. intuition.
Qed.

Lemma sort_In (y : Z * str) (l : list (Z * str)) :
  In y (fold_right insert_sorted [] l) <-> In y l.
Proof.
  induction l as [|x l IH]; simpl.
  - reflexivity.
  - rewrite insert_sorted_In, IH. intuition.
Qed.

Lemma with_sort_keys_Ok (l : list str) (r : list (Z * str)) :
  with_sort_keys l = Ok r -> map snd r = l.
Proof.
  revert r. induction l as [|k l IH]; simpl; intros r H.
  - inversion H. reflexivity.
  - unfold level_number in H. destruct (int_of_str (skipn 5 k)); [|discriminate].
    destruct (with_sort_keys l) as [r'|e]; [|discriminate].
    inversion H. simpl. f_equal. apply IH. reflexivity.
Qed.

Lemma with_sort_keys_converts (l : list str) :
  (exists r, with_sort_keys l = Ok r)
  <-> forallb (fun k => converts (int_of_str (skipn 5 k))) l = true.
Proof.
  induction l as [|k l IH]; simpl.
  - split; eauto.
  - unfold level_number. destruct (int_of_str (skipn 5 k)) as [n|]; simpl.
    + rewrite <- IH. split.
      * intros [r H]. destruct (with_sort_keys l) as [r'|e]; [eauto | discriminate].
      * intros [r H]. rewrite H. eauto.
    + split; [intros [r H]; discriminate | discriminate].
Qed.

Lemma with_sort_keys_Raise (l : list str) (e : exn) :
  with_sort_keys l = Raise e ->
  forallb (fun k => converts (int_of_str (skipn 5 k))) l = false.
Proof.
  intros H.
  destruct (forallb (fun k => converts (int_of_str (skipn 5 k))) l) eqn:Hall;
    [|reflexivity].
  apply with_sort_keys_converts in Hall. destruct Hall as [r Hr]. congruence.
Qed.

(** Sorting keeps the keys: only their order changes. *)
Lemma sorted_levels_In (l ls : list str) (k : str) :
  sorted_levels l = Ok ls -> (In k ls <-> In k l).
Proof.
  unfold sorted_levels. destruct (with_sort_keys l) as [r|e] eqn:Hr; [|discriminate].
  intros H. inversion H. subst ls. clear H.
  apply with_sort_keys_Ok in Hr. rewrite <- Hr.
  rewrite !in_map_iff. split; intros [x [Hx Hin]]; exists x; split; auto;
    apply sort_In; assumption.
Qed.

Lemma any_keyword_strings (kws : list str) (title_lower : str) :
  any_keyword (map JStr kws) title_lower
  = Ok (existsb (fun kw => contains (lower kw) title_lower) kws).
Proof.
  induction kws as [|kw kws IH]; simpl; [reflexivity|].
  destruct (contains (lower kw) title_lower); simpl; [reflexivity | exact IH].
Qed.

(** The scan of a level answers [True] exactly when a string keyword
    occurs and only strings stand before it. *)
Lemma any_keyword_true (keywords : list json) (title_lower : str) :
  any_keyword keywords title_lower = Ok true
  <-> exists pre kw post,
        keywords = map JStr pre ++ JStr kw :: post
        /\ contains (lower kw) title_lower = true.
Proof.
  induction keywords as [|v keywords IH]; simpl.
  - split; [discriminate|]. intros [pre [kw [post [H _]]]].
    destruct pre; discriminate.
  - destruct v as [| b | n | x | s | l | d];
      try (split; [discriminate |
                   intros [pre [kw [post [H _]]]]; destruct pre; discriminate]).
    destruct (contains (lower s) title_lower) eqn:Hs.
    + split; [|reflexivity]. intros _. exists [], s, keywords. auto.
    + rewrite IH. split.
      * intros [pre [kw [post [H Hkw]]]]. exists (s :: pre), kw, post.
        simpl. rewrite H. auto.
      * intros [pre [kw [post [H Hkw]]]]. destruct pre as [|p pre]; simpl in H.
        -- inversion H; subst. congruence.
        -- inversion H; subst. exists pre, kw, post. auto.
Qed.

Lemma check_levels_verdict (d : dict) (title_lower : str) (ls : list str) :
  verdict (check_levels d title_lower ls)
  = forallb (fun k => level_passes (dict_get d k) title_lower) ls.
Proof.
  induction ls as [|k ls IH]; simpl; [reflexivity|].
  unfold level_passes at 1.
  destruct (dict_get d k) as [v|]; [|exact IH].
  destruct v as [| b | n | x | s | l | d']; try exact IH.
  destruct l as [|kw l]; [exact IH|].
  destruct (any_keyword (kw :: l) title_lower) as [[|]|e]; simpl; auto.
Qed.

Lemma forallb_same_elements (A : Type) (f : A -> bool) (l l' : list A) :
  (forall x, In x l <-> In x l') -> forallb f l = forallb f l'.
Proof.
  intros H. destruct (forallb f l') eqn:Hl'.
  - rewrite forallb_forall in *. intros x Hx. apply Hl'. apply H. exact Hx.
  - destruct (forallb f l) eqn:Hl; [|reflexivity].
    rewrite <- Hl'. symmetry. rewrite forallb_forall in *.
    intros x Hx. apply Hl. apply H. exact Hx.
Qed.

Lemma verdict_true (r : result bool) : verdict r = true <-> r = Ok true.
Proof.
  destruct r as [[|]|e]; simpl; split; congruence.
Qed.

(** A level lets the title through exactly when it asks nothing or a string
    keyword occurs with only strings before it. *)
Lemma level_passes_true (v : option json) (title_lower : str) :
  level_passes v title_lower = true
  <-> forall keywords,
        v = Some (JList keywords) -> keywords <> [] ->
        exists pre kw post,
          keywords = map JStr pre ++ JStr kw :: post
          /\ contains (lower kw) title_lower = true.
Proof.
  unfold level_passes.
  destruct v as [[| b | n | x | s | l | d]|];
    try (split; [intros _ keywords H; discriminate | reflexivity]).
  destruct l as [|k l].
  - split; [|reflexivity]. intros _ keywords H Hne. inversion H. congruence.
  - rewrite verdict_true, any_keyword_true. split.
    + intros H keywords Heq _. inversion Heq. subst. exact H.
    + intros H. apply H; [reflexivity | discriminate].
Qed.

(** What the [try] of [apply_filters] amounts to: every level key converts
    and every level lets the title through; the order of the levels plays
    no part. *)
Lemma apply_filters_try_verdict (d : dict) (title : str) :
  verdict (apply_filters_try d title)
  = levels_convert d
    && forallb (fun k => level_passes (dict_get d k) (lower title)) (level_keys_of d).
Proof.
  unfold apply_filters_try, levels_convert. fold (level_keys_of d).
  destruct (sorted_levels (level_keys_of d)) as [ls|e] eqn:Hs.
  - assert (Hconv : forallb (fun k => converts (int_of_str (skipn 5 k)))
                      (level_keys_of d) = true).
    { apply with_sort_keys_converts. unfold sorted_levels in Hs.
      destruct (with_sort_keys (level_keys_of d)) as [r|e]; [eauto | discriminate]. }
    rewrite Hconv. simpl.
    rewrite <- (forallb_same_elements _ ls (level_keys_of d))
      by (intros x; apply sorted_levels_In; exact Hs).
    destruct ls as [|k ls]; [reflexivity|].
    apply check_levels_verdict.
  - unfold sorted_levels in Hs.
    destruct (with_sort_keys (level_keys_of d)) as [r|e'] eqn:Hr; [discriminate|].
    apply with_sort_keys_Raise in Hr. rewrite Hr. reflexivity.
Qed.

(** [apply_filters] in full. *)
Lemma apply_filters_unfold (cfg : config) (source_url title : str) :
  apply_filters cfg source_url title
  = match dict_get (url_filters cfg) source_url with
    | Some (JDict ((_ :: _) as d)) =>
        levels_convert d
        && forallb (fun k => level_passes (dict_get d k) (lower title)) (level_keys_of d)
    | _ => true
    end.
Proof.
  unfold apply_filters.
  destruct (dict_get (url_filters cfg) source_url) as [v|]; [|reflexivity].
  destruct v as [| b | n | x | s | l | d]; simpl; try reflexivity;
    try (match goal with |- (if ?c then _ else _) = _ => destruct c; reflexivity end).
  destruct d as [|kv d]; [reflexivity|]. simpl negb. cbv iota.
  rewrite <- apply_filters_try_verdict. reflexivity.
Qed.

End FilterFacts.

(* --------------------------------------------------------------------- *)
(** ** The filter on a well-formed policy *)

Section WellFormedPolicy.

Context {R : Runtime}.
Hypothesis HR : runtime_ok R.

#[local] Arguments skipn : simpl never.

Lemma level_name_is_level_key (k : str) :
  level_name k = true -> is_level_key k = true.
Proof.
  unfold level_name, is_level_key. rewrite !andb_true_iff. intros [Hp Hd].
  split; [exact Hp|].
  rewrite (isdigit_ascii HR) by (apply ascii_isdigit_ascii_text; exact Hd).
  exact Hd.
Qed.

Lemma level_name_converts (k : str) :
  level_name k = true -> (List.length (skipn 5 k) <= 4300)%nat ->
  converts (int_of_str (skipn 5 k)) = true.
Proof.
  unfold level_name. rewrite andb_true_iff. intros [_ Hd] Hlen.
  rewrite (int_ascii HR (skipn 5 k) Hd Hlen). reflexivity.
Qed.

Lemma policy_keys (p : policy) :
  match policy_json p with
  | JDict d => keys d = map fst p
  | _ => False
  end.
Proof. simpl. unfold keys. rewrite map_map. reflexivity. Qed.

Lemma policy_entry (p : policy) (level : str) (kws : list str) :
  In (level, kws) p ->
  In (level, JList (map JStr kws))
     (map (fun kv : str * list str => (fst kv, JList (map JStr (snd kv)))) p).
Proof.
  intros H. apply in_map_iff. exists (level, kws). auto.
Qed.

Lemma filter_all (A : Type) (f : A -> bool) (l : list A) :
  (forall x, In x l -> f x = true) -> filter f l = l.
Proof.
  induction l as [|x l IH]; simpl; intros H; [reflexivity|].
  rewrite H by auto. f_equal. apply IH. auto.
Qed.

(** On a well-formed policy the filter computes the specification's
    condition. *)
Lemma well_formed_policy_verdict (p : policy) (title : str) :
  well_formed_policy p ->
  short_levels p ->
  let d := map (fun kv : str * list str => (fst kv, JList (map JStr (snd kv)))) p in
  (levels_convert d
   && forallb (fun k => level_passes (dict_get d k) (lower title)) (level_keys_of d)
   = true)
  <-> passes_policy p title.
Proof.
  intros [Hnd Hnames] Hshort d.
  assert (Hkeys : keys d = map fst p).
  { unfold d, keys. rewrite map_map. reflexivity. }
  assert (Hlk : level_keys_of d = map fst p).
  { unfold level_keys_of. rewrite Hkeys. apply filter_all.
    intros k Hk. apply in_map_iff in Hk. destruct Hk as [kv [<- Hkv]].
    apply level_name_is_level_key. rewrite Forall_forall in Hnames. auto. }
  assert (Hconv : levels_convert d = true).
  { unfold levels_convert. rewrite Hlk. apply forallb_forall.
    intros k Hk. apply in_map_iff in Hk. destruct Hk as [kv [<- Hkv]].
    unfold short_levels in Hshort. rewrite Forall_forall in Hnames, Hshort.
    apply level_name_converts; [apply Hnames | apply Hshort]; exact Hkv. }
  rewrite Hconv, Hlk. simpl andb.
  rewrite forallb_forall. unfold passes_policy. split.
  - intros H level kws Hin Hne.
    assert (Hget : dict_get d level = Some (JList (map JStr kws))).
    { apply In_dict_get; [rewrite Hkeys; exact Hnd | apply policy_entry; exact Hin]. }
    specialize (H level). rewrite Hget in H.
    assert (Hl : In level (map fst p)).
    { apply in_map_iff. exists (level, kws). auto. }
    specialize (H Hl). destruct kws as [|kw kws]; [congruence|].
    unfold level_passes in H. cbn [map] in H.
    change (JStr kw :: map JStr kws) with (map JStr (kw :: kws)) in H.
    rewrite any_keyword_strings in H. cbn [verdict] in H.
    apply existsb_exists in H. destruct H as [x [Hx Hocc]].
    exists x. split; [exact Hx | exact Hocc].
  - intros H level Hl. apply in_map_iff in Hl. destruct Hl as [[k kws] [<- Hin]].
    simpl fst.
    assert (Hget : dict_get d k = Some (JList (map JStr kws))).
    { apply In_dict_get; [rewrite Hkeys; exact Hnd | apply policy_entry; exact Hin]. }
    rewrite Hget. destruct kws as [|kw kws]; [reflexivity|].
    unfold level_passes. cbn [map].
    change (JStr kw :: map JStr kws) with (map JStr (kw :: kws)).
    rewrite any_keyword_strings. cbn [verdict].
    apply existsb_exists.
    destruct (H k (kw :: kws) Hin) as [x [Hx Hocc]]; [discriminate|].
    exists x. split; [exact Hx | exact Hocc].
Qed.

End WellFormedPolicy.

(* --------------------------------------------------------------------- *)
(** ** The extractor *)

Section ExtractionFacts.

Context {R : Runtime}.
Variable cfg : config.
Variable symbol : str.
Hypothesis Hcurrency : currency cfg = JStr symbol.

(** The loop is a filter over the first occurrences of the listing
    anchors. *)
Lemma scan_links_spec (source_url : str) (ad_links : list node) :
  forall (processed_urls : list str) (ads_found : list ad),
    scan_links cfg source_url ad_links processed_urls ads_found
    = Ok (ads_found
          ++ map record_of
               (filter (kept cfg symbol source_url)
                  (first_occurrences processed_urls
                     (filter is_listing_link ad_links)))).
Proof.
  induction ad_links as [|a rest IH]; intros processed_urls ads_found.
  - simpl. rewrite app_nil_r. reflexivity.
  - cbn [scan_links filter]. unfold is_listing_link at 1.
    destruct (is_empty (href_of a)) eqn:Hempty; cbn [negb andb orb].
    { apply IH. }
    destruct (startswith (href_of a) (lit "/marketplace/item/")) eqn:Hpre;
      cbn [negb].
    2:{ apply IH. }
    cbn [first_occurrences]. unfold canonical_url at 1.
    destruct (mem (full_url_of (href_of a)) processed_urls) eqn:Hmem.
    { apply IH. }
    cbn [filter]. unfold kept at 1, accepted, title_of, price_of.
    destruct (find_span title_style a) as [title_span|] eqn:Ht.
    2:{ cbn [andb]. apply IH. }
    destruct (find_span price_dir a) as [price_span|] eqn:Hp.
    2:{ cbn [andb]. apply IH. }
    unfold price_format_ok. rewrite Hcurrency. fold (currency_gate symbol (get_text price_span)).
    destruct (currency_gate symbol (get_text price_span)) eqn:Hgate; cbn [andb].
    2:{ apply IH. }
    destruct (apply_filters cfg source_url (get_text title_span)) eqn:Hf.
    2:{ apply IH. }
    rewrite IH. cbn [map]. rewrite <- app_assoc. cbn [app].
    unfold record_of at 2, title_of, price_of, canonical_url. rewrite Ht, Hp.
    reflexivity.
Qed.

Lemma extract_ad_details_spec (content source_url : str) :
  extract_ad_details cfg content source_url
  = match html_parser content with
    | Ok parsed => map record_of (filter (kept cfg symbol source_url) (candidates parsed))
    | Raise _ => []
    end.
Proof.
  unfold extract_ad_details. destruct (html_parser content) as [parsed|e]; [|reflexivity].
  rewrite scan_links_spec. reflexivity.
Qed.

End ExtractionFacts.

Section FirstOccurrences.

Context {R : Runtime}.

(** An anchor that is a first occurrence has nothing before it with its
    canonical link. *)
Lemma first_occurrences_split (ad_links : list node) :
  forall (seen : list str) (b : node),
    In b (first_occurrences seen ad_links) ->
    ~ In (canonical_url b) seen
    /\ exists before after,
         ad_links = before ++ b :: after
         /\ forall x, In x before -> canonical_url x <> canonical_url b.
Proof.
  induction ad_links as [|a rest IH]; intros seen b Hin; simpl in Hin; [contradiction|].
  destruct (mem (canonical_url a) seen) eqn:Hmem.
  - destruct (IH seen b Hin) as [Hseen [before0 [after [Heq Hbefore]]]].
    split; [exact Hseen|]. exists (a :: before0), after. split.
    + simpl. rewrite Heq. reflexivity.
    + intros x [<- | Hx]; [|auto]. intros Heq'. apply Hseen. rewrite <- Heq'.
      apply mem_In. exact Hmem.
  - apply mem_not_In in Hmem. destruct Hin as [<- | Hin].
    + split; [exact Hmem|]. exists [], rest. split; [reflexivity|]. intros x [].
    + destruct (IH _ b Hin) as [Hseen [before0 [after [Heq Hbefore]]]].
      split; [intros H; apply Hseen; right; exact H|].
      exists (a :: before0), after. split.
      * simpl. rewrite Heq. reflexivity.
      * intros x [<- | Hx]; [|auto]. intros Heq'. apply Hseen. left. exact Heq'.
Qed.

(** Two places of a list that both have nothing before them with their
    (common) canonical link are the same place. *)
Lemma first_place_unique (l1 l2 m1 m2 : list node) (a b : node) :
  l1 ++ a :: l2 = m1 ++ b :: m2 ->
  canonical_url a = canonical_url b ->
  (forall x, In x l1 -> canonical_url x <> canonical_url a) ->
  (forall x, In x m1 -> canonical_url x <> canonical_url b) ->
  a = b.
Proof.
  revert m1. induction l1 as [|x l1 IH]; intros [|y m1] Heq Hc Hl Hm; simpl in Heq.
  - inversion Heq. reflexivity.
  - inversion Heq. subst y. exfalso. apply (Hm a); [left; reflexivity | exact Hc].
  - inversion Heq. subst x. exfalso. apply (Hl b); [left; reflexivity | auto].
  - inversion Heq. subst y. apply (IH m1); auto.
    + intros z Hz. apply Hl. right. exact Hz.
    + intros z Hz. apply Hm. right. exact Hz.
Qed.

End FirstOccurrences.

(* --------------------------------------------------------------------- *)
(** ** The table *)

Lemma has_ad_id_true (id : str) (r : row) : has_ad_id id r = true <-> ad_id r = id.
Proof. unfold has_ad_id. apply str_eqb_eq. Qed.

Lemma has_ad_id_false (id : str) (r : row) : has_ad_id id r = false <-> ad_id r <> id.
Proof. unfold has_ad_id. apply str_eqb_neq. Qed.

Lemma exists_entry (id : str) (t : table) :
  existsb (has_ad_id id) t = true <-> In id (map ad_id t).
Proof.
  rewrite existsb_exists, in_map_iff. split; intros [r [H1 H2]]; exists r.
  - apply has_ad_id_true in H2. auto.
  - split; [exact H2 | apply has_ad_id_true; exact H1].
Qed.

Lemma no_entry (id : str) (t : table) :
  existsb (has_ad_id id) t = false <-> ~ In id (map ad_id t).
Proof.
  rewrite <- exists_entry. destruct (existsb (has_ad_id id) t); split; congruence.
Qed.

Lemma entries_absent (id : str) (t : table) :
  ~ In id (map ad_id t) -> entries id t = [].
Proof.
  unfold entries. induction t as [|x t IH]; simpl; intros H; [reflexivity|].
  destruct (has_ad_id id x) eqn:Hx.
  - apply has_ad_id_true in Hx. exfalso. apply H. left. exact Hx.
  - apply IH. intros Hin. apply H. right. exact Hin.
Qed.

(** Under the UNIQUE constraint an identity has its row and no other. *)
Lemma entries_unique (id : str) (t : table) (r : row) :
  unique_ids t -> In r t -> ad_id r = id -> entries id t = [r].
Proof.
  unfold unique_ids, entries. induction t as [|x t IH]; simpl; intros Hnd Hin Hid;
    [contradiction|].
  inversion Hnd as [|? ? Hnotin Hnd']; subst.
  destruct Hin as [-> | Hin].
  - rewrite (proj2 (has_ad_id_true (ad_id r) r)) by reflexivity.
    f_equal. apply entries_absent. exact Hnotin.
  - destruct (has_ad_id (ad_id r) x) eqn:Hx.
    + apply has_ad_id_true in Hx. exfalso. apply Hnotin. rewrite Hx.
      apply in_map. exact Hin.
    + apply IH; auto.
Qed.

Lemma sql_update_ids (stamp id : str) (t : table) :
  map ad_id (sql_update stamp id t) = map ad_id t.
Proof.
  unfold sql_update. rewrite map_map. apply map_ext.
  intros r. destruct (has_ad_id id r); reflexivity.
Qed.

Lemma sql_update_entries (stamp id : str) (t : table) :
  entries id (sql_update stamp id t) = map (touch stamp) (entries id t).
Proof.
  unfold entries, sql_update. induction t as [|x t IH]; simpl; [reflexivity|].
  destruct (has_ad_id id x) eqn:Hx; simpl.
  - unfold has_ad_id in *. simpl. rewrite Hx. simpl. f_equal. exact IH.
  - rewrite Hx. exact IH.
Qed.

Lemma sql_update_other_entries (stamp id id' : str) (t : table) :
  id' <> id -> entries id' (sql_update stamp id t) = entries id' t.
Proof.
  intros Hne. unfold entries, sql_update. induction t as [|x t IH]; simpl; [reflexivity|].
  destruct (has_ad_id id x) eqn:Hx; simpl.
  - apply has_ad_id_true in Hx.
    assert (H1 : has_ad_id id' x = false) by (apply has_ad_id_false; congruence).
    unfold has_ad_id in *. simpl. rewrite H1. exact IH.
  - destruct (has_ad_id id' x); [f_equal|]; exact IH.
Qed.

(** The rows of other identities are the same rows after the update. *)
Lemma sql_update_others (stamp id : str) (t : table) :
  filter (fun r => negb (has_ad_id id r)) (sql_update stamp id t)
  = filter (fun r => negb (has_ad_id id r)) t.
Proof.
  unfold sql_update. induction t as [|x t IH]; simpl; [reflexivity|].
  destruct (has_ad_id id x) eqn:Hx; simpl.
  - unfold has_ad_id in *. simpl. rewrite Hx. simpl. exact IH.
  - rewrite Hx. simpl. f_equal. exact IH.
Qed.

Lemma touch_same (stamp : str) (r : row) : same_but_last_checked r (touch stamp r).
Proof. unfold same_but_last_checked. simpl. auto. Qed.

Lemma entries_app (id : str) (t t' : table) :
  entries id (t ++ t') = entries id t ++ entries id t'.
Proof. unfold entries. apply filter_app. Qed.

Lemma unique_ids_insert (t : table) (r : row) :
  unique_ids t -> ~ In (ad_id r) (map ad_id t) -> unique_ids (t ++ [r]).
Proof.
  unfold unique_ids. intros Hnd Hnotin. rewrite map_app. simpl.
  apply NoDup_app; [exact Hnd | repeat constructor; simpl; tauto|].
  intros x Hx [<- | []]. contradiction.
Qed.

(* --------------------------------------------------------------------- *)
(** ** Calls into sqlite3 *)

Section Calls.

Variable E : env.

Lemma db_call_ok (w : world) :
  db_fault E (db_calls w) = None -> db_call E w = (Ok tt, count_db_call w).
Proof. unfold db_call. intros ->. reflexivity. Qed.

Lemma db_call_raises (w : world) (e : exn) :
  db_fault E (db_calls w) = Some e -> db_call E w = (Raise e, count_db_call w).
Proof. unfold db_call. intros ->. reflexivity. Qed.

End Calls.

(* --------------------------------------------------------------------- *)
(** ** A pass in which no call into sqlite3 raises *)

#[local] Arguments isoformat : simpl never.
#[local] Arguments sql_update : simpl never.
#[local] Arguments sql_delete : simpl never.
#[local] Arguments sql_deleted : simpl never.
#[local] Arguments sql_recent : simpl never.
#[local] Arguments entries : simpl never.
#[local] Arguments row_of_ad : simpl never.
#[local] Arguments sub_days : simpl never.
#[local] Arguments local_time : simpl never.

Lemma no_fault_from_le (E : env) (n m : nat) :
  no_fault_from E n -> (n <= m)%nat -> no_fault_from E m.
Proof. intros H Hle k Hk. apply H. lia. Qed.

Lemma entries_nil (id : str) (t : table) :
  entries id t = [] <-> existsb (has_ad_id id) t = false.
Proof.
  unfold entries. induction t as [|x t IH]; simpl; [tauto|].
  destruct (has_ad_id id x); simpl; [split; discriminate | exact IH].
Qed.

Lemma entries_single_other (id : str) (r : row) :
  ad_id r <> id -> entries id [r] = [].
Proof.
  intros H. unfold entries. simpl.
  rewrite (proj2 (has_ad_id_false id r)) by exact H. reflexivity.
Qed.

Lemma entries_single_same (r : row) : entries (ad_id r) [r] = [r].
Proof.
  unfold entries. simpl.
  rewrite (proj2 (has_ad_id_true (ad_id r) r)) by reflexivity. reflexivity.
Qed.

Section QuietPass.

Variable E : env.
Hypothesis Hzone : zone_converts E.

(** One listing of a fault-free pass. *)
Lemma process_ad_quiet (x : ad) (w : world) :
  no_fault_from E (db_calls w) -> settled w ->
  exists w',
    process_ad E x w = (Ok tt, w')
    /\ no_fault_from E (db_calls w') /\ settled w'
    /\ (forall id r, stored id r w -> stored id r w')
    /\ (forall id, absent id w -> ad_hash x <> id -> absent id w')
    /\ (absent (ad_hash x) w ->
        exists k, stored (ad_hash x) (row_of_ad x (isoformat (clock E k))) w')
    /\ (forall id r, existing id r w -> ad_hash x <> id -> existing id r w')
    /\ (forall r, existing (ad_hash x) r w ->
        existing (ad_hash x) (touch (isoformat (clock E (clock_reads w))) r) w').
Proof.
  destruct x as [[[id t] p] u]. unfold ad_hash. cbn [fst snd].
  intros Hq [Huniq Hdisk].
  assert (H0 : db_fault E (db_calls w) = None) by (apply Hq; lia).
  assert (H1 : db_fault E (S (db_calls w)) = None) by (apply Hq; lia).
  assert (H2 : db_fault E (S (S (db_calls w))) = None) by (apply Hq; lia).
  unfold process_ad, select_ad_id, now, update_last_checked, commit, insert_ad,
    log_msg, rollback, db_call.
  unfold try_except, bind, gets, modify, raise, ret.
  unfold settled, stored, absent, existing.
  cbn.
  destruct (mem id (added_ad_ids_this_run w)) eqn:Hmem.
  { exists w. split; [reflexivity|]. split; [exact Hq|]. split; [split; assumption|].
    split; [auto|]. split; [auto|]. apply mem_In in Hmem.
    split; [intros [_ Hnot]; contradiction|]. split; [auto|].
    intros r [_ Hnot]. contradiction. }
  apply mem_not_In in Hmem.
  rewrite H0. cbn.
  destruct (Hzone (clock_reads w)) as [pub Hpub].
  destruct (existsb (has_ad_id id) (txn w)) eqn:Hex; cbn; rewrite ?Hpub; cbn;
    rewrite H1; cbn.
  - rewrite H2. cbn. eexists. split; [reflexivity|]. cbn.
    split; [eapply no_fault_from_le; [exact Hq | lia]|].
    split; [split; [unfold unique_ids; rewrite sql_update_ids; exact Huniq | reflexivity]|].
    split; [|split].
    + intros id' r [Hent Hadded]. split; [|exact Hadded]. cbn.
      rewrite sql_update_other_entries; [exact Hent|].
      intros ->. contradiction.
    + intros id' [Hent Hnot] Hne. split; [|exact Hnot]. cbn.
      rewrite sql_update_other_entries; [exact Hent | congruence].
    + split; [intros [Hent _]; apply entries_nil in Hent; congruence|]. split.
      * intros id' r [Hent Hnot] Hne. split; [|exact Hnot]. cbn.
        rewrite sql_update_other_entries; [exact Hent | congruence].
      * intros r [Hent Hnot]. split; [|exact Hnot]. cbn.
        rewrite sql_update_entries, Hent. reflexivity.
  - rewrite Hex. cbn. rewrite H2. cbn.
    eexists. split; [reflexivity|]. cbn.
    split; [eapply no_fault_from_le; [exact Hq | lia]|].
    split; [split; [|reflexivity]|].
    { apply unique_ids_insert; [exact Huniq|]. cbn. apply no_entry. exact Hex. }
    split; [|split].
    + intros id' r [Hent Hadded]. split; cbn.
      * rewrite entries_app, Hent, entries_single_other; [reflexivity|].
        cbn. intros ->. contradiction.
      * right. exact Hadded.
    + intros id' [Hent Hnot] Hne. split; cbn.
      * rewrite entries_app, Hent, entries_single_other; [reflexivity|].
        cbn. exact Hne.
      * intros [Heq | Hin]; [congruence | contradiction].
    + split; [|split].
      * intros [Hent _]. exists (clock_reads w). split; cbn.
        -- rewrite entries_app, Hent. cbn [app].
           apply (entries_single_same
                    (row_of_ad (id, t, p, u) (isoformat (clock E (clock_reads w))))).
        -- left. reflexivity.
      * intros id' r [Hent Hnot] Hne. split; cbn.
        -- rewrite entries_app, Hent, entries_single_other; [reflexivity|].
           cbn. exact Hne.
        -- intros [Heq | Hin]; [congruence | contradiction].
      * intros r [Hent _]. apply no_entry in Hex. apply entries_absent in Hex.
        congruence.
Qed.

End QuietPass.

Section Advances.

Context {R : Runtime}.
Variable cfg : config.
Variable E : env.
Hypothesis Hzone : zone_converts E.

Lemma first_sighting_app (id : str) (l1 l2 : list ad) :
  first_sighting id (l1 ++ l2)
  = match first_sighting id l1 with
    | Some a => Some a
    | None => first_sighting id l2
    end.
Proof.
  unfold first_sighting. induction l1 as [|x l1 IH]; simpl; [reflexivity|].
  destruct (str_eqb (ad_hash x) id); [reflexivity | exact IH].
Qed.

Lemma first_sighting_hash (id : str) (l : list ad) (a : ad) :
  first_sighting id l = Some a -> ad_hash a = id /\ In a l.
Proof.
  unfold first_sighting. intros H. apply find_some in H. destruct H as [Hin Heq].
  apply str_eqb_eq in Heq. auto.
Qed.

Lemma touch_touch (s1 s2 : str) (r : row) : touch s2 (touch s1 r) = touch s2 r.
Proof. reflexivity. Qed.

Lemma advances_nothing : advances E (ret tt) [].
Proof.
  intros w Hq Hs. exists w. split; [reflexivity|]. split; [exact Hq|].
  split; [exact Hs|]. split; [auto|]. split; [auto|].
  split; [intros id a _ H; discriminate H|]. split; [auto|].
  intros id r a _ H. discriminate H.
Qed.

Lemma advances_process_ad (x : ad) : advances E (process_ad E x) [x].
Proof.
  intros w Hq Hs.
  destruct (process_ad_quiet Hzone x Hq Hs)
    as [w' [Hrun [Hq' [Hs' [Hst [Hab [Hnew [Hex Htouch]]]]]]]].
  exists w'. split; [exact Hrun|]. split; [exact Hq'|]. split; [exact Hs'|].
  split; [exact Hst|]. unfold first_sighting. simpl. split; [|split; [|split]].
  - intros id Habs Hfind. apply Hab; [exact Habs|].
    destruct (str_eqb (ad_hash x) id) eqn:Heq; [discriminate|].
    apply str_eqb_neq. exact Heq.
  - intros id a Habs Hfind.
    destruct (str_eqb (ad_hash x) id) eqn:Heq; [|discriminate].
    inversion Hfind. subst a. apply str_eqb_eq in Heq. subst id.
    apply Hnew. exact Habs.
  - intros id r Hr Hfind. apply Hex; [exact Hr|].
    destruct (str_eqb (ad_hash x) id) eqn:Heq; [discriminate|].
    apply str_eqb_neq. exact Heq.
  - intros id r a Hr Hfind.
    destruct (str_eqb (ad_hash x) id) eqn:Heq; [|discriminate].
    apply str_eqb_eq in Heq. subst id. exists (clock_reads w).
    apply Htouch. exact Hr.
Qed.

Lemma advances_seq (m1 m2 : M unit) (l1 l2 : list ad) :
  advances E m1 l1 -> advances E m2 l2 -> advances E (m1 ;; m2) (l1 ++ l2).
Proof.
  intros A1 A2 w Hq Hs.
  destruct (A1 w Hq Hs)
    as [w1 [Hrun1 [Hq1 [Hs1 [Hst1 [Hab1 [Hnew1 [Hex1 Htouch1]]]]]]]].
  destruct (A2 w1 Hq1 Hs1)
    as [w2 [Hrun2 [Hq2 [Hs2 [Hst2 [Hab2 [Hnew2 [Hex2 Htouch2]]]]]]]].
  exists w2. split; [unfold bind; rewrite Hrun1; exact Hrun2|].
  split; [exact Hq2|]. split; [exact Hs2|]. split; [auto|].
  split; [|split; [|split]].
  - intros id Habs Hfind. rewrite first_sighting_app in Hfind.
    destruct (first_sighting id l1) eqn:Hf1; [discriminate|]. auto.
  - intros id a Habs Hfind. rewrite first_sighting_app in Hfind.
    destruct (first_sighting id l1) as [a1|] eqn:Hf1.
    + inversion Hfind. subst a1.
      destruct (Hnew1 id a Habs Hf1) as [k Hk]. exists k. auto.
    + apply (Hnew2 id a); auto.
  - intros id r Hr Hfind. rewrite first_sighting_app in Hfind.
    destruct (first_sighting id l1) eqn:Hf1; [discriminate|]. auto.
  - intros id r a Hr Hfind. rewrite first_sighting_app in Hfind.
    destruct (first_sighting id l1) as [a1|] eqn:Hf1.
    + destruct (Htouch1 id r a1 Hr Hf1) as [k Hk].
      destruct (first_sighting id l2) as [a2|] eqn:Hf2.
      * destruct (Htouch2 id _ a2 Hk Hf2) as [k' Hk']. exists k'.
        rewrite touch_touch in Hk'. exact Hk'.
      * exists k. apply Hex2; assumption.
    + apply (Htouch2 id r a); auto.
Qed.

Lemma advances_for_each (A : Type) (f : A -> M unit) (g : A -> list ad) (l : list A) :
  (forall x, advances E (f x) (g x)) ->
  advances E (for_each f l) (flat_map g l).
Proof.
  intros Hf. induction l as [|x l IH]; simpl.
  - apply advances_nothing.
  - apply advances_seq; [apply Hf | exact IH].
Qed.

Lemma advances_ads (l : list ad) : advances E (for_each (process_ad E) l) l.
Proof.
  replace l with (flat_map (fun x => [x]) l) at 2.
  - apply advances_for_each. apply advances_process_ad.
  - induction l as [|x l IH]; simpl; [reflexivity | f_equal; exact IH].
Qed.

(** A message in the log changes nothing else. *)
Lemma advances_log (ev : log_event) : advances E (log_msg ev) [].
Proof.
  intros w Hq Hs. exists (add_log ev w). split; [reflexivity|].
  split; [exact Hq|]. split; [exact Hs|]. split; [auto|]. split; [auto|].
  split; [intros id a _ H; discriminate H|]. split; [auto|].
  intros id r a _ H. discriminate H.
Qed.

Lemma advances_process_url (source_url : str) :
  advances E (process_url cfg E source_url) (sighted cfg E source_url).
Proof.
  unfold process_url, sighted.
  destruct (fetch E source_url) as [e | | content].
  - intros w Hq Hs. unfold try_except, raise.
    apply (advances_log (LogUrlError source_url e)); assumption.
  - intros w Hq Hs. unfold try_except. apply advances_nothing; assumption.
  - intros w Hq Hs.
    assert (Hloop : advances E
                      (match extract_ad_details cfg content source_url with
                       | [] => ret tt
                       | _ :: _ => for_each (process_ad E)
                                     (extract_ad_details cfg content source_url)
                       end)
                      (extract_ad_details cfg content source_url)).
    { destruct (extract_ad_details cfg content source_url) as [|x l] eqn:Hx;
        [apply advances_nothing | apply advances_ads]. }
    destruct (Hloop w Hq Hs) as [w' [Hrun H]].
    exists w'. split; [|exact H]. unfold try_except.
    destruct (extract_ad_details cfg content source_url) as [|x l]; rewrite Hrun;
      reflexivity.
Qed.

(** The loop over the sources of a fault-free pass. *)
Lemma advances_sources (urls : list str) :
  advances E (for_each (process_url cfg E) urls) (flat_map (sighted cfg E) urls).
Proof.
  apply advances_for_each. apply advances_process_url.
Qed.

End Advances.

(* --------------------------------------------------------------------- *)
(** ** One sighting of a known listing *)

(** One sighting of a listing whose identity is in the ledger and was not
    handled in the running pass.  Whatever the database calls do, the
    connection keeps exactly one entry for the identity, equal to the old
    one except possibly for [last_checked], and the rows of other
    identities are untouched; when the calls succeed the entry's
    [last_checked] is the time of the sighting, committed. *)
Lemma process_ad_resighting
  (E : env) (a : ad) (w : world) (r : row) :
  unique_ids (txn w) ->
  In r (txn w) ->
  ad_id r = ad_hash a ->
  ~ In (ad_hash a) (added_ad_ids_this_run w) ->
  let w' := snd (process_ad E a w) in
  let stamp := isoformat (clock E (clock_reads w)) in
  (exists r', entries (ad_hash a) (txn w') = [r']
              /\ same_but_last_checked r r'
              /\ (r' = r \/ r' = touch stamp r))
  /\ filter (fun x => negb (has_ad_id (ad_hash a) x)) (txn w')
     = filter (fun x => negb (has_ad_id (ad_hash a) x)) (txn w)
  /\ (disk w' = disk w \/ disk w' = txn w')
  /\ (db_fault E (db_calls w) = None ->
      db_fault E (S (db_calls w)) = None ->
      db_fault E (S (S (db_calls w))) = None ->
      fst (process_ad E a w) = Ok tt
      /\ entries (ad_hash a) (disk w') = [touch stamp r]
      /\ disk w' = txn w').
Proof.
  destruct a as [[[id t] p] u]. unfold ad_hash. cbn [fst snd].
  intros Huniq Hin Hid Hnew.
  assert (Hentries : entries id (txn w) = [r])
    by (apply (@entries_unique id (txn w) r); assumption).
  assert (Hexists : existsb (has_ad_id id) (txn w) = true).
  { apply exists_entry. rewrite <- Hid. apply in_map. exact Hin. }
  assert (Hupd : entries id (sql_update (isoformat (clock E (clock_reads w))) id (txn w))
                 = [touch (isoformat (clock E (clock_reads w))) r]).
  { rewrite sql_update_entries, Hentries. reflexivity. }
  apply mem_not_In in Hnew.
  unfold process_ad, select_ad_id, now, update_last_checked, commit, db_call.
  unfold bind, gets, modify. cbn. rewrite Hnew.
  destruct (db_fault E (db_calls w)) as [e0|] eqn:H0; cbn.
  { split; [exists r; split; [exact Hentries | split; [|left; reflexivity]]|].
    - unfold same_but_last_checked. auto.
    - split; [reflexivity|]. split; [left; reflexivity|]. intros H; discriminate. }
  rewrite Hexists. cbn.
  destruct (db_fault E (S (db_calls w))) as [e1|] eqn:H1; cbn.
  { split; [exists r; split; [exact Hentries | split; [|left; reflexivity]]|].
    - unfold same_but_last_checked. auto.
    - split; [reflexivity|]. split; [left; reflexivity|]. intros _ H; discriminate. }
  destruct (db_fault E (S (S (db_calls w)))) as [e2|] eqn:H2; cbn.
  { split; [eexists; split; [exact Hupd | split; [apply touch_same | right; reflexivity]]|].
    split; [apply sql_update_others|]. split; [left; reflexivity|].
    intros _ _ H; discriminate. }
  split; [eexists; split; [exact Hupd | split; [apply touch_same | right; reflexivity]]|].
  split; [apply sql_update_others|]. split; [right; reflexivity|].
  intros _ _ _. split; [reflexivity|]. split; [exact Hupd | reflexivity].
Qed.

(* --------------------------------------------------------------------- *)
(** ** The identity of an extracted ad *)

Section ExtractedIdentity.

Context {R : Runtime}.
Variable cfg : config.

Lemma scan_links_hashed (source_url : str) (ad_links : list node) :
  forall (processed_urls : list str) (ads_found res : list ad),
    Forall hashed_from_link ads_found ->
    scan_links cfg source_url ad_links processed_urls ads_found = Ok res ->
    Forall hashed_from_link res.
Proof.
  induction ad_links as [|a rest IH]; intros processed_urls ads_found res Hall Hrun.
  - simpl in Hrun. inversion Hrun. subst. exact Hall.
  - cbn [scan_links] in Hrun.
    destruct (is_empty (href_of a) || negb (startswith (href_of a) (lit "/marketplace/item/")));
      [eapply IH; eauto|].
    destruct (mem (full_url_of (href_of a)) processed_urls); [eapply IH; eauto|].
    destruct (find_span title_style a) as [title_span|]; [|eapply IH; eauto].
    destruct (find_span price_dir a) as [price_span|]; [|eapply IH; eauto].
    destruct (price_format_ok cfg (get_text price_span)) as [[|]|e];
      [| eapply IH; eauto | discriminate].
    destruct (apply_filters cfg source_url (get_text title_span)); [|eapply IH; eauto].
    eapply IH; [|exact Hrun]. apply Forall_app. split; [exact Hall|].
    constructor; [reflexivity | constructor].
Qed.

(** The identity of an extracted ad is the digest of its link: one
    canonical link, one identity, whatever page it was found on. *)
Lemma extracted_identity (content source_url : str) (x : ad) :
  In x (extract_ad_details cfg content source_url) ->
  ad_hash x = get_ads_hash (ad_link_url x).
Proof.
  unfold extract_ad_details. destruct (html_parser content) as [parsed|e]; [|intros []].
  destruct (scan_links cfg source_url (find_all_links parsed) [] []) as [res|e] eqn:Hrun;
    [|intros []].
  intros Hin. apply scan_links_hashed in Hrun; [|constructor].
  rewrite Forall_forall in Hrun. apply Hrun. exact Hin.
Qed.

Lemma sighted_identity (E : env) (source_url : str) (x : ad) :
  In x (sighted cfg E source_url) -> ad_hash x = get_ads_hash (ad_link_url x).
Proof.
  unfold sighted. destruct (fetch E source_url) as [e | | content]; try (intros []).
  apply extracted_identity.
Qed.

End ExtractedIdentity.

(* --------------------------------------------------------------------- *)
(** ** ISO texts sort as the instants they denote *)

Lemma str_ltb_irrefl (x : str) : str_ltb x x = false.
Proof.
  induction x as [|c x IH]; simpl; [reflexivity|].
  rewrite N.ltb_irrefl, N.eqb_refl, IH. reflexivity.
Qed.

Lemma str_ltb_same_prefix (l x y : str) : str_ltb (l ++ x) (l ++ y) = str_ltb x y.
Proof.
  induction l as [|c l IH]; simpl; [reflexivity|].
  rewrite N.ltb_irrefl, N.eqb_refl, IH. reflexivity.
Qed.

Lemma digit_ltb (r1 r2 : Z) :
  (0 <= r1 < 10)%Z -> (0 <= r2 < 10)%Z ->
  N.ltb (Z.to_N (48 + r1)) (Z.to_N (48 + r2)) = Z.ltb r1 r2.
Proof.
  intros H1 H2. destruct (Z.ltb_spec r1 r2) as [H | H].
  - apply N.ltb_lt. lia.
  - apply N.ltb_ge. lia.
Qed.

Lemma digit_eqb (r1 r2 : Z) :
  (0 <= r1 < 10)%Z -> (0 <= r2 < 10)%Z ->
  N.eqb (Z.to_N (48 + r1)) (Z.to_N (48 + r2)) = Z.eqb r1 r2.
Proof.
  intros H1 H2. destruct (Z.eqb_spec r1 r2) as [H | H].
  - apply N.eqb_eq. subst. reflexivity.
  - apply N.eqb_neq. lia.
Qed.

(** Zero-padded numbers of one width compare as numbers. *)
Lemma str_ltb_pad (w : nat) :
  forall (a b : Z) (x y : str),
    (0 <= a < 10 ^ Z.of_nat w)%Z -> (0 <= b < 10 ^ Z.of_nat w)%Z ->
    str_ltb (pad w a ++ x) (pad w b ++ y)
    = Z.ltb a b || (Z.eqb a b && str_ltb x y).
Proof.
  induction w as [|w IH]; intros a b x y Ha Hb.
  - simpl in *. assert (a = 0%Z) by lia. assert (b = 0%Z) by lia. subst.
    reflexivity.
  - rewrite Nat2Z.inj_succ, Z.pow_succ_r in Ha, Hb by lia.
    cbn [pad]. rewrite <- !app_assoc. cbn [app].
    rewrite IH.
    2:{ split; [apply Z.div_pos; lia | apply Z.div_lt_upper_bound; lia]. }
    2:{ split; [apply Z.div_pos; lia | apply Z.div_lt_upper_bound; lia]. }
    cbn [str_ltb].
    pose proof (Z.mod_pos_bound a 10 ltac:(lia)) as Hra.
    pose proof (Z.mod_pos_bound b 10 ltac:(lia)) as Hrb.
    rewrite digit_ltb, digit_eqb by assumption.
    pose proof (Z.div_mod a 10 ltac:(lia)) as Hda.
    pose proof (Z.div_mod b 10 ltac:(lia)) as Hdb.
    destruct (Z.ltb_spec (a / 10) (b / 10)); destruct (Z.eqb_spec (a / 10) (b / 10));
      destruct (Z.ltb_spec (a mod 10) (b mod 10));
      destruct (Z.eqb_spec (a mod 10) (b mod 10));
      destruct (Z.ltb_spec a b); destruct (Z.eqb_spec a b);
      cbn [orb andb]; try reflexivity; try lia.
Qed.

Lemma iso_tail_ltb (ua ub : Z) :
  (0 <= ua <= 999999)%Z -> (0 <= ub <= 999999)%Z ->
  str_ltb (iso_tail ua) (iso_tail ub) = Z.ltb ua ub.
Proof.
  intros Ha Hb. unfold iso_tail.
  destruct (Z.eqb_spec ua 0) as [-> | Hna]; destruct (Z.eqb_spec ub 0) as [-> | Hnb].
  - apply str_ltb_irrefl.
  - cbn. symmetry. apply Z.ltb_lt. lia.
  - cbn. symmetry. apply Z.ltb_ge. lia.
  - change (lit ".") with [46%N]. cbn [app str_ltb].
    rewrite N.ltb_irrefl, N.eqb_refl. cbn [orb andb].
    rewrite str_ltb_pad by (cbn; lia).
    rewrite str_ltb_irrefl, andb_false_r, orb_false_r. reflexivity.
Qed.

Lemma isoformat_tail (d : datetime) :
  isoformat d
  = pad 4 (year d) ++ lit "-" ++ pad 2 (month d) ++ lit "-" ++ pad 2 (day d)
    ++ lit "T" ++ pad 2 (hour d) ++ lit ":" ++ pad 2 (minute d) ++ lit ":"
    ++ pad 2 (second d) ++ iso_tail (microsecond d).
Proof. reflexivity. Qed.

(** [isoformat] keeps the order of instants: comparing two stored
    timestamps as text is comparing the instants. *)
Lemma isoformat_ltb (a b : datetime) :
  valid_datetime a -> valid_datetime b ->
  str_ltb (isoformat a) (isoformat b) = dt_ltb a b.
Proof.
  intros (Hy & Hm & Hd & Hh & Hmi & Hs & Hu) (Hy' & Hm' & Hd' & Hh' & Hmi' & Hs' & Hu').
  rewrite !isoformat_tail. unfold dt_ltb, dt_fields. cbn [lex_ltb].
  rewrite str_ltb_pad by (cbn; lia). rewrite str_ltb_same_prefix.
  rewrite str_ltb_pad by (cbn; lia). rewrite str_ltb_same_prefix.
  rewrite str_ltb_pad by (cbn; lia). rewrite str_ltb_same_prefix.
  rewrite str_ltb_pad by (cbn; lia). rewrite str_ltb_same_prefix.
  rewrite str_ltb_pad by (cbn; lia). rewrite str_ltb_same_prefix.
  rewrite str_ltb_pad by (cbn; lia).
  rewrite iso_tail_ltb by assumption.
  rewrite andb_false_r, orb_false_r. reflexivity.
Qed.

(* --------------------------------------------------------------------- *)
(** ** Dates before a date *)

Lemma days_in_month_range (y m : Z) : (28 <= days_in_month y m <= 31)%Z.
Proof.
  unfold days_in_month.
  destruct (Z.eqb m 2); [destruct (is_leap y); lia|].
  destruct (Z.eqb m 4 || Z.eqb m 6 || Z.eqb m 9 || Z.eqb m 11); lia.
Qed.

Lemma prev_day_in_range (d : datetime) :
  in_range_but_year d -> in_range_but_year (prev_day d).
Proof.
  unfold in_range_but_year, prev_day.
  intros (Hy & Hm & Hd & Hrest).
  destruct (Z.ltb_spec 1 (day d)); [cbn; lia|].
  destruct (Z.ltb_spec 1 (month d)); cbn.
  - pose proof (days_in_month_range (year d) (month d - 1)). lia.
  - lia.
Qed.

Lemma minus_days_in_range (n : nat) :
  forall d, in_range_but_year d -> in_range_but_year (minus_days d n).
Proof.
  induction n as [|n IH]; intros d Hd; simpl; [exact Hd|].
  apply IH. apply prev_day_in_range. exact Hd.
Qed.

(** The result of [d - timedelta(days=n)] is a [datetime] again. *)
Lemma sub_days_valid (d cutoff : datetime) (n : nat) :
  valid_datetime d -> sub_days d n = Ok cutoff -> valid_datetime cutoff.
Proof.
  unfold sub_days. intros Hd.
  destruct (Z.ltb_spec (year (minus_days d n)) 1) as [Hlt | Hge]; [discriminate|].
  intros H. inversion H. subst cutoff. clear H.
  assert (Hr : in_range_but_year (minus_days d n)).
  { apply minus_days_in_range. unfold valid_datetime, in_range_but_year in *. lia. }
  unfold valid_datetime, in_range_but_year in *. lia.
Qed.

(* --------------------------------------------------------------------- *)
(** ** Pruning *)

Lemma deleted_and_kept (cutoff : str) (t : table) :
  (List.length (sql_delete cutoff t) + List.length (sql_deleted cutoff t)
   = List.length t)%nat.
Proof.
  unfold sql_delete, sql_deleted. induction t as [|r t IH]; simpl; [reflexivity|].
  destruct (str_ltb (last_checked r) cutoff); simpl; lia.
Qed.

Lemma sql_delete_In (cutoff : str) (t : table) (r : row) :
  In r (sql_delete cutoff t) <-> In r t /\ str_ltb (last_checked r) cutoff = false.
Proof.
  unfold sql_delete. rewrite filter_In, negb_true_iff. reflexivity.
Qed.

(* --------------------------------------------------------------------- *)
(** ** The lock *)

Section Lock.

Context {R : Runtime}.
Variable cfg : config.
Variable E : env.

(** The [finally] clause releases the lock however the pass ends. *)
Lemma pass_locked_releases (w : world) :
  job_lock (snd (pass_locked cfg E w)) = false.
Proof.
  unfold pass_locked, bind, modify, try_finally. cbn.
  match goal with
  | |- context [try_except ?b ?h ?x] => destruct (try_except b h x) as [r w1]
  end.
  reflexivity.
Qed.

Lemma try_acquire_free (w : world) :
  job_lock w = false -> try_acquire w = (true, set_job_lock true w).
Proof. unfold try_acquire. intros ->. reflexivity. Qed.

Lemma try_acquire_held (w : world) :
  job_lock w = true -> try_acquire w = (false, w).
Proof. unfold try_acquire. intros ->. reflexivity. Qed.

Lemma count_in_flight_set_phase (l : list phase) :
  forall (i : nat) (p q : phase),
    nth_error l i = Some q ->
    (count_in_flight (set_phase i p l) + (if in_flight q then 1 else 0)
     = count_in_flight l + (if in_flight p then 1 else 0))%nat.
Proof.
  unfold count_in_flight.
  induction l as [|x l IH]; intros [|i] p q H; simpl in H; try discriminate.
  - inversion H. subst x. simpl. destruct (in_flight p), (in_flight q); simpl; lia.
  - simpl. specialize (IH i p q H). destruct (in_flight x); simpl; lia.
Qed.

Lemma count_in_flight_initial (l : list phase) :
  Forall (fun p => p = Triggered) l -> count_in_flight l = 0%nat.
Proof.
  unfold count_in_flight. induction 1 as [|x l Hx _ IH]; simpl; [reflexivity|].
  subst x. exact IH.
Qed.

Lemma job_step_keeps_tracking (sys sys' : system) :
  job_step cfg E sys sys' -> lock_tracks_flight sys -> lock_tracks_flight sys'.
Proof.
  intros Hstep Hinv. destruct Hstep as [i sys w' Hi Hacq | i sys w' Hi Hacq | i sys Hi];
    unfold lock_tracks_flight in *; cbn [shared jobs].
  - pose proof (count_in_flight_set_phase (jobs sys) i InFlight Hi) as Hc.
    cbn in Hc. unfold try_acquire in Hacq.
    destruct (job_lock (shared sys)) eqn:Hl; [discriminate|].
    inversion Hacq. subst w'. left. split; [reflexivity|].
    destruct Hinv as [[H _] | [_ H]]; [discriminate | lia].
  - pose proof (count_in_flight_set_phase (jobs sys) i Turned_away Hi) as Hc.
    cbn in Hc. unfold try_acquire in Hacq.
    destruct (job_lock (shared sys)) eqn:Hl; [|discriminate].
    inversion Hacq. subst w'. left. split; [exact Hl|].
    destruct Hinv as [[_ H] | [H _]]; [lia | discriminate].
  - pose proof (count_in_flight_set_phase (jobs sys) i Finished Hi) as Hc.
    cbn in Hc. right. split; [apply pass_locked_releases|].
    destruct Hinv as [[_ H] | [_ H]]; lia.
Qed.

Lemma job_steps_keep_tracking (sys sys' : system) :
  job_steps cfg E sys sys' -> lock_tracks_flight sys -> lock_tracks_flight sys'.
Proof.
  induction 1 as [sys | a b c _ IH Hstep]; intros Hinv; [exact Hinv|].
  eapply job_step_keeps_tracking; eauto.
Qed.

End Lock.

(* --------------------------------------------------------------------- *)
(** ** Reasoning about computations *)

Section Hoare.

Variables A B : Type.

Lemma hoare_bind (P : world -> Prop) (m : M A) (Q1 : result A -> world -> Prop)
  (k : A -> M B) (Q : result B -> world -> Prop) :
  hoare P m Q1 ->
  (forall a, hoare (Q1 (Ok a)) (k a) Q) ->
  (forall e w, Q1 (Raise e) w -> Q (Raise e) w) ->
  hoare P (bind m k) Q.
Proof.
  intros Hm Hk He w Hw. unfold bind. specialize (Hm w Hw).
  destruct (m w) as [[a|e] w1]; cbn [fst snd] in *; [apply Hk; exact Hm | auto].
Qed.

Lemma hoare_try_except (P : world -> Prop) (m : M A)
  (Q1 : result A -> world -> Prop) (h : exn -> M A) (Q : result A -> world -> Prop) :
  hoare P m Q1 ->
  (forall a w, Q1 (Ok a) w -> Q (Ok a) w) ->
  (forall e, hoare (Q1 (Raise e)) (h e) Q) ->
  hoare P (try_except m h) Q.
Proof.
  intros Hm Hok Hh w Hw. unfold try_except. specialize (Hm w Hw).
  destruct (m w) as [[a|e] w1]; cbn [fst snd] in *; [auto | apply Hh; exact Hm].
Qed.

Lemma hoare_try_finally (P : world -> Prop) (m : M A)
  (Q1 : result A -> world -> Prop) (c : world -> world)
  (Q : result A -> world -> Prop) :
  hoare P m Q1 ->
  (forall r w, Q1 r w -> Q r (c w)) ->
  hoare P (try_finally m c) Q.
Proof.
  intros Hm Hc w Hw. unfold try_finally. specialize (Hm w Hw).
  destruct (m w) as [r w1]. cbn [fst snd] in *. auto.
Qed.

Lemma hoare_consequence (P P' : world -> Prop) (m : M A)
  (Q Q' : result A -> world -> Prop) :
  hoare P' m Q' ->
  (forall w, P w -> P' w) ->
  (forall r w, Q' r w -> Q r w) ->
  hoare P m Q.
Proof. intros Hm Hp Hq w Hw. apply Hq. apply Hm. apply Hp. exact Hw. Qed.

Lemma maintains_bind (I : world -> Prop) (m : M A) (k : A -> M B) :
  maintains I m -> (forall a, maintains I (k a)) -> maintains I (bind m k).
Proof.
  intros Hm Hk. unfold maintains.
  apply (hoare_bind (Q1 := fun _ => I)); auto.
Qed.

Lemma maintains_try_except (I : world -> Prop) (m : M A) (h : exn -> M A) :
  maintains I m -> (forall e, maintains I (h e)) -> maintains I (try_except m h).
Proof.
  intros Hm Hh. unfold maintains.
  apply (hoare_try_except (Q1 := fun _ => I)); auto.
Qed.

Lemma maintains_ret (I : world -> Prop) (a : A) : maintains I (ret a).
Proof. intros w H. exact H. Qed.

Lemma maintains_raise (I : world -> Prop) (e : exn) : maintains I (@raise A e).
Proof. intros w H. exact H. Qed.

Lemma maintains_gets (I : world -> Prop) (f : world -> A) : maintains I (gets f).
Proof. intros w H. exact H. Qed.

End Hoare.

Lemma maintains_for_each (A : Type) (I : world -> Prop) (f : A -> M unit)
  (l : list A) :
  (forall x, maintains I (f x)) -> maintains I (for_each f l).
Proof.
  intros Hf. induction l as [|x l IH]; simpl.
  - apply maintains_ret.
  - apply maintains_bind; [apply Hf | intros _; exact IH].
Qed.

Lemma maintains_lift (A : Type) (I : world -> Prop) (r : result A) :
  maintains I (lift r).
Proof. intros w H. exact H. Qed.

Lemma maintains_modify (I : world -> Prop) (f : world -> world) :
  (forall w, I w -> I (f w)) -> maintains I (modify f).
Proof. intros H w Hw. apply H. exact Hw. Qed.

(* --------------------------------------------------------------------- *)
(** ** What every pass keeps, whatever the database calls do *)

Section AnyPass.

Context {R : Runtime}.
Variable cfg : config.
Variable E : env.
Variable t0 : table.
Hypothesis Hunique0 : unique_ids t0.

Lemma same_but_last_checked_refl (a : row) : same_but_last_checked a a.
Proof. unfold same_but_last_checked. auto. Qed.

Lemma same_but_last_checked_trans (a b c : row) :
  same_but_last_checked a b -> same_but_last_checked b c -> same_but_last_checked a c.
Proof.
  unfold same_but_last_checked. intros (H1 & H2 & H3 & H4 & H5) (G1 & G2 & G3 & G4 & G5).
  repeat split; congruence.
Qed.

Lemma keeps_update (stamp id : str) (t : table) :
  keeps t0 t -> keeps t0 (sql_update stamp id t).
Proof.
  intros [Hu Hk]. split.
  - unfold unique_ids. rewrite sql_update_ids. exact Hu.
  - intros r Hr. destruct (Hk r Hr) as [r' [Hin Hsame]].
    exists (if has_ad_id id r' then touch stamp r' else r'). split.
    + unfold sql_update. apply in_map_iff. exists r'. auto.
    + destruct (has_ad_id id r'); [|exact Hsame].
      eapply same_but_last_checked_trans; [exact Hsame | apply touch_same].
Qed.

Lemma keeps_insert (r : row) (t : table) :
  keeps t0 t -> ~ In (ad_id r) (map ad_id t) -> keeps t0 (t ++ [r]).
Proof.
  intros [Hu Hk] Hnew. split.
  - apply unique_ids_insert; assumption.
  - intros x Hx. destruct (Hk x Hx) as [x' [Hin Hsame]].
    exists x'. split; [apply in_or_app; left; exact Hin | exact Hsame].
Qed.

Lemma keeps_ids (t : table) (id : str) :
  keeps t0 t -> In id (map ad_id t0) -> In id (map ad_id t).
Proof.
  intros [_ Hk] Hin. apply in_map_iff in Hin. destruct Hin as [r [<- Hr]].
  destruct (Hk r Hr) as [r' [Hin' (_ & Hid & _)]].
  rewrite <- Hid. apply in_map. exact Hin'.
Qed.

Lemma keeps_start : keeps t0 t0.
Proof.
  split; [exact Hunique0|]. intros r Hr. exists r. split; [exact Hr|].
  apply same_but_last_checked_refl.
Qed.

Lemma unique_ids_same_row (t : table) (a b : row) :
  unique_ids t -> In a t -> In b t -> ad_id a = ad_id b -> a = b.
Proof.
  intros Hu Ha Hb Hid.
  pose proof (@entries_unique (ad_id a) t a Hu Ha eq_refl) as H1.
  pose proof (@entries_unique (ad_id a) t b Hu Hb (eq_sym Hid)) as H2.
  congruence.
Qed.

(** What is kept has changed in [last_checked] only. *)
Lemma keeps_frame_only (t : table) : keeps t0 t -> frame_only t0 t.
Proof.
  intros [Hu Hk]. split; [exact Hu|].
  intros r r' Hr Hr' Hid. destruct (Hk r Hr) as [r'' [Hin Hsame]].
  assert (r'' = r').
  { apply (@unique_ids_same_row t r'' r' Hu Hin Hr').
    destruct Hsame as (_ & H & _). congruence. }
  subst r''. exact Hsame.
Qed.

(** Taking rows away keeps the UNIQUE constraint. *)
Lemma unique_ids_filter (keep : row -> bool) (t : table) :
  unique_ids t -> unique_ids (filter keep t).
Proof.
  unfold unique_ids. induction t as [|r t IH]; simpl; intros H; [constructor|].
  inversion H as [|? ? Hnotin Hnd]; subst.
  destruct (keep r); simpl; [|auto]. constructor; [|auto].
  intros Hin. apply Hnotin. apply in_map_iff in Hin. destruct Hin as [y [Hy Hin]].
  apply filter_In in Hin. apply in_map_iff. exists y. tauto.
Qed.

Lemma frame_only_delete (cutoff : str) (t : table) :
  frame_only t0 t -> frame_only t0 (sql_delete cutoff t).
Proof.
  intros [Hu Hf]. split.
  - unfold sql_delete. apply unique_ids_filter. exact Hu.
  - intros r r' Hr Hr' Hid. apply sql_delete_In in Hr'. apply (Hf r r'); tauto.
Qed.

(** The entries of an old identity: none, or one that differs from the old
    one in [last_checked] at most. *)
Lemma frame_only_entries (t : table) (r : row) :
  frame_only t0 t -> In r t0 ->
  entries (ad_id r) t = []
  \/ exists r', entries (ad_id r) t = [r'] /\ same_but_last_checked r r'.
Proof.
  intros [Hu Hf] Hr.
  destruct (existsb (has_ad_id (ad_id r)) t) eqn:Hex.
  - right. apply existsb_exists in Hex. destruct Hex as [r' [Hin Hid]].
    apply has_ad_id_true in Hid. exists r'. split.
    + apply entries_unique; assumption.
    + apply (Hf r r'); assumption.
  - left. apply entries_nil. exact Hex.
Qed.

Lemma maintains_db_call (I : world -> Prop) :
  (forall w, I w -> I (count_db_call w)) -> maintains I (db_call E).
Proof.
  intros Hc w H. unfold db_call.
  destruct (db_fault E (db_calls w)); apply Hc; exact H.
Qed.

Lemma pass_invariant_count (w : world) :
  pass_invariant t0 w -> pass_invariant t0 (count_db_call w).
Proof. intros H. exact H. Qed.

Lemma maintains_now (I : world -> Prop) :
  (forall w, I w -> I (count_clock_read w)) -> maintains I (now E).
Proof. intros Hc w H. apply Hc. exact H. Qed.

Lemma maintains_log (I : world -> Prop) (ev : log_event) :
  (forall w, I w -> I (add_log ev w)) -> maintains I (log_msg ev).
Proof. intros Hc w H. apply Hc. exact H. Qed.

Lemma maintains_update (stamp id : str) :
  maintains (pass_invariant t0) (update_last_checked E stamp id).
Proof.
  unfold update_last_checked.
  apply maintains_bind; [apply maintains_db_call; auto|].
  intros _ w (Ht & Hd & Ha). unfold modify. cbn.
  split; [apply keeps_update; exact Ht | split; assumption].
Qed.

Lemma maintains_commit : maintains (pass_invariant t0) (commit E).
Proof.
  unfold commit. apply maintains_bind; [apply maintains_db_call; auto|].
  intros _ w (Ht & Hd & Ha). unfold modify. cbn. split; [|split]; assumption.
Qed.

Lemma maintains_rollback : maintains (pass_invariant t0) (rollback E).
Proof.
  unfold rollback. apply maintains_bind; [apply maintains_db_call; auto|].
  intros _ w (Ht & Hd & Ha). unfold modify. cbn. split; [|split]; assumption.
Qed.

(** The insert path up to the point where the identity is marked as
    handled: that happens only after an [INSERT] that found no row. *)
Lemma maintains_insert_path (r : row) (new_item : rss_item) :
  maintains (pass_invariant t0)
    (insert_ad E r ;;
     commit E ;;
     modify (fun w => set_rss_items (new_item :: rss_items w) w) ;;
     modify (fun w => set_added (ad_id r :: added_ad_ids_this_run w) w) ;;
     modify (fun w => set_new_count (S (new_ads_added_count w)) w)).
Proof.
  intros w (Ht & Hd & Ha).
  unfold insert_ad, commit, db_call, bind, gets, modify, raise. cbn.
  destruct (db_fault E (db_calls w)) as [e|]; cbn; [split; [|split]; assumption|].
  destruct (existsb (has_ad_id (ad_id r)) (txn w)) eqn:Hex; cbn;
    [split; [|split]; assumption|].
  apply no_entry in Hex.
  assert (Ht' : keeps t0 (txn w ++ [r])) by (apply keeps_insert; assumption).
  destruct (db_fault E (S (db_calls w))) as [e|]; cbn; [split; [|split]; assumption|].
  split; [exact Ht'|]. split; [exact Ht'|].
  intros id [<- | Hin]; [|apply Ha; exact Hin].
  intros Hold. apply Hex. eapply keeps_ids; eassumption.
Qed.

Lemma maintains_process_ad (x : ad) : maintains (pass_invariant t0) (process_ad E x).
Proof.
  destruct x as [[[id t] p] u]. unfold process_ad.
  apply maintains_bind; [apply maintains_gets|]. intros added.
  destruct (mem id added); [apply maintains_ret|].
  unfold select_ad_id.
  apply maintains_bind;
    [apply maintains_bind; [apply maintains_db_call; auto | intros _; apply maintains_gets]|].
  intros existing_ad. apply maintains_bind; [apply maintains_now; auto|]. intros now_utc.
  destruct existing_ad.
  - apply maintains_bind; [apply maintains_update | intros _; apply maintains_commit].
  - apply maintains_bind; [apply maintains_lift|]. intros pub.
    apply maintains_try_except.
    + apply (maintains_insert_path
               {| url := u; ad_id := id; title := t; price := p;
                  first_seen := isoformat now_utc; last_checked := isoformat now_utc |}).
    + intros e. destruct (is_integrity_error e).
      * apply maintains_bind; [apply maintains_log; auto|]. intros _.
        apply maintains_bind; [apply maintains_update | intros _; apply maintains_commit].
      * destruct (is_sqlite_error e).
        -- apply maintains_bind;
             [apply maintains_log; auto | intros _; apply maintains_rollback].
        -- apply maintains_raise.
Qed.

Lemma maintains_process_url (source_url : str) :
  maintains (pass_invariant t0) (process_url cfg E source_url).
Proof.
  unfold process_url. apply maintains_try_except.
  - destruct (fetch E source_url) as [e | | content].
    + apply maintains_raise.
    + apply maintains_ret.
    + destruct (extract_ad_details cfg content source_url) as [|x l].
      * apply maintains_ret.
      * apply maintains_for_each. apply maintains_process_ad.
  - intros e. apply maintains_log. auto.
Qed.

Lemma pass_invariant_frame (w : world) :
  pass_invariant t0 w -> frame_invariant t0 w.
Proof.
  intros (Ht & Hd & _). split; apply keeps_frame_only; assumption.
Qed.

Lemma maintains_prune (days : nat) :
  maintains (frame_invariant t0) (prune_old_ads E days).
Proof.
  unfold prune_old_ads. apply maintains_try_except.
  - apply maintains_bind; [apply maintains_now; auto|]. intros now_utc.
    apply maintains_bind; [intros w H; unfold lift; exact H|]. intros cutoff.
    apply maintains_bind.
    + unfold delete_older.
      apply maintains_bind; [apply maintains_db_call; auto|]. intros _.
      apply maintains_bind; [apply maintains_gets|]. intros n.
      apply maintains_bind; [|intros _; apply maintains_ret].
      apply maintains_modify. intros w [Ht Hd].
      split; [apply frame_only_delete; exact Ht | exact Hd].
    + intros n. apply maintains_bind; [|intros _; apply maintains_log; auto].
      unfold commit. apply maintains_bind; [apply maintains_db_call; auto|].
      intros _. apply maintains_modify. intros w [Ht Hd]. split; exact Ht.
  - intros e. destruct (is_sqlite_error e); [|apply maintains_raise].
    apply maintains_bind; [apply maintains_log; auto|]. intros _.
    unfold rollback. apply maintains_bind; [apply maintains_db_call; auto|].
    intros _. apply maintains_modify. intros w [Ht Hd]. split; exact Hd.
Qed.

(** The statements of the pass once the connection is there. *)
Lemma connected_pass_frames :
  hoare (fun w => txn w = t0 /\ disk w = t0)
    (modify (set_added []) ;;
     for_each (process_url cfg E) (urls_to_monitor cfg) ;;
     prune_old_ads E 14 ;;
     n <- gets new_ads_added_count ;;
     log_msg (LogFinished n) ;;
     ret true)
    (fun _ => frame_invariant t0).
Proof.
  apply (hoare_bind (Q1 := fun _ => pass_invariant t0)).
  - intros w [Ht Hd]. cbn. unfold pass_invariant. cbn. rewrite Ht, Hd.
    split; [apply keeps_start|]. split; [apply keeps_start|]. intros id [].
  - intros _. apply (hoare_bind (Q1 := fun _ => pass_invariant t0)).
    + apply maintains_for_each. apply maintains_process_url.
    + intros _.
      apply hoare_consequence with (P' := frame_invariant t0)
                                   (Q' := fun _ => frame_invariant t0);
        [|apply pass_invariant_frame | auto].
      apply maintains_bind; [apply maintains_prune|]. intros _.
      apply maintains_bind; [apply maintains_gets|]. intros n.
      apply maintains_bind; [apply maintains_log; auto | intros _; apply maintains_ret].
    + intros e w. apply pass_invariant_frame.
  - intros e w H. apply pass_invariant_frame. exact H.
Qed.

(** The loop over the sources keeps every entry the ledger had when the
    pass started, changed at most in [last_checked], and the one entry of
    its identity. *)
Lemma pass_keeps_entries (urls : list str) (w : world) (r : row) :
  txn w = t0 -> disk w = t0 -> added_ad_ids_this_run w = [] ->
  In r t0 ->
  exists r',
    entries (ad_id r) (disk (snd (for_each (process_url cfg E) urls w))) = [r']
    /\ same_but_last_checked r r'.
Proof.
  intros Ht Hd Ha Hr.
  assert (Hstart : pass_invariant t0 w).
  { unfold pass_invariant. rewrite Ht, Hd, Ha.
    split; [apply keeps_start|]. split; [apply keeps_start|]. intros id []. }
  pose proof (@maintains_for_each _ (pass_invariant t0) (process_url cfg E) urls
                maintains_process_url w Hstart) as (_ & [Hu' Hk'] & _).
  destruct (Hk' r Hr) as [r' [Hin Hsame]].
  exists r'. split; [|exact Hsame].
  apply entries_unique; [exact Hu' | exact Hin | apply Hsame].
Qed.

(** [check_for_new_ads], whatever the lock, the database calls, the pages
    and the clock do: the ledger it leaves has the UNIQUE constraint and
    every row of an identity the ledger had is that row, changed at most
    in [last_checked]. *)
Lemma check_for_new_ads_frames (w : world) :
  disk w = t0 -> frame_only t0 (disk (snd (check_for_new_ads cfg E w))).
Proof.
  intros Hd. unfold check_for_new_ads, try_acquire.
  destruct (job_lock w).
  { cbn. rewrite Hd. apply keeps_frame_only. apply keeps_start. }
  assert (Hbody : hoare (fun w => disk w = t0)
                    (try_except (pass_try cfg E ;; ret tt)
                       (fun e =>
                          log_msg (LogPassError e) ;;
                          (if is_database_error e then rollback_if_conn E else ret tt)))
                    (fun _ w => frame_only t0 (disk w))).
  { apply (hoare_try_except (Q1 := fun _ w => frame_only t0 (disk w))); [|auto|].
    - apply (hoare_bind (Q1 := fun _ w => frame_only t0 (disk w))); [| |auto].
      + unfold pass_try.
        apply (hoare_bind
                 (Q1 := fun r w => disk w = t0 /\ (r = Ok true -> txn w = t0))).
        * intros w1 Hw1. unfold open_connection, get_db_connection, db_call.
          unfold try_except, bind, modify, ret, raise. cbn.
          destruct (db_fault E (db_calls w1)) as [e|]; cbn.
          -- destruct (is_sqlite_error e); cbn; split; auto; discriminate.
          -- split; auto.
        * intros [|].
          -- apply hoare_consequence with (P' := fun w => txn w = t0 /\ disk w = t0)
                                          (Q' := fun _ => frame_invariant t0).
             ++ apply connected_pass_frames.
             ++ intros w1 [H1 H2]. split; auto.
             ++ intros r w1 [_ H]. exact H.
          -- intros w1 [Hw1 _]. cbn. rewrite Hw1.
             apply keeps_frame_only. apply keeps_start.
        * intros e w1 [Hw1 _]. rewrite Hw1.
          apply keeps_frame_only. apply keeps_start.
      + intros b w1 H. exact H.
    - intros e w1 H. unfold log_msg, rollback_if_conn, rollback, db_call.
      unfold bind, gets, modify, ret. cbn.
      destruct (is_database_error e); cbn; [|exact H].
      destruct (conn w1); cbn; [|exact H].
      destruct (db_fault E (db_calls w1)); exact H. }
  unfold pass_locked. unfold bind at 1 2. unfold modify at 1 2. cbn [fst snd].
  match goal with
  | |- context [try_finally ?b ?c ?x] =>
      pose proof (Hbody x) as Hx; unfold try_finally; destruct (b x) as [res w2]
  end.
  cbn [fst snd] in *. unfold release, close.
  destruct (conn w2); cbn; apply Hx; cbn; exact Hd.
Qed.

End AnyPass.

(* --------------------------------------------------------------------- *)
(** ** A whole pass in which no call into sqlite3 raises *)

Section QuietWholePass.

Context {R : Runtime}.
Variable cfg : config.
Variable E : env.
Hypothesis Hzone : zone_converts E.

Lemma bind_ok {A B : Type} (m : M A) (k : A -> M B) (w w1 : world) (a : A) :
  m w = (Ok a, w1) -> bind m k w = k a w1.
Proof. intros H. unfold bind. rewrite H. reflexivity. Qed.

Lemma bind_raises {A B : Type} (m : M A) (k : A -> M B) (w w1 : world) (e : exn) :
  m w = (Raise e, w1) -> bind m k w = (Raise e, w1).
Proof. intros H. unfold bind. rewrite H. reflexivity. Qed.

Lemma bind_modify {B : Type} (f : world -> world) (k : unit -> M B) (w : world) :
  bind (modify f) k w = k tt (f w).
Proof. reflexivity. Qed.

Lemma bind_gets {A B : Type} (f : world -> A) (k : A -> M B) (w : world) :
  bind (gets f) k w = k (f w) w.
Proof. reflexivity. Qed.

Lemma open_connection_quiet (w : world) :
  db_fault E (db_calls w) = None ->
  open_connection E w
  = (Ok true, set_conn true (set_txn (disk w) (count_db_call w))).
Proof.
  intros H. unfold open_connection, get_db_connection, db_call.
  unfold try_except, bind, modify, ret. rewrite H. reflexivity.
Qed.

(** Pruning when neither the [DELETE] nor the [commit] raises: what is on
    disk afterwards, and that an exception it lets through is not a
    [sqlite3.DatabaseError]. *)
Lemma prune_old_ads_quiet (days : nat) (w : world) :
  db_fault E (db_calls w) = None ->
  db_fault E (S (db_calls w)) = None ->
  exists r w',
    prune_old_ads E days w = (r, w')
    /\ (forall e, r = Raise e -> is_database_error e = false)
    /\ disk w' = match sub_days (clock E (clock_reads w)) days with
                 | Ok cutoff => sql_delete (isoformat cutoff) (txn w)
                 | Raise _ => disk w
                 end.
Proof.
  intros H1 H2.
  unfold prune_old_ads, now, lift, delete_older, commit, log_msg, rollback, db_call.
  unfold try_except, bind, gets, modify, raise, ret. cbn.
  destruct (sub_days (clock E (clock_reads w)) days) as [cutoff|e] eqn:Hcut; cbn.
  - rewrite H1. cbn. rewrite H2. cbn.
    eexists; eexists. split; [reflexivity|]. split; [discriminate|reflexivity].
  - unfold sub_days in Hcut.
    destruct (Z.ltb (year (minus_days (clock E (clock_reads w)) days)) 1);
      [|discriminate].
    inversion Hcut. subst e. cbn.
    eexists; eexists. split; [reflexivity|]. split; [|reflexivity].
    intros e He. inversion He. reflexivity.
Qed.

Lemma pass_try_quiet (w wl : world) :
  db_fault E (db_calls w) = None ->
  for_each (process_url cfg E) (urls_to_monitor cfg) (connected w) = (Ok tt, wl) ->
  db_fault E (db_calls wl) = None ->
  db_fault E (S (db_calls wl)) = None ->
  exists r w',
    pass_try cfg E w = (r, w')
    /\ (forall e, r = Raise e -> is_database_error e = false)
    /\ disk w' = match sub_days (clock E (clock_reads wl)) 14 with
                 | Ok cutoff => sql_delete (isoformat cutoff) (txn wl)
                 | Raise _ => disk wl
                 end.
Proof.
  intros H0 Hloop H1 H2.
  destruct (@prune_old_ads_quiet 14 wl H1 H2) as [r [w' [Hp [He Hd]]]].
  unfold pass_try.
  rewrite (@bind_ok _ _ _ _ _ _ _ (@open_connection_quiet w H0)).
  rewrite bind_modify.
  change (set_added [] (set_conn true (set_txn (disk w) (count_db_call w))))
    with (connected w).
  rewrite (@bind_ok _ _ _ _ _ _ _ Hloop).
  destruct r as [u|e].
  - rewrite (@bind_ok _ _ _ _ _ _ _ Hp). rewrite bind_gets. unfold log_msg.
    rewrite bind_modify. unfold ret.
    eexists; eexists. split; [reflexivity|]. split; [discriminate|exact Hd].
  - rewrite (@bind_raises _ _ _ _ _ _ _ Hp).
    eexists; eexists. split; [reflexivity|]. split; [|exact Hd].
    intros e' He'. inversion He'. subst e'. apply (He e eq_refl).
Qed.

(** The ledger after [pass_locked] is the one its [try] block leaves, when
    the block raises no [sqlite3.DatabaseError]: the handler then only logs,
    and closing the connection and releasing the lock write nothing. *)
Lemma pass_locked_disk (w : world) (r : result bool) (w' : world) :
  pass_try cfg E (set_new_count 0 (set_conn false w)) = (r, w') ->
  (forall e, r = Raise e -> is_database_error e = false) ->
  disk (snd (pass_locked cfg E w)) = disk w'.
Proof.
  intros Hp He. unfold pass_locked.
  rewrite bind_modify. rewrite bind_modify.
  unfold try_finally, try_except.
  destruct r as [b|e].
  - rewrite (@bind_ok _ _ _ _ _ _ _ Hp). unfold ret. cbn [snd].
    unfold release, close. destruct (conn w'); reflexivity.
  - rewrite (@bind_raises _ _ _ _ _ _ _ Hp). unfold log_msg. rewrite bind_modify.
    rewrite (He e eq_refl). unfold ret. cbn [snd].
    unfold release, close. destruct (conn (add_log (LogPassError e) w')); reflexivity.
Qed.

(** [check_for_new_ads] from a free lock: it connects, runs the loop over
    the sources from the committed ledger with no identity handled yet,
    prunes, and ends with the lock free.  [w0] is the state in which the
    loop starts, [wl] the state in which it ends. *)
Lemma check_for_new_ads_quiet (w : world) :
  job_lock w = false ->
  no_fault_from E (db_calls w) ->
  unique_ids (disk w) ->
  exists w0 wl,
    txn w0 = disk w /\ disk w0 = disk w /\ added_ad_ids_this_run w0 = []
    /\ no_fault_from E (db_calls w0)
    /\ for_each (process_url cfg E) (urls_to_monitor cfg) w0 = (Ok tt, wl)
    /\ disk (snd (check_for_new_ads cfg E w))
       = match sub_days (clock E (clock_reads wl)) 14 with
         | Ok cutoff => sql_delete (isoformat cutoff) (disk wl)
         | Raise _ => disk wl
         end.
Proof.
  intros Hlock Hq Hu.
  set (w1 := set_new_count 0 (set_conn false (set_job_lock true w))).
  assert (H0 : db_fault E (db_calls w1) = None) by (apply Hq; cbn; lia).
  assert (Hq0 : no_fault_from E (db_calls (connected w1))).
  { eapply no_fault_from_le; [exact Hq | cbn; lia]. }
  assert (Hu0 : unique_ids (disk (connected w1))) by exact Hu.
  destruct (@advances_sources R cfg E Hzone (urls_to_monitor cfg) (connected w1) Hq0
              (conj Hu0 eq_refl))
    as [wl [Hrun [Hql [[_ Hdl] _]]]].
  assert (H1 : db_fault E (db_calls wl) = None) by (apply Hql; lia).
  assert (H2 : db_fault E (S (db_calls wl)) = None) by (apply Hql; lia).
  destruct (@pass_try_quiet w1 wl H0 Hrun H1 H2) as [r [w' [Hp [He Hd]]]].
  exists (connected w1), wl.
  split; [reflexivity|]. split; [reflexivity|]. split; [reflexivity|].
  split; [exact Hq0|]. split; [exact Hrun|].
  unfold check_for_new_ads. rewrite try_acquire_free by exact Hlock.
  rewrite (@pass_locked_disk (set_job_lock true w) r w' Hp He).
  rewrite Hd. rewrite Hdl. reflexivity.
Qed.

(** The same with the state [wl] in which the loop ends written out. *)
Lemma check_for_new_ads_ledger (w : world) :
  job_lock w = false ->
  no_fault_from E (db_calls w) ->
  unique_ids (disk w) ->
  let wl := snd (for_each (process_url cfg E) (urls_to_monitor cfg)
                   (connected (set_new_count 0 (set_conn false (set_job_lock true w))))) in
  disk (snd (check_for_new_ads cfg E w))
  = match sub_days (clock E (clock_reads wl)) 14 with
    | Ok cutoff => sql_delete (isoformat cutoff) (disk wl)
    | Raise _ => disk wl
    end.
Proof.
  intros Hlock Hq Hu.
  set (w1 := set_new_count 0 (set_conn false (set_job_lock true w))).
  assert (H0 : db_fault E (db_calls w1) = None) by (apply Hq; cbn; lia).
  assert (Hq0 : no_fault_from E (db_calls (connected w1))).
  { eapply no_fault_from_le; [exact Hq | cbn; lia]. }
  assert (Hu0 : unique_ids (disk (connected w1))) by exact Hu.
  destruct (@advances_sources R cfg E Hzone (urls_to_monitor cfg) (connected w1) Hq0
              (conj Hu0 eq_refl))
    as [wl [Hrun [Hql [[_ Hdl] _]]]].
  assert (H1 : db_fault E (db_calls wl) = None) by (apply Hql; lia).
  assert (H2 : db_fault E (S (db_calls wl)) = None) by (apply Hql; lia).
  destruct (@pass_try_quiet w1 wl H0 Hrun H1 H2) as [r [w' [Hp [He Hd]]]].
  rewrite Hrun. cbn [snd].
  unfold check_for_new_ads. rewrite try_acquire_free by exact Hlock.
  rewrite (@pass_locked_disk (set_job_lock true w) r w' Hp He).
  rewrite Hd. rewrite Hdl. reflexivity.
Qed.

Lemma entries_delete (id cutoff : str) (t : table) :
  entries id (sql_delete cutoff t)
  = filter (fun r => negb (str_ltb (last_checked r) cutoff)) (entries id t).
Proof.
  unfold entries, sql_delete. induction t as [|r t IH]; simpl; [reflexivity|].
  destruct (str_ltb (last_checked r) cutoff) eqn:Hold; simpl;
    destruct (has_ad_id id r); simpl; rewrite ?Hold; simpl; rewrite IH; reflexivity.
Qed.

(** An entry stamped during a run shorter than the retention is not
    pruned at its end. *)
Lemma stamped_entry_survives (days : nat) (id : str) (t : table) (r0 : row)
  (k j : nat) (cutoff : datetime) :
  within_retention E days ->
  sub_days (clock E j) days = Ok cutoff ->
  entries id t = [r0] ->
  last_checked r0 = isoformat (clock E k) ->
  entries id (sql_delete (isoformat cutoff) t) = [r0].
Proof.
  intros [Hvalid Hwithin] Hcut Hent Hstamp.
  rewrite entries_delete, Hent. cbn [filter].
  rewrite Hstamp, isoformat_ltb.
  - rewrite (Hwithin k j cutoff Hcut). reflexivity.
  - apply Hvalid.
  - apply (@sub_days_valid (clock E j) cutoff days); [apply Hvalid | exact Hcut].
Qed.

(** The whole pass, undisturbed and shorter than the retention: what the
    loop over the sources leaves of an entry stamped in the run is what the
    pass leaves. *)
Lemma quiet_pass_result (w : world) :
  job_lock w = false ->
  no_fault_from E (db_calls w) ->
  unique_ids (disk w) ->
  within_retention E 14 ->
  exists w0 wl,
    txn w0 = disk w /\ added_ad_ids_this_run w0 = [] /\ settled w0
    /\ no_fault_from E (db_calls w0)
    /\ for_each (process_url cfg E) (urls_to_monitor cfg) w0 = (Ok tt, wl)
    /\ (forall id r0 k,
          entries id (disk wl) = [r0] ->
          last_checked r0 = isoformat (clock E k) ->
          entries id (disk (snd (check_for_new_ads cfg E w))) = [r0])
    /\ (forall id r0,
          entries id (disk wl) = [r0] ->
          entries id (disk (snd (check_for_new_ads cfg E w))) = [r0]
          \/ entries id (disk (snd (check_for_new_ads cfg E w))) = []).
Proof.
  intros Hlock Hq Hu Hret.
  destruct (@check_for_new_ads_quiet w Hlock Hq Hu)
    as [w0 [wl [Ht0 [Hd0 [Ha0 [Hq0 [Hloop Hdisk]]]]]]].
  exists w0, wl. split; [exact Ht0|]. split; [exact Ha0|].
  split; [split; [rewrite Ht0; exact Hu | congruence]|].
  split; [exact Hq0|]. split; [exact Hloop|]. split.
  - intros id r0 k Hent Hstamp. rewrite Hdisk.
    destruct (sub_days (clock E (clock_reads wl)) 14) as [cutoff|e] eqn:Hcut;
      [|exact Hent].
    eapply stamped_entry_survives; eauto.
  - intros id r0 Hent. rewrite Hdisk.
    destruct (sub_days (clock E (clock_reads wl)) 14) as [cutoff|e] eqn:Hcut;
      [|left; exact Hent].
    rewrite entries_delete, Hent. cbn [filter].
    destruct (negb (str_ltb (last_checked r0) (isoformat cutoff)));
      [left | right]; reflexivity.
Qed.

End QuietWholePass.

(* ===================================================================== *)
(** * Part III. The claims of the specification                           *)
(* ===================================================================== *)

Unset Implicit Arguments.

Lemma example_runtime_ok (pages : list (str * soup)) :
  runtime_ok (example_runtime pages).
Proof.
  constructor.
  - intros s H. reflexivity.
  - intros s H. reflexivity.
  - intros s H Hlen. simpl. unfold ascii_int. rewrite H.
    rewrite (proj2 (Nat.leb_le _ _) Hlen). reflexivity.
Qed.

Lemma occurs_ascii (R : Runtime) (HR : runtime_ok R) (kw title : str) :
  ascii_text kw = true -> ascii_text title = true ->
  occurs_ignoring_case kw title = contains (ascii_lower kw) (ascii_lower title).
Proof.
  intros Hk Ht. unfold occurs_ignoring_case.
  rewrite (lower_ascii HR) by exact Hk. rewrite (lower_ascii HR) by exact Ht.
  reflexivity.
Qed.

Lemma example_policy_well_formed : well_formed_policy example_policy.
Proof.
  split.
  - simpl. repeat constructor; simpl; intuition discriminate.
  - repeat constructor.
Qed.

Lemma example_policy_short : short_levels example_policy.
Proof. repeat constructor; vm_compute; discriminate. Qed.

(** C2, the claim as stated, fails: a level name may carry a number that
    [int] does not convert.  The policy below is well formed, with the one
    level [level11...1] (4301 digits) and the keyword "bike", and the title
    "bike" has that keyword; but sorting the levels raises [ValueError]
    inside the [try], and [apply_filters] answers [False]. *)
Lemma long_level_number_rejects :
  well_formed_policy long_level_policy
  /\ passes_policy (R := example_runtime []) long_level_policy (lit "bike")
  /\ apply_filters (R := example_runtime []) long_level_config example_source
       (lit "bike")
     = false.
Proof.
  split; [|split].
  - split.
    + simpl. constructor; [intros [] | constructor].
    + constructor; [vm_compute; reflexivity | constructor].
  - intros level kws [Heq | []] _. inversion Heq. subst.
    exists (lit "bike"). split; [left; reflexivity | vm_compute; reflexivity].
  - vm_compute. reflexivity.
Qed.

(** C2, amended.  [apply_filters] on a well-formed policy whose level
    numbers have at most 4300 digits: the title passes exactly when every
    level that has a keyword has one that occurs in the title as a
    substring, case ignored (a level without keywords asks nothing); on
    ASCII text, occurring with case ignored is being contained after both
    texts are put in lower case; a source without a policy entry passes
    every title; and for the policy [{level1: ["a","b"], level2: ["c"]}] the
    titles "xyz", "a" and "c" fail and "a c" passes. *)
Theorem apply_filters_and_across_levels
  (R : Runtime) (HR : runtime_ok R) (cfg : config) (source_url title : str) :
  (forall p : policy,
      dict_get (url_filters cfg) source_url = Some (policy_json p) ->
      well_formed_policy p ->
      short_levels p ->
      (apply_filters cfg source_url title = true <-> passes_policy p title))
  /\ (forall kw, ascii_text kw = true -> ascii_text title = true ->
                 occurs_ignoring_case kw title
                 = contains (ascii_lower kw) (ascii_lower title))
  /\ (dict_get (url_filters cfg) source_url = None ->
      apply_filters cfg source_url title = true)
  /\ (dict_get (url_filters cfg) source_url = Some (policy_json example_policy) ->
      map (apply_filters cfg source_url) [lit "xyz"; lit "a c"; lit "a"; lit "c"]
      = [false; true; false; false]).
Proof.
  assert (Hmain : forall (p : policy) (t : str),
             dict_get (url_filters cfg) source_url = Some (policy_json p) ->
             well_formed_policy p ->
             short_levels p ->
             (apply_filters cfg source_url t = true <-> passes_policy p t)).
  { intros p t Hget Hwf Hshort. rewrite apply_filters_unfold, Hget. unfold policy_json.
    destruct p as [|kv p].
    - simpl. split; [|reflexivity]. intros _ level kws [].
    - cbn [map]. rewrite <- (well_formed_policy_verdict HR t Hwf Hshort). cbn [map].
      reflexivity. }
  split; [intros p; apply Hmain|]. split; [intros kw; apply (occurs_ascii R HR)|]. split.
  - intros Hget. rewrite apply_filters_unfold, Hget. reflexivity.
  - intros Hget.
    pose proof (fun t => Hmain example_policy t Hget example_policy_well_formed
                           example_policy_short) as Hp.
    assert (Hno : forall t, ~ passes_policy example_policy t ->
                            apply_filters cfg source_url t = false).
    { intros t Hn. destruct (apply_filters cfg source_url t) eqn:Ht; [|reflexivity].
      exfalso. apply Hn. apply Hp. exact Ht. }
    cbn [map]. repeat f_equal.
    + apply Hno. intros H.
      destruct (H (lit "level1") [lit "a"; lit "b"]) as [kw [Hin Hocc]];
        [left; reflexivity | discriminate |].
      destruct Hin as [<- | [<- | []]];
        rewrite (occurs_ascii R HR) in Hocc by reflexivity; discriminate.
    + apply Hp. intros level kws Hin _.
      destruct Hin as [Heq | [Heq | []]]; inversion Heq; subst.
      * exists (lit "a"). split; [left; reflexivity|].
        rewrite (occurs_ascii R HR) by reflexivity. reflexivity.
      * exists (lit "c"). split; [left; reflexivity|].
        rewrite (occurs_ascii R HR) by reflexivity. reflexivity.
    + apply Hno. intros H.
      destruct (H (lit "level2") [lit "c"]) as [kw [Hin Hocc]];
        [right; left; reflexivity | discriminate |].
      destruct Hin as [<- | []].
      rewrite (occurs_ascii R HR) in Hocc by reflexivity. discriminate.
    + apply Hno. intros H.
      destruct (H (lit "level1") [lit "a"; lit "b"]) as [kw [Hin Hocc]];
        [left; reflexivity | discriminate |].
      destruct Hin as [<- | [<- | []]];
        rewrite (occurs_ascii R HR) in Hocc by reflexivity; discriminate.
Qed.

Lemma apply_filters_and_across_levels_witness :
  runtime_ok (example_runtime [])
  /\ map (apply_filters (R := example_runtime []) example_config example_source)
       [lit "xyz"; lit "a c"; lit "a"; lit "c"]
     = [false; true; false; false].
Proof.
  split; [apply example_runtime_ok|].
  destruct (apply_filters_and_across_levels (example_runtime [])
              (example_runtime_ok []) example_config example_source [])
    as [_ [_ [_ H]]].
  apply H. reflexivity.
Defined.

(** C3, the claim as stated, fails: a keyword entry that is not a string
    does constrain.  With the policy [{level1: [5, "bike"]}] the title
    "red bike" is rejected, although it passes once the number is taken
    out. *)
Lemma non_string_keyword_rejects :
  apply_filters (R := example_runtime []) number_in_level_config
    example_source (lit "red bike") = false
  /\ apply_filters (R := example_runtime []) (sanitize number_in_level_config)
       example_source (lit "red bike") = true.
Proof. split; reflexivity. Qed.

(** C3, amended.  A policy that is not a mapping lets every title pass.
    In a mapping whose level numbers convert, only levels whose value is a
    non-empty list ask something (a value that is no list asks nothing),
    and such a level is met exactly when a string keyword occurs in the
    title and every entry before it in the list is a string: an entry that
    is not a string, reached before a keyword that occurs, rejects the
    title.  A level number that does not convert rejects every title. *)
Theorem malformed_policy_pieces
  (R : Runtime) (cfg : config) (source_url title : str) :
  (forall v, dict_get (url_filters cfg) source_url = Some v ->
             (forall d, v <> JDict d) ->
             apply_filters cfg source_url title = true)
  /\ (forall d, dict_get (url_filters cfg) source_url = Some (JDict d) ->
                levels_convert d = true ->
                (apply_filters cfg source_url title = true
                 <-> forall level keywords,
                       In level (keys d) -> is_level_key level = true ->
                       dict_get d level = Some (JList keywords) -> keywords <> [] ->
                       exists pre kw post,
                         keywords = map JStr pre ++ JStr kw :: post
                         /\ contains (lower kw) (lower title) = true))
  /\ (forall d, dict_get (url_filters cfg) source_url = Some (JDict d) ->
                d <> [] -> levels_convert d = false ->
                apply_filters cfg source_url title = false).
Proof.
  split; [|split].
  - intros v Hget Hv. rewrite apply_filters_unfold, Hget.
    destruct v as [| b | n | x | s | l | d]; try reflexivity.
    exfalso. apply (Hv d). reflexivity.
  - intros d Hget Hconv. rewrite apply_filters_unfold, Hget.
    destruct d as [|kv d'].
    + split; [|reflexivity]. intros _ level keywords [].
    + remember (kv :: d') as d eqn:Hd. rewrite Hconv. cbn [andb].
      rewrite forallb_forall. split.
      * intros H level keywords Hin Hlevel Hval Hne.
        assert (Hk : In level (level_keys_of d)).
        { unfold level_keys_of. apply filter_In. auto. }
        specialize (H level Hk). rewrite level_passes_true in H.
        apply (H keywords); assumption.
      * intros H level Hk. unfold level_keys_of in Hk. apply filter_In in Hk.
        destruct Hk as [Hin Hlevel]. apply level_passes_true.
        intros keywords Hval Hne. apply (H level keywords); assumption.
  - intros d Hget Hne Hconv. rewrite apply_filters_unfold, Hget.
    destruct d as [|kv d']; [congruence|]. rewrite Hconv. reflexivity.
Qed.

Lemma malformed_policy_pieces_witness :
  apply_filters (R := example_runtime []) level_not_a_list_config
    example_source (lit "red sofa") = true.
Proof.
  destruct (malformed_policy_pieces (example_runtime []) level_not_a_list_config
              example_source (lit "red sofa")) as [_ [H _]].
  apply (H [(lit "level1", JStr (lit "bike")); (lit "level2", JList [JStr (lit "red")])]).
  - reflexivity.
  - reflexivity.
  - intros level keywords Hin Hlevel Hval Hne.
    destruct Hin as [<- | [<- | []]].
    + discriminate Hval.
    + inversion Hval. subst. exists [], (lit "red"), []. split; reflexivity.
Defined.




(** C10.  Page-local deduplication comes before the acceptance check.
    Let [a] be the first listing anchor of the page, in document order,
    with its canonical link.  Every record extracted with that link comes
    from [a], which then has a title, a price and a price that passes the
    gate; so when [a] lacks a title or a price node or fails the currency
    gate, no record is produced for the link, whatever later anchors of the
    page with the same canonical link carry. *)
Theorem first_anchor_decides
  (R : Runtime) (cfg : config) (symbol content source_url : str)
  (parsed : soup) (earlier later : list node) (a : node) :
  currency cfg = JStr symbol ->
  html_parser content = Ok parsed ->
  filter is_listing_link (find_all_links parsed) = earlier ++ a :: later ->
  (forall x, In x earlier -> canonical_url x <> canonical_url a) ->
  (forall rec, In rec (extract_ad_details cfg content source_url) ->
               ad_link_url rec = canonical_url a ->
               rec = record_of a /\ accepted symbol a = true)
  /\ (accepted symbol a = false ->
      forall rec, In rec (extract_ad_details cfg content source_url) ->
                  ad_link_url rec <> canonical_url a).
Proof.
  intros Hc Hparsed Hsplit Hfirst.
  assert (Hmain : forall rec, In rec (extract_ad_details cfg content source_url) ->
                              ad_link_url rec = canonical_url a ->
                              rec = record_of a /\ accepted symbol a = true).
  { intros rec Hin Hurl.
    rewrite (extract_ad_details_spec cfg Hc), Hparsed in Hin.
    apply in_map_iff in Hin. destruct Hin as [b [<- Hb]].
    apply filter_In in Hb. destruct Hb as [Hb Hkept].
    unfold candidates in Hb. apply first_occurrences_split in Hb.
    destruct Hb as [_ [m1 [m2 [Hsplit' Hfirst']]]].
    assert (Heq : a = b).
    { apply (first_place_unique earlier later m1 m2); auto.
      - rewrite <- Hsplit. exact Hsplit'. }
    subst b. split; [reflexivity|].
    unfold kept in Hkept. apply andb_true_iff in Hkept. tauto. }
  split; [exact Hmain|].
  intros Hacc rec Hin Hurl. destruct (Hmain rec Hin Hurl) as [_ H]. congruence.
Qed.

Lemma first_anchor_decides_witness :
  extract_ad_details (R := example_runtime example_pages) open_config
    twice_content example_source = []
  /\ accepted (R := example_runtime example_pages) (lit "$")
       (listing_anchor (lit "/marketplace/item/7/?ref=search") (lit "Bike") (lit "$10"))
     = true
  /\ forall rec,
       In rec (extract_ad_details (R := example_runtime example_pages) open_config
                 twice_content example_source) ->
       ad_link_url rec <> lit "https://facebook.com/marketplace/item/7/".
Proof.
  split; [reflexivity|]. split; [reflexivity|].
  apply (first_anchor_decides (example_runtime example_pages) open_config
           (lit "$") twice_content example_source twice_page []
           [listing_anchor (lit "/marketplace/item/7/?ref=search")
              (lit "Bike") (lit "$10")]
           (bare_anchor (lit "/marketplace/item/7/"))).
  - reflexivity.
  - reflexivity.
  - reflexivity.
  - intros x [].
  - reflexivity.
Defined.

Lemma example_clock_within_retention : within_retention quiet_env 14.
Proof.
  split.
  - intros i. change (clock quiet_env i) with (example_clock i).
    pose proof (Z.mod_pos_bound (Z.of_nat i / 60) 60 ltac:(lia)) as Hm.
    pose proof (Z.mod_pos_bound (Z.of_nat i) 60 ltac:(lia)) as Hs.
    unfold example_clock, valid_datetime.
    cbn [year month day hour minute second microsecond].
    revert Hm Hs.
    generalize ((Z.of_nat i / 60) mod 60)%Z (Z.of_nat i mod 60)%Z.
    intros m s Hm Hs. lia.
  - intros i j cutoff.
    change (clock quiet_env i) with (example_clock i).
    change (clock quiet_env j) with (example_clock j).
    unfold example_clock.
    generalize ((Z.of_nat i / 60) mod 60)%Z (Z.of_nat i mod 60)%Z
               ((Z.of_nat j / 60) mod 60)%Z (Z.of_nat j mod 60)%Z.
    intros mi si mj sj Hcut. vm_compute in Hcut.
    inversion Hcut. subst cutoff. reflexivity.
Qed.

Lemma example_zone_converts (n : nat) (e : exn) :
  zone_converts quiet_env /\ zone_converts (faulty_env n e).
Proof.
  assert (H : forall i, exists pub,
                astimezone (example_clock i) 36000 = Ok pub).
  { intros i.
    pose proof (Z.mod_pos_bound (Z.of_nat i / 60) 60 ltac:(lia)) as Hm.
    pose proof (Z.mod_pos_bound (Z.of_nat i) 60 ltac:(lia)) as Hs.
    unfold example_clock. revert Hm Hs.
    generalize ((Z.of_nat i / 60) mod 60)%Z (Z.of_nat i mod 60)%Z.
    intros m s Hm Hs. unfold astimezone, plus_seconds.
    cbn [year month day hour minute second microsecond].
    destruct (Z.ltb_spec (12 * 3600 + m * 60 + s + 36000) 0) as [Hneg|_]; [lia|].
    destruct (Z.leb_spec 86400 (12 * 3600 + m * 60 + s + 36000)) as [Hbig|_]; [lia|].
    eexists. reflexivity. }
  split; intros i; apply H.
Qed.

(** C1.  A listing whose identity the ledger has.  One sighting of it
    ([process_ad], the listing not yet handled in the pass): whatever the
    database calls do, the identity keeps exactly one entry, the old one
    with at most [last_checked] changed, and the rows of all other
    identities are as they were; when the three calls succeed, the entry is
    the old row with [last_checked] set to the time read at this sighting,
    committed.  A whole run of [check_for_new_ads]: whatever the lock, the
    database calls, the pages and the clock do, the run leaves at most one
    entry for the identity, the old one with at most [last_checked]
    changed ([url], [title], [price] and [first_seen] are as before).  When
    the run gets the lock, no database call raises, the zone conversion
    succeeds and the run is shorter than the retention: if a source page
    sights the listing, the ledger ends with exactly one entry for it, the
    old row with [last_checked] set to a reading of the clock taken in the
    run; and every row whose identity no source page shows is left as it
    was, unless the pruning removes it. *)
Theorem resighting_updates_last_checked_only
  (R : Runtime) (cfg : config) (E : env) (w : world) (r : row) :
  unique_ids (disk w) ->
  In r (disk w) ->
  let w' := snd (check_for_new_ads cfg E w) in
  (forall (a : ad) (ws : world),
      unique_ids (txn ws) ->
      In r (txn ws) ->
      ad_id r = ad_hash a ->
      ~ In (ad_hash a) (added_ad_ids_this_run ws) ->
      let ws' := snd (process_ad E a ws) in
      let stamp := isoformat (clock E (clock_reads ws)) in
      (exists r', entries (ad_hash a) (txn ws') = [r']
                  /\ same_but_last_checked r r'
                  /\ (r' = r \/ r' = touch stamp r))
      /\ filter (fun x => negb (has_ad_id (ad_hash a) x)) (txn ws')
         = filter (fun x => negb (has_ad_id (ad_hash a) x)) (txn ws)
      /\ (disk ws' = disk ws \/ disk ws' = txn ws')
      /\ (db_fault E (db_calls ws) = None ->
          db_fault E (S (db_calls ws)) = None ->
          db_fault E (S (S (db_calls ws))) = None ->
          fst (process_ad E a ws) = Ok tt
          /\ (exists r', entries (ad_hash a) (disk ws') = [r']
                         /\ same_but_last_checked r r'
                         /\ last_checked r' = stamp)
          /\ disk ws' = txn ws'))
  /\ (entries (ad_id r) (disk w') = []
      \/ exists r', entries (ad_id r) (disk w') = [r'] /\ same_but_last_checked r r')
  /\ (job_lock w = false ->
      no_fault_from E (db_calls w) ->
      zone_converts E ->
      within_retention E 14 ->
      (forall a,
          first_sighting (ad_id r) (flat_map (sighted cfg E) (urls_to_monitor cfg))
          = Some a ->
          exists k,
            entries (ad_id r) (disk w') = [touch (isoformat (clock E k)) r])
      /\ (forall r2,
            In r2 (disk w) ->
            first_sighting (ad_id r2) (flat_map (sighted cfg E) (urls_to_monitor cfg))
            = None ->
            entries (ad_id r2) (disk w') = [r2] \/ entries (ad_id r2) (disk w') = [])).
Proof.
  intros Hu Hr. cbv zeta. split; [|split].
  - intros a ws Huniq Hin Hid Hnew.
    destruct (@process_ad_resighting E a ws r Huniq Hin Hid Hnew)
      as (Hone & Hothers & Hdisk & Hquiet).
    split; [exact Hone|]. split; [exact Hothers|]. split; [exact Hdisk|].
    intros H0 H1 H2. destruct (Hquiet H0 H1 H2) as (Hok & Hent & Hcommitted).
    split; [exact Hok|]. split; [|exact Hcommitted].
    exists (touch (isoformat (clock E (clock_reads ws))) r).
    split; [exact Hent|]. split; [|reflexivity].
    unfold same_but_last_checked. cbn. auto.
  - apply (@frame_only_entries (disk w) _ r); [|exact Hr].
    apply (@check_for_new_ads_frames R cfg E (disk w) Hu). reflexivity.
  - intros Hlock Hq Hzone Hret.
    destruct (@quiet_pass_result R cfg E Hzone w Hlock Hq Hu Hret)
      as [w0 [wl [Ht0 [Ha0 [Hs0 [Hq0 [Hloop [Hkeep Hrest]]]]]]]].
    destruct (@advances_sources R cfg E Hzone (urls_to_monitor cfg) w0 Hq0 Hs0)
      as [wl' [Hrun [_ [[_ Hdl] [_ [_ [_ [Hsame Htouch]]]]]]]].
    rewrite Hloop in Hrun. inversion Hrun. subst wl'. clear Hrun.
    split.
    + intros a Hfirst.
      assert (Hex : existing (ad_id r) r w0).
      { split.
        - rewrite Ht0. apply (@entries_unique (ad_id r) (disk w) r); auto.
        - rewrite Ha0. intros []. }
      destruct (Htouch (ad_id r) r a Hex Hfirst) as [k [Hent _]].
      exists k. apply (Hkeep (ad_id r) _ k); [rewrite Hdl; exact Hent | reflexivity].
    + intros r2 Hr2 Hnone.
      assert (Hex : existing (ad_id r2) r2 w0).
      { split.
        - rewrite Ht0. apply (@entries_unique (ad_id r2) (disk w) r2); auto.
        - rewrite Ha0. intros []. }
      destruct (Hsame (ad_id r2) r2 Hex Hnone) as [Hent _].
      apply (Hrest (ad_id r2) r2). rewrite Hdl. exact Hent.
Qed.

Lemma resighting_updates_last_checked_only_witness :
  exists k,
    entries (ad_id bike_row)
      (disk (snd (check_for_new_ads (R := example_runtime run_pages)
                    two_source_config quiet_env (world_with [bike_row]))))
    = [touch (isoformat (example_clock k)) bike_row].
Proof.
  destruct (resighting_updates_last_checked_only (example_runtime run_pages)
              two_source_config quiet_env (world_with [bike_row]) bike_row)
    as [_ [_ H]].
  - unfold unique_ids. simpl. repeat constructor. simpl. tauto.
  - left. reflexivity.
  - destruct (H eq_refl (fun k _ => eq_refl)
                (proj1 (example_zone_converts 0 ValueError))
                example_clock_within_retention) as [H1 _].
    apply (H1 bike_ad). reflexivity.
Defined.

(** C6, what the code does.  A database error on the update path is not
    caught per listing.  The ledger holds item 7 and the source page lists
    item 7 and then item 8.  When the [UPDATE] for item 7 raises
    [OperationalError] (the third call into sqlite3 of the pass), the
    exception leaves the loop over the ads: item 8 is never looked at and
    the pass ends without it, where the undisturbed pass adds it.  On the
    insert path the same error is caught for the one listing: with an empty
    ledger and the [INSERT] of item 7 raising, item 8 is still added. *)
Lemma update_error_abandons_rest_of_source :
  map ad_id (disk (snd (check_for_new_ads (R := example_runtime run_pages)
                          one_source_config (faulty_env 2 OperationalError)
                          (world_with [bike_row]))))
  = [id7]
  /\ log (snd (check_for_new_ads (R := example_runtime run_pages)
                 one_source_config (faulty_env 2 OperationalError)
                 (world_with [bike_row])))
     = [LogUrlError example_source OperationalError; LogPruned 0; LogFinished 0]
  /\ map ad_id (disk (snd (check_for_new_ads (R := example_runtime run_pages)
                             one_source_config quiet_env (world_with [bike_row]))))
     = [id7; id8]
  /\ map ad_id (disk (snd (check_for_new_ads (R := example_runtime run_pages)
                             one_source_config (faulty_env 2 OperationalError)
                             (world_with []))))
     = [id8].
Proof. repeat split; vm_compute; reflexivity. Qed.

(** C7, the claim as stated, fails: column [url] holds the link of the
    listing, not the source page.  In a pass over two sources that both
    list item 7, the ledger ends with one entry for it whose [url] is the
    canonical link of item 7; no entry has the first source in that
    column. *)
Lemma url_column_holds_listing_link :
  map (fun r => (ad_id r, url r))
      (disk (snd (check_for_new_ads (R := example_runtime run_pages)
                    two_source_config quiet_env (world_with []))))
  = [(id7, link7); (id8, link8)]
  /\ existsb (fun r => str_eqb (url r) example_source)
       (disk (snd (check_for_new_ads (R := example_runtime run_pages)
                     two_source_config quiet_env (world_with []))))
     = false.
Proof. split; vm_compute; reflexivity. Qed.

(** C7, amended.  In a run of [check_for_new_ads] that gets the lock, in
    which no database call raises, the conversion to the local zone
    succeeds and which is shorter than the retention, let [a] be the first sighting of a listing that the ledger does not
    have, taken over all source pages in their order.  The ledger ends
    with exactly one entry for its identity: the row made from [a] at the
    time it was first met, whose [url] column is the canonical link of the
    listing (the source page is not recorded).  Every sighting of the same
    canonical link, under whatever source, has that same identity. *)
Theorem one_entry_across_sources
  (R : Runtime) (cfg : config) (E : env) (w : world) (a : ad) :
  job_lock w = false ->
  no_fault_from E (db_calls w) ->
  zone_converts E ->
  within_retention E 14 ->
  unique_ids (disk w) ->
  entries (ad_hash a) (disk w) = [] ->
  first_sighting (ad_hash a) (flat_map (sighted cfg E) (urls_to_monitor cfg)) = Some a ->
  let w' := snd (check_for_new_ads cfg E w) in
  (exists k,
      entries (ad_hash a) (disk w')
      = [{| url := ad_link_url a; ad_id := ad_hash a; title := ad_title a;
            price := ad_price a; first_seen := isoformat (clock E k);
            last_checked := isoformat (clock E k) |}])
  /\ (forall x, In x (flat_map (sighted cfg E) (urls_to_monitor cfg)) ->
                ad_link_url x = ad_link_url a -> ad_hash x = ad_hash a).
Proof.
  intros Hlock Hq Hzone Hret Hu Hent Hfirst. cbv zeta. split.
  - destruct (@quiet_pass_result R cfg E Hzone w Hlock Hq Hu Hret)
      as [w0 [wl [Ht0 [Ha0 [Hs0 [Hq0 [Hloop [Hkeep _]]]]]]]].
    destruct (@advances_sources R cfg E Hzone (urls_to_monitor cfg) w0 Hq0 Hs0)
      as [wl' [Hrun [_ [[_ Hdl] [_ [_ [Hnew _]]]]]]].
    rewrite Hloop in Hrun. inversion Hrun. subst wl'. clear Hrun.
    assert (Habs : absent (ad_hash a) w0).
    { split; [rewrite Ht0; exact Hent | rewrite Ha0; intros []]. }
    destruct (Hnew (ad_hash a) a Habs Hfirst) as [k [Hk _]].
    exists k. apply (Hkeep (ad_hash a) _ k); [rewrite Hdl; exact Hk | reflexivity].
  - intros x Hx Hlink.
    assert (Hid : forall y, In y (flat_map (sighted cfg E) (urls_to_monitor cfg)) ->
                            ad_hash y = get_ads_hash (ad_link_url y)).
    { intros y Hy. apply in_flat_map in Hy. destruct Hy as [s [_ Hy]].
      apply (@sighted_identity R cfg E s). exact Hy. }
    apply first_sighting_hash in Hfirst. destruct Hfirst as [_ Ha].
    rewrite (Hid x Hx), (Hid a Ha), Hlink. reflexivity.
Qed.

Lemma one_entry_across_sources_witness :
  exists k,
    entries id7
      (disk (snd (check_for_new_ads (R := example_runtime run_pages)
                    two_source_config quiet_env (world_with []))))
    = [{| url := link7; ad_id := id7; title := lit "Bike"; price := lit "$10";
          first_seen := isoformat (example_clock k);
          last_checked := isoformat (example_clock k) |}].
Proof.
  destruct (one_entry_across_sources (example_runtime run_pages) two_source_config
              quiet_env (world_with []) bike_ad) as [H _].
  - reflexivity.
  - intros k _. reflexivity.
  - exact (proj1 (example_zone_converts 0 ValueError)).
  - exact example_clock_within_retention.
  - constructor.
  - reflexivity.
  - reflexivity.
  - exact H.
Defined.

(** C8, the claim as stated, fails on what the operation returns:
    [prune_old_ads] returns nothing.  Here it deletes one of two entries;
    its result is [None], and the number of deleted entries is only read
    from [cursor.rowcount] and written to the log. *)
Lemma prune_returns_no_count :
  fst (prune_old_ads quiet_env 14 (world_with [old_row; bike_row])) = Ok tt
  /\ fst (delete_older quiet_env (lit "2024-05-06T12:00:00+00:00")
            (world_with [old_row; bike_row])) = Ok 1%nat
  /\ disk (snd (prune_old_ads quiet_env 14 (world_with [old_row; bike_row])))
     = [bike_row]
  /\ log (snd (prune_old_ads quiet_env 14 (world_with [old_row; bike_row])))
     = [LogPruned 1].
Proof. repeat split; vm_compute; reflexivity. Qed.

(** C8, amended.  [prune_old_ads], when its two database calls succeed,
    returns [None] and: with
    [cutoff] the time of the call less the retention, the ledger ends with
    exactly the entries whose [last_checked] does not sort before the
    text of [cutoff], committed; the number of deleted entries (the
    [rowcount] the [DELETE] returns, which the function logs) is the number
    of entries that did; and for an entry whose [last_checked] was written
    by [isoformat] from the instant [seen], the entry is kept exactly when
    [seen] is at or after [cutoff], removed exactly when it is strictly
    older. *)
Theorem prune_removes_strictly_older
  (E : env) (days_to_keep : nat) (w : world) (cutoff : datetime) :
  sub_days (clock E (clock_reads w)) days_to_keep = Ok cutoff ->
  db_fault E (db_calls w) = None ->
  db_fault E (S (db_calls w)) = None ->
  let w' := snd (prune_old_ads E days_to_keep w) in
  let older := fun r => str_ltb (last_checked r) (isoformat cutoff) in
  fst (prune_old_ads E days_to_keep w) = Ok tt
  /\ txn w' = filter (fun r => negb (older r)) (txn w)
  /\ disk w' = txn w'
  /\ fst (delete_older E (isoformat cutoff) w) = Ok (List.length (filter older (txn w)))
  /\ log w' = log w ++ [LogPruned (List.length (filter older (txn w)))]
  /\ (List.length (txn w') + List.length (filter older (txn w)) = List.length (txn w))%nat
  /\ (valid_datetime (clock E (clock_reads w)) ->
      forall r seen,
        In r (txn w) -> valid_datetime seen -> last_checked r = isoformat seen ->
        (In r (txn w') <-> dt_ltb seen cutoff = false)).
Proof.
  intros Hcut H0 H1. cbv zeta.
  assert (Hrun : prune_old_ads E days_to_keep w
                 = (Ok tt,
                    add_log (LogPruned (List.length (sql_deleted (isoformat cutoff) (txn w))))
                      (set_disk (sql_delete (isoformat cutoff) (txn w))
                         (count_db_call
                            (set_txn (sql_delete (isoformat cutoff) (txn w))
                               (count_db_call (count_clock_read w))))))).
  { unfold prune_old_ads, now, lift, delete_older, commit, log_msg, db_call.
    unfold try_except, bind, gets, modify, ret. cbn.
    rewrite Hcut. cbn. rewrite H0. cbn. rewrite H1. reflexivity. }
  rewrite Hrun. cbn [fst snd]. cbn.
  split; [reflexivity|]. split; [reflexivity|]. split; [reflexivity|].
  split.
  { unfold delete_older, db_call, bind, gets, modify, ret. cbn. rewrite H0. reflexivity. }
  split; [reflexivity|].
  split; [apply deleted_and_kept|].
  intros Hnow r seen Hin Hseen Hstamp.
  assert (Hvalid : valid_datetime cutoff) by exact (@sub_days_valid _ _ days_to_keep Hnow Hcut).
  fold (sql_delete (isoformat cutoff) (txn w)). rewrite sql_delete_In.
  rewrite Hstamp, isoformat_ltb by assumption. tauto.
Qed.

Lemma prune_removes_strictly_older_witness :
  disk (snd (prune_old_ads quiet_env 14 (world_with [old_row; bike_row]))) = [bike_row]
  /\ log (snd (prune_old_ads quiet_env 14 (world_with [old_row; bike_row])))
     = [LogPruned 1].
Proof.
  destruct (prune_removes_strictly_older quiet_env 14 (world_with [old_row; bike_row])
              {| year := 2024; month := 5; day := 6; hour := 12; minute := 0;
                 second := 0; microsecond := 0 |})
    as [_ [Htxn [Hdisk [_ [Hlog _]]]]].
  - reflexivity.
  - reflexivity.
  - reflexivity.
  - split.
    + rewrite Hdisk, Htxn. reflexivity.
    + rewrite Hlog. reflexivity.
Defined.

(** C5, the claim as stated, fails when the connection cannot be
    established: [generate_rss_feed_from_db] returns early and keeps the
    items the feed object holds, and the endpoint serves them.  Here
    [sqlite3.connect] raises [OperationalError] and the answer is the feed
    with the item left from before. *)
Lemma feed_keeps_items_without_connection :
  fst (rss (R := example_runtime []) (faulty_env 0 OperationalError)
         (world_with_feed [] [bike_item]))
  = Ok (FeedXml [bike_item] (example_clock 0)).
Proof. reflexivity. Qed.

(** C5, amended.  The feed build never raises.  When the connection cannot
    be established ([sqlite3.connect] raises a [sqlite3.Error]) it keeps
    the items the feed object already holds, and the endpoint serves those.
    When the connection is established and the read raises, the feed is
    emptied and the endpoint serves an empty feed.  When both succeed the
    items are computed from the committed rows of the last seven days, and
    whenever the connection is established the result does not depend on
    the items held before. *)
Theorem feed_build_on_store_failure (R : Runtime) (E : env) (w : world) :
  let w' := snd (generate_rss_feed_from_db E w) in
  fst (generate_rss_feed_from_db E w) = Ok tt
  /\ (forall e, db_fault E (db_calls w) = Some e -> is_sqlite_error e = true ->
        rss_items w' = rss_items w
        /\ (to_xml_raises E = false ->
            fst (rss E w) = Ok (FeedXml (rss_items w) (lastBuildDate w))))
  /\ (db_fault E (db_calls w) = None ->
      forall e, db_fault E (S (db_calls w)) = Some e ->
        rss_items w' = []
        /\ (to_xml_raises E = false ->
            fst (rss E w) = Ok (FeedXml [] (lastBuildDate w))))
  /\ (db_fault E (db_calls w) = None ->
      db_fault E (S (db_calls w)) = None ->
      forall relevant_period_start,
        sub_days (clock E (clock_reads w)) 7 = Ok relevant_period_start ->
        rss_items w'
        = flat_map (item_of_change E)
            (sql_recent (isoformat relevant_period_start) (disk w)))
  /\ (db_fault E (db_calls w) = None ->
      forall items,
        rss_items (snd (generate_rss_feed_from_db E (set_rss_items items w)))
        = rss_items w').
Proof.
  cbv zeta.
  unfold rss, generate_rss_feed_from_db, open_connection, get_db_connection,
    select_recent, now, lift, db_call.
  unfold try_finally, try_except, bind, gets, modify, raise, ret. cbn.
  destruct (db_fault E (db_calls w)) as [e0|] eqn:H0; cbn.
  - destruct (is_sqlite_error e0) eqn:Hsql; cbn.
    + split; [reflexivity|]. split.
      * intros e He Hs. split; [reflexivity|]. intros ->. reflexivity.
      * split; [intros H; discriminate|]. split; intros H; discriminate.
    + split; [reflexivity|]. split.
      * intros e He Hs. inversion He. subst. congruence.
      * split; [intros H; discriminate|]. split; intros H; discriminate.
  - destruct (sub_days (clock E (clock_reads w)) 7) as [start|e] eqn:Hsub; cbn.
    + destruct (db_fault E (S (db_calls w))) as [e1|] eqn:H1; cbn.
      * split; [reflexivity|]. split; [intros e He; discriminate|].
        split; [intros _ e He; split; [reflexivity | intros ->; reflexivity]|].
        split; [intros _ H; discriminate | intros _ items; reflexivity].
      * split; [reflexivity|]. split; [intros e He; discriminate|].
        split; [intros _ e He; discriminate|].
        split; [intros _ _ s Hs; inversion Hs; reflexivity | intros _ items; reflexivity].
    + split; [reflexivity|]. split; [intros e0 He; discriminate|].
      split.
      * intros _ e1 He1. split; [reflexivity | intros ->; reflexivity].
      * split; [intros _ _ s Hs; discriminate | intros _ items; reflexivity].
Qed.

Lemma feed_build_on_store_failure_witness :
  rss_items (snd (generate_rss_feed_from_db (R := example_runtime []) quiet_env
                    (world_with_feed [old_row; bike_row] [])))
  = [{| item_title := lit "Bike - $10"; link := link7;
        description := lit "Price: $10 | Title: Bike"; guid := id7;
        pubDate := {| wall := {| year := 2024; month := 5; day := 19; hour := 19;
                                 minute := 30; second := 0; microsecond := 0 |};
                      utcoffset_seconds := 36000 |} |}].
Proof.
  destruct (feed_build_on_store_failure (example_runtime []) quiet_env
              (world_with_feed [old_row; bike_row] [])) as [_ [_ [_ [H _]]]].
  rewrite (H eq_refl eq_refl
             {| year := 2024; month := 5; day := 13; hour := 12; minute := 0;
                second := 0; microsecond := 0 |} eq_refl).
  reflexivity.
Defined.

Lemma in_flight_is_counted (l : list phase) (i : nat) :
  nth_error l i = Some InFlight -> (1 <= count_in_flight l)%nat.
Proof.
  unfold count_in_flight. revert i.
  induction l as [|x l IH]; intros [|i] H; simpl in H; try discriminate.
  - inversion H. subst x. simpl. lia.
  - specialize (IH i H). simpl. destruct (in_flight x); simpl; lia.
Qed.

(** C9.  The run guard.  A trigger that finds the lock free takes it and
    runs the pass with the lock held; a trigger that finds the lock held
    returns at once: it logs that the job is already running and touches
    nothing else (no database call, no write).  The pass that holds the
    lock releases it at its end, however it ends.  Hence, however the steps
    of several triggers interleave from a state with the lock free: at most
    one pass is in flight, and the lock is held exactly while one is; while
    the lock is free any trigger can move, and the one that moves gets the
    lock and is in flight; while a pass is in flight a trigger that tests
    the lock is turned away, and the only other step is the end of that
    pass. *)
Theorem at_most_one_pass_in_flight (R : Runtime) (cfg : config) (E : env) :
  (forall w, job_lock w = true ->
             check_for_new_ads cfg E w = (Ok tt, add_log LogJobAlreadyRunning w))
  /\ (forall w, job_lock (snd (pass_locked cfg E w)) = false
                /\ (job_lock w = false ->
                    job_lock (snd (check_for_new_ads cfg E w)) = false))
  /\ (forall sys0 sys,
        initial sys0 -> job_steps cfg E sys0 sys ->
        (count_in_flight (jobs sys) <= 1)%nat
        /\ (job_lock (shared sys) = true <-> count_in_flight (jobs sys) = 1%nat)
        /\ (count_in_flight (jobs sys) = 1%nat ->
            try_acquire (shared sys) = (false, shared sys)
            /\ check_for_new_ads cfg E (shared sys)
               = (Ok tt, add_log LogJobAlreadyRunning (shared sys))))
  /\ (forall w, job_lock w = false ->
                try_acquire w = (true, set_job_lock true w)
                /\ check_for_new_ads cfg E w = pass_locked cfg E (set_job_lock true w))
  /\ (forall sys i,
        job_lock (shared sys) = false ->
        nth_error (jobs sys) i = Some Triggered ->
        job_step cfg E sys
          {| shared := set_job_lock true (shared sys);
             jobs := set_phase i InFlight (jobs sys) |})
  /\ (forall sys0 sys sys',
        initial sys0 -> job_steps cfg E sys0 sys -> job_step cfg E sys sys' ->
        (job_lock (shared sys) = false ->
         exists i,
           nth_error (jobs sys) i = Some Triggered
           /\ sys' = {| shared := set_job_lock true (shared sys);
                        jobs := set_phase i InFlight (jobs sys) |})
        /\ (job_lock (shared sys) = true ->
            (exists i,
                nth_error (jobs sys) i = Some Triggered
                /\ sys' = {| shared := add_log LogJobAlreadyRunning (shared sys);
                             jobs := set_phase i Turned_away (jobs sys) |})
            \/ (exists i,
                   nth_error (jobs sys) i = Some InFlight
                   /\ sys' = {| shared := snd (pass_locked cfg E (shared sys));
                                jobs := set_phase i Finished (jobs sys) |}))).
Proof.
  assert (Hheld : forall w, job_lock w = true ->
                    check_for_new_ads cfg E w = (Ok tt, add_log LogJobAlreadyRunning w)).
  { intros w Hl. unfold check_for_new_ads. rewrite try_acquire_held by exact Hl.
    reflexivity. }
  assert (Htracks : forall sys0 sys,
             initial sys0 -> job_steps cfg E sys0 sys -> lock_tracks_flight sys).
  { intros sys0 sys [Hfree Hall] Hsteps.
    apply (job_steps_keep_tracking Hsteps). right. split; [exact Hfree|].
    apply count_in_flight_initial. exact Hall. }
  split; [exact Hheld|]. split; [|split; [|split; [|split]]].
  - intros w. split; [apply pass_locked_releases|].
    intros Hl. unfold check_for_new_ads. rewrite try_acquire_free by exact Hl.
    apply pass_locked_releases.
  - intros sys0 sys Hinit Hsteps.
    destruct (Htracks sys0 sys Hinit Hsteps) as [[Hl Hc] | [Hl Hc]]; rewrite Hc.
    + split; [lia|]. split; [tauto|]. intros _.
      split; [apply try_acquire_held; exact Hl | apply Hheld; exact Hl].
    + split; [lia|]. split; [split; intros H; [congruence | discriminate]|].
      intros H; discriminate.
  - intros w Hl. split; [apply try_acquire_free; exact Hl|].
    unfold check_for_new_ads. rewrite try_acquire_free by exact Hl. reflexivity.
  - intros sys i Hl Hi. apply (step_acquire cfg E i sys); [exact Hi|].
    apply try_acquire_free. exact Hl.
  - intros sys0 sys sys' Hinit Hsteps Hstep.
    pose proof (Htracks sys0 sys Hinit Hsteps) as Hinv.
    destruct Hstep as [i sys w' Hi Hacq | i sys w' Hi Hacq | i sys Hi].
    + unfold try_acquire in Hacq.
      destruct (job_lock (shared sys)) eqn:Hl; [discriminate|].
      inversion Hacq. subst w'. split; [|intros H; discriminate].
      intros _. exists i. split; [exact Hi | reflexivity].
    + unfold try_acquire in Hacq.
      destruct (job_lock (shared sys)) eqn:Hl; [|discriminate].
      inversion Hacq. subst w'. split; [intros H; discriminate|].
      intros _. left. exists i. split; [exact Hi | reflexivity].
    + pose proof (in_flight_is_counted (jobs sys) i Hi) as Hcount.
      destruct Hinv as [[Hl Hc] | [Hl Hc]]; [|lia].
      split; [intros H; congruence|].
      intros _. right. exists i. split; [exact Hi | reflexivity].
Qed.

Lemma at_most_one_pass_in_flight_witness :
  check_for_new_ads (R := example_runtime run_pages) two_source_config quiet_env
    (set_job_lock true (world_with [bike_row]))
  = (Ok tt, add_log LogJobAlreadyRunning (set_job_lock true (world_with [bike_row])))
  /\ check_for_new_ads (R := example_runtime run_pages) two_source_config quiet_env
       (world_with [bike_row])
     = pass_locked (R := example_runtime run_pages) two_source_config quiet_env
         (set_job_lock true (world_with [bike_row]))
  /\ map ad_id
       (disk (snd (check_for_new_ads (R := example_runtime run_pages) two_source_config
                     quiet_env (world_with [bike_row]))))
     = [id7; id8].
Proof.
  destruct (at_most_one_pass_in_flight (example_runtime run_pages) two_source_config
              quiet_env) as [H [_ [_ [Hfree _]]]].
  split; [apply H; reflexivity|].
  split; [apply (Hfree (world_with [bike_row])); reflexivity|].
  vm_compute. reflexivity.
Defined.

(* ===================================================================== *)
(** * Part IV. Further properties of the program                          *)
(* ===================================================================== *)

(* --------------------------------------------------------------------- *)
(** ** Timestamps as text *)

Lemma lex_ltb_total (l1 l2 : list Z) :
  List.length l1 = List.length l2 ->
  lex_ltb l1 l2 = false -> lex_ltb l2 l1 = false -> l1 = l2.
Proof.
  revert l2. induction l1 as [|x l1 IH]; intros [|y l2] Hlen H1 H2;
    simpl in *; try discriminate; [reflexivity|].
  destruct (Z.ltb_spec x y) as [Hxy|Hxy]; [discriminate|].
  destruct (Z.ltb_spec y x) as [Hyx|Hyx]; [discriminate|].
  assert (x = y) by lia. subst y. rewrite Z.eqb_refl in *. simpl in *.
  f_equal. apply IH; [lia | assumption | assumption].
Qed.

Lemma dt_fields_inj (a b : datetime) : dt_fields a = dt_fields b -> a = b.
Proof.
  destruct a, b. unfold dt_fields. cbn. intros H. inversion H. reflexivity.
Qed.

(** X1.  The timestamps the program writes sort as text the way the
    instants sort in time: for two [datetime]s, comparing their
    [isoformat()] texts code point by code point (what [last_checked < ?]
    does in the [DELETE], on a TEXT column) is comparing the instants, with
    or without a microsecond part; and two instants with the same text are
    the same instant. *)
Theorem stamps_sort_as_instants (a b : datetime) :
  valid_datetime a -> valid_datetime b ->
  str_ltb (isoformat a) (isoformat b) = dt_ltb a b
  /\ (isoformat a = isoformat b -> a = b).
Proof.
  intros Ha Hb. split; [apply (@isoformat_ltb a b Ha Hb)|].
  intros Heq. apply dt_fields_inj. apply lex_ltb_total; [reflexivity| |].
  - change (dt_ltb a b = false). rewrite <- (@isoformat_ltb a b Ha Hb).
    rewrite Heq. apply str_ltb_irrefl.
  - change (dt_ltb b a = false). rewrite <- (@isoformat_ltb b a Hb Ha).
    rewrite Heq. apply str_ltb_irrefl.
Qed.

Lemma stamps_sort_as_instants_witness :
  str_ltb (isoformat (example_clock 0))
    (isoformat {| year := 2024; month := 5; day := 20; hour := 12; minute := 0;
                  second := 0; microsecond := 250000 |})
  = true.
Proof.
  destruct (stamps_sort_as_instants (example_clock 0)
              {| year := 2024; month := 5; day := 20; hour := 12; minute := 0;
                 second := 0; microsecond := 250000 |}) as [H _].
  - unfold valid_datetime. cbn. lia.
  - unfold valid_datetime. cbn. lia.
  - rewrite H. reflexivity.
Defined.

(* --------------------------------------------------------------------- *)
(** ** The records of a page *)

Section ExtractedLinks.

Context {R : Runtime}.
Variable cfg : config.

Lemma scan_links_distinct (source_url : str) (ad_links : list node) :
  forall (processed_urls : list str) (ads_found res : list ad),
    (forall x, In x ads_found -> In (ad_link_url x) processed_urls) ->
    NoDup (map ad_link_url ads_found) ->
    scan_links cfg source_url ad_links processed_urls ads_found = Ok res ->
    NoDup (map ad_link_url res).
Proof.
  induction ad_links as [|a rest IH]; intros processed_urls ads_found res Hsub Hnd Hrun.
  - simpl in Hrun. inversion Hrun. subst. exact Hnd.
  - cbn [scan_links] in Hrun.
    destruct (is_empty (href_of a) || negb (startswith (href_of a) (lit "/marketplace/item/")));
      [eapply IH; eassumption|].
    destruct (mem (full_url_of (href_of a)) processed_urls) eqn:Hmem;
      [eapply IH; eassumption|].
    apply mem_not_In in Hmem.
    assert (Hsub' : forall x, In x ads_found ->
                              In (ad_link_url x) (full_url_of (href_of a) :: processed_urls)).
    { intros x Hx. right. apply Hsub. exact Hx. }
    destruct (find_span title_style a); [|eapply IH; eassumption].
    destruct (find_span price_dir a); [|eapply IH; eassumption].
    destruct (price_format_ok cfg (get_text n0)) as [[|]|e];
      [|eapply IH; eassumption|discriminate].
    destruct (apply_filters cfg source_url (get_text n)); [|eapply IH; eassumption].
    eapply IH; [| |exact Hrun].
    + intros x Hx. apply in_app_or in Hx. destruct Hx as [Hx|[<-|[]]].
      * right. apply Hsub. exact Hx.
      * left. reflexivity.
    + rewrite map_app. simpl. apply NoDup_app.
      * exact Hnd.
      * repeat constructor. intros [].
      * intros u Hu [<-|[]]. apply Hmem. apply in_map_iff in Hu.
        destruct Hu as [x [<- Hx]]. apply Hsub. exact Hx.
Qed.

Lemma scan_links_shape (source_url : str) (ad_links : list node) :
  forall (processed_urls : list str) (ads_found res : list ad) (P : ad -> Prop),
    (forall href t p,
        startswith href (lit "/marketplace/item/") = true ->
        P (get_ads_hash (full_url_of href), t, p, full_url_of href)) ->
    Forall P ads_found ->
    scan_links cfg source_url ad_links processed_urls ads_found = Ok res ->
    Forall P res.
Proof.
  induction ad_links as [|a rest IH]; intros processed_urls ads_found res P HP Hall Hrun.
  - simpl in Hrun. inversion Hrun. subst. exact Hall.
  - cbn [scan_links] in Hrun.
    destruct (is_empty (href_of a)); cbn [orb] in Hrun; [eapply IH; eassumption|].
    destruct (startswith (href_of a) (lit "/marketplace/item/")) eqn:Hstart;
      cbn [negb] in Hrun; [|eapply IH; eassumption].
    destruct (mem (full_url_of (href_of a)) processed_urls);
      [eapply IH; eassumption|].
    destruct (find_span title_style a); [|eapply IH; eassumption].
    destruct (find_span price_dir a); [|eapply IH; eassumption].
    destruct (price_format_ok cfg (get_text n0)) as [[|]|e];
      [|eapply IH; eassumption|discriminate].
    destruct (apply_filters cfg source_url (get_text n)); [|eapply IH; eassumption].
    eapply IH; [exact HP| |exact Hrun].
    apply Forall_app. split; [exact Hall|]. constructor; [|constructor].
    apply HP. exact Hstart.
Qed.

End ExtractedLinks.

Lemma startswith_app_same (l s p : str) :
  startswith (l ++ s) (l ++ p) = startswith s p.
Proof.
  induction l as [|c l IH]; simpl; [reflexivity|].
  rewrite N.eqb_refl. exact IH.
Qed.

Lemma startswith_before (sep : N) (p s : str) :
  ~ In sep p -> startswith s p = true -> startswith (before sep s) p = true.
Proof.
  revert s. induction p as [|c p IH]; intros s Hsep H;
    [destruct (before sep s); reflexivity|].
  destruct s as [|d s]; [discriminate|]. simpl in H.
  apply andb_true_iff in H. destruct H as [Hcd Hrest].
  apply N.eqb_eq in Hcd. subst d. simpl.
  destruct (N.eqb_spec c sep) as [Heq|Hne].
  - exfalso. apply Hsep. left. exact Heq.
  - simpl. rewrite N.eqb_refl. simpl. apply IH; [|exact Hrest].
    intros Hin. apply Hsep. right. exact Hin.
Qed.

Lemma before_free (sep : N) (s : str) : ~ In sep (before sep s).
Proof.
  induction s as [|c s IH]; simpl; [intros []|].
  destruct (N.eqb_spec c sep) as [Heq|Hne]; [intros []|].
  intros [H|H]; [exact (Hne H) | exact (IH H)].
Qed.

(** X2.  Within one page no listing is recorded twice: the links of the
    records [extract_ad_details] returns are pairwise distinct, whatever the
    markup, the filters and the currency setting are. *)
Theorem extracted_links_are_distinct
  (R : Runtime) (cfg : config) (content source_url : str) :
  NoDup (map ad_link_url (extract_ad_details cfg content source_url)).
Proof.
  unfold extract_ad_details.
  destruct (html_parser content) as [parsed|e]; [|constructor].
  destruct (scan_links cfg source_url (find_all_links parsed) [] []) as [res|e] eqn:Hrun;
    [|constructor].
  apply (@scan_links_distinct R cfg source_url (find_all_links parsed) [] [] res);
    [intros x [] | constructor | exact Hrun].
Qed.

(** X3.  Every record [extract_ad_details] returns carries a normalized
    link: it starts with [https://facebook.com/marketplace/item/], holds no
    question mark (the query part of the [href] is cut off), and the
    record's identity is the digest of exactly that link. *)
Theorem extracted_links_are_normalized
  (R : Runtime) (cfg : config) (content source_url : str) (x : ad) :
  In x (extract_ad_details cfg content source_url) ->
  startswith (ad_link_url x) (lit "https://facebook.com/marketplace/item/") = true
  /\ ~ In 63%N (ad_link_url x)
  /\ ad_hash x = get_ads_hash (ad_link_url x).
Proof.
  intros Hin. unfold extract_ad_details in Hin.
  destruct (html_parser content) as [parsed|e]; [|contradiction].
  destruct (scan_links cfg source_url (find_all_links parsed) [] []) as [res|e] eqn:Hrun;
    [|contradiction].
  pose proof (@scan_links_shape R cfg source_url (find_all_links parsed) [] [] res
                (fun x =>
                   startswith (ad_link_url x)
                     (lit "https://facebook.com/marketplace/item/") = true
                   /\ ~ In 63%N (ad_link_url x)
                   /\ ad_hash x = get_ads_hash (ad_link_url x))) as Hshape.
  cbv beta in Hshape.
  refine (proj1 (Forall_forall _ res) (Hshape _ (Forall_nil _) Hrun) x Hin).
  intros href t p Hstart. unfold ad_link_url, ad_hash, full_url_of. cbn [fst snd].
  split; [|split; [|reflexivity]].
  - change (lit "https://facebook.com/marketplace/item/")
      with (FACEBOOK_BASE_URL ++ lit "/marketplace/item/").
    rewrite startswith_app_same. apply startswith_before; [|exact Hstart].
    vm_compute. intros H. repeat (destruct H as [H|H]; [discriminate|]). exact H.
  - intros H. apply in_app_or in H. destruct H as [H|H].
    + revert H. vm_compute. intros H.
      repeat (destruct H as [H|H]; [discriminate|]). exact H.
    + exact (before_free 63 href H).
Qed.

Lemma extracted_links_are_normalized_witness :
  startswith link7 (lit "https://facebook.com/marketplace/item/") = true
  /\ ~ In 63%N link7
  /\ id7 = get_ads_hash (R := example_runtime run_pages) link7.
Proof.
  apply (extracted_links_are_normalized (example_runtime run_pages) one_source_config
           bikes_content example_source bike_ad).
  vm_compute. left. reflexivity.
Defined.

(* --------------------------------------------------------------------- *)
(** ** The order of the levels in the configuration *)

Lemma dict_get_permutation (d d' : dict) (k : str) :
  NoDup (keys d) -> Permutation d d' -> dict_get d k = dict_get d' k.
Proof.
  intros Hnd Hp.
  assert (Hnd' : NoDup (keys d')).
  { unfold keys. apply (Permutation_NoDup (l := map fst d)); [|exact Hnd].
    apply Permutation_map. exact Hp. }
  destruct (dict_get d k) as [v|] eqn:Hd.
  - symmetry. apply In_dict_get; [exact Hnd'|].
    apply (Permutation_in (l := d)); [exact Hp|]. apply dict_get_In. exact Hd.
  - destruct (dict_get d' k) as [v|] eqn:Hd'; [|reflexivity].
    rewrite <- Hd. apply In_dict_get; [exact Hnd|].
    apply (Permutation_in (l := d')); [apply Permutation_sym; exact Hp|].
    apply dict_get_In. exact Hd'.
Qed.

Lemma level_keys_permutation (R : Runtime) (d d' : dict) (k : str) :
  Permutation d d' -> (In k (level_keys_of d) <-> In k (level_keys_of d')).
Proof.
  intros Hp. unfold level_keys_of, keys. rewrite !filter_In.
  assert (H : In k (map fst d) <-> In k (map fst d')).
  { split; apply Permutation_in; [|apply Permutation_sym]; apply Permutation_map; exact Hp. }
  tauto.
Qed.

Lemma forallb_pointwise (A : Type) (f g : A -> bool) (l : list A) :
  (forall x, f x = g x) -> forallb f l = forallb g l.
Proof.
  intros H. induction l as [|x l IH]; simpl; [reflexivity|]. rewrite H, IH. reflexivity.
Qed.

(** X4.  The verdict of [apply_filters] does not depend on the order in
    which the levels of a source are written in the configuration: two
    configurations whose policies for the source have the same entries
    (a JSON object, so no key twice) in any order accept the same titles. *)
Theorem level_order_is_immaterial
  (R : Runtime) (cfg cfg' : config) (source_url title : str) (d d' : dict) :
  dict_get (url_filters cfg) source_url = Some (JDict d) ->
  dict_get (url_filters cfg') source_url = Some (JDict d') ->
  NoDup (keys d) ->
  Permutation d d' ->
  apply_filters cfg source_url title = apply_filters cfg' source_url title.
Proof.
  intros Hd Hd' Hnd Hp.
  rewrite !apply_filters_unfold. rewrite Hd, Hd'.
  destruct d as [|x d0]; destruct d' as [|x' d0'].
  - reflexivity.
  - apply Permutation_nil in Hp. discriminate.
  - apply Permutation_sym, Permutation_nil in Hp. discriminate.
  - set (d := x :: d0) in *. set (d' := x' :: d0') in *.
    f_equal.
    + unfold levels_convert. apply forallb_same_elements.
      intros k. apply level_keys_permutation. exact Hp.
    + rewrite (forallb_same_elements _ (level_keys_of d) (level_keys_of d'))
        by (intros k; apply level_keys_permutation; exact Hp).
      apply forallb_pointwise. intros k.
      rewrite (dict_get_permutation d d' k Hnd Hp). reflexivity.
Qed.

Lemma level_order_is_immaterial_witness :
  map (apply_filters (R := example_runtime []) reordered_config example_source)
    [lit "xyz"; lit "a c"; lit "a"; lit "c"]
  = map (apply_filters (R := example_runtime []) example_config example_source)
      [lit "xyz"; lit "a c"; lit "a"; lit "c"].
Proof.
  apply map_ext. intros title. symmetry.
  apply (level_order_is_immaterial (example_runtime []) example_config reordered_config
           example_source title
           [(lit "level1", JList [JStr (lit "a"); JStr (lit "b")]);
            (lit "level2", JList [JStr (lit "c")])]
           [(lit "level2", JList [JStr (lit "c")]);
            (lit "level1", JList [JStr (lit "a"); JStr (lit "b")])]).
  - reflexivity.
  - reflexivity.
  - unfold keys. simpl. constructor.
    + intros [H|[]]. vm_compute in H. discriminate.
    + constructor; [intros []|constructor].
  - apply perm_swap.
Defined.

(* --------------------------------------------------------------------- *)
(** ** One source does not stop the others *)

Section Sources.

Context {R : Runtime}.
Variable cfg : config.
Variable E : env.

Lemma process_url_returns (source_url : str) (w : world) :
  fst (process_url cfg E source_url w) = Ok tt.
Proof.
  unfold process_url, try_except.
  match goal with
  | |- context [match ?b w with _ => _ end] => destruct (b w) as [[[]|e] w1]
  end; reflexivity.
Qed.

Lemma sources_return (urls : list str) (w : world) :
  fst (for_each (process_url cfg E) urls w) = Ok tt.
Proof.
  revert w. induction urls as [|u urls IH]; intros w; [reflexivity|].
  cbn [for_each]. unfold bind. pose proof (process_url_returns u w) as Hu.
  destruct (process_url cfg E u w) as [[[]|e] w1]; cbn in Hu; [apply IH | discriminate].
Qed.

Lemma sources_app (urls1 urls2 : list str) (w : world) :
  for_each (process_url cfg E) (urls1 ++ urls2) w
  = for_each (process_url cfg E) urls2 (snd (for_each (process_url cfg E) urls1 w)).
Proof.
  revert w. induction urls1 as [|u urls1 IH]; intros w; [reflexivity|].
  cbn [for_each app]. unfold bind. pose proof (process_url_returns u w) as Hu.
  destruct (process_url cfg E u w) as [[[]|e] w1]; cbn in Hu; [apply IH | discriminate].
Qed.

End Sources.

(** X5.  A source cannot stop the pass: whatever the driver, the page and
    the database calls do while a source is processed (failures included),
    the loop over the sources does not raise, and the sources after it are
    processed from the state it left. *)
Theorem sources_are_isolated
  (R : Runtime) (cfg : config) (E : env) (urls1 urls2 : list str) (w : world) :
  fst (for_each (process_url cfg E) (urls1 ++ urls2) w) = Ok tt
  /\ for_each (process_url cfg E) (urls1 ++ urls2) w
     = for_each (process_url cfg E) urls2
         (snd (for_each (process_url cfg E) urls1 w)).
Proof.
  split; [apply sources_return | apply sources_app].
Qed.

(* --------------------------------------------------------------------- *)
(** ** What a pass pushes to the live feed *)

Lemma sql_update_keeps_others (stamp id : str) (t : table) (r : row) :
  ad_id r <> id -> In r t -> In r (sql_update stamp id t).
Proof.
  intros Hne Hin. unfold sql_update. apply in_map_iff. exists r.
  split; [|exact Hin].
  assert (H : has_ad_id id r = false) by (apply has_ad_id_false; exact Hne).
  rewrite H. reflexivity.
Qed.

Lemma maintains_for_each_in (A : Type) (I : world -> Prop) (f : A -> M unit)
  (l : list A) :
  (forall x, In x l -> maintains I (f x)) -> maintains I (for_each f l).
Proof.
  induction l as [|x l IH]; intros Hf; simpl.
  - apply maintains_ret.
  - apply maintains_bind; [apply Hf; left; reflexivity|].
    intros _. apply IH. intros y Hy. apply Hf. right. exact Hy.
Qed.

Section Announced.

Context {R : Runtime}.
Variable cfg : config.
Variable E : env.
Variable P : ad -> Prop.
Variable old : list rss_item.

(** A step that leaves the feed object and the pass's local variables
    alone, and the rows of the identities handled in the pass in place. *)
Lemma announced_step (w w' : world) :
  rss_items w' = rss_items w ->
  added_ad_ids_this_run w' = added_ad_ids_this_run w ->
  new_ads_added_count w' = new_ads_added_count w ->
  (forall r, In (ad_id r) (added_ad_ids_this_run w) ->
             In r (disk w) -> In r (txn w) -> In r (disk w') /\ In r (txn w')) ->
  announced E P old w -> announced E P old w'.
Proof.
  intros Hitems Hadded Hcount Hrows (new_items & H1 & H2 & H3 & H4 & H5).
  exists new_items. rewrite Hitems, Hadded, Hcount.
  split; [exact H1|]. split; [exact H2|]. split; [exact H3|]. split; [exact H4|].
  intros it Hit. destruct (H5 it Hit) as (a & k & Ha & Hpub & Hform & Hd & Ht).
  exists a, k. split; [exact Ha|]. split; [exact Hpub|]. split; [exact Hform|].
  apply Hrows; [|exact Hd|exact Ht].
  rewrite <- H2. apply in_map_iff. exists it. split; [|exact Hit].
  rewrite Hform. reflexivity.
Qed.

Lemma pending_step (id : str) (w w' : world) :
  rss_items w' = rss_items w ->
  added_ad_ids_this_run w' = added_ad_ids_this_run w ->
  new_ads_added_count w' = new_ads_added_count w ->
  (forall r, In (ad_id r) (added_ad_ids_this_run w) ->
             In r (disk w) -> In r (txn w) -> In r (disk w') /\ In r (txn w')) ->
  pending E P old id w -> pending E P old id w'.
Proof.
  intros Hitems Hadded Hcount Hrows [HJ Hid]. split.
  - apply (announced_step w w'); assumption.
  - rewrite Hadded. exact Hid.
Qed.

Lemma pending_db_call (id : str) : maintains (pending E P old id) (db_call E).
Proof.
  apply maintains_db_call. intros w H.
  apply (pending_step id w); try reflexivity; [|exact H]. intros r _ Hd Ht. split; assumption.
Qed.

Lemma pending_log (id : str) (ev : log_event) :
  maintains (pending E P old id) (log_msg ev).
Proof.
  apply maintains_log. intros w H.
  apply (pending_step id w); try reflexivity; [|exact H]. intros r _ Hd Ht. split; assumption.
Qed.

Lemma pending_now (id : str) : maintains (pending E P old id) (now E).
Proof.
  apply maintains_now. intros w H.
  apply (pending_step id w); try reflexivity; [|exact H]. intros r _ Hd Ht. split; assumption.
Qed.

Lemma pending_update (stamp id : str) :
  maintains (pending E P old id) (update_last_checked E stamp id).
Proof.
  unfold update_last_checked.
  apply maintains_bind; [apply pending_db_call|]. intros _.
  apply maintains_modify. intros w H.
  apply (pending_step id w); try reflexivity; [|exact H].
  intros r Hr Hd Ht. split; [exact Hd|]. cbn.
  apply sql_update_keeps_others; [|exact Ht].
  intros Heq. apply (proj2 H). rewrite <- Heq. exact Hr.
Qed.

Lemma pending_commit (id : str) : maintains (pending E P old id) (commit E).
Proof.
  unfold commit. apply maintains_bind; [apply pending_db_call|]. intros _.
  apply maintains_modify. intros w H.
  apply (pending_step id w); try reflexivity; [|exact H].
  intros r _ Hd Ht. split; exact Ht.
Qed.

Lemma pending_rollback (id : str) : maintains (pending E P old id) (rollback E).
Proof.
  unfold rollback. apply maintains_bind; [apply pending_db_call|]. intros _.
  apply maintains_modify. intros w H.
  apply (pending_step id w); try reflexivity; [|exact H].
  intros r _ Hd Ht. split; exact Hd.
Qed.

(** The insert path: the item is pushed and the identity marked only after
    the [INSERT] and its [commit] went through. *)
Lemma announced_insert_path (id t p u : str) (k : nat) (pub : local_datetime) :
  P (id, t, p, u) ->
  local_time E (clock E k) = Ok pub ->
  hoare (pending E P old id)
    (insert_ad E {| url := u; ad_id := id; title := t; price := p;
                    first_seen := isoformat (clock E k);
                    last_checked := isoformat (clock E k) |} ;;
     commit E ;;
     modify (fun w => set_rss_items (new_rss_item t p u id pub :: rss_items w) w) ;;
     modify (fun w => set_added (id :: added_ad_ids_this_run w) w) ;;
     modify (fun w => set_new_count (S (new_ads_added_count w)) w))
    (fun r w => match r with
                | Ok _ => announced E P old w
                | Raise _ => pending E P old id w
                end).
Proof.
  intros HP Hpub w H.
  unfold insert_ad, commit, db_call, bind, gets, modify, raise. cbn.
  destruct (db_fault E (db_calls w)) as [e|]; cbn.
  { apply (pending_step id w); try reflexivity; [|exact H].
    intros r _ Hd Ht. split; assumption. }
  destruct (existsb (has_ad_id id) (txn w)); cbn.
  { apply (pending_step id w); try reflexivity; [|exact H].
    intros r _ Hd Ht. split; assumption. }
  destruct (db_fault E (S (db_calls w))) as [e|]; cbn.
  { apply (pending_step id w); try reflexivity; [|exact H].
    intros r _ Hd Ht. split; [exact Hd|]. cbn. apply in_or_app. left. exact Ht. }
  destruct H as [(new_items & H1 & H2 & H3 & H4 & H5) Hid].
  exists (new_rss_item t p u id pub :: new_items). cbn.
  split; [rewrite H1; reflexivity|]. split; [rewrite H2; reflexivity|].
  split; [rewrite H3; reflexivity|]. split; [constructor; assumption|].
  intros it [<-|Hit].
  - exists (id, t, p, u), k. split; [exact HP|]. split; [exact Hpub|].
    split; [reflexivity|].
    split; apply in_or_app; right; left; reflexivity.
  - destruct (H5 it Hit) as (a & k' & Ha & Hpub' & Hform & Hd & Ht).
    exists a, k'. split; [exact Ha|]. split; [exact Hpub'|]. split; [exact Hform|].
    split; apply in_or_app; left; exact Ht.
Qed.

(** What [process_ad] does after the time [clock E k] was read. *)
Lemma announced_after_now (id t p u : str) (existing_ad : bool) (k : nat) :
  P (id, t, p, u) ->
  hoare (pending E P old id)
    (if existing_ad
     then update_last_checked E (isoformat (clock E k)) id ;; commit E
     else
       pubDate <- lift (local_time E (clock E k)) ;;
       try_except
         (insert_ad E {| url := u; ad_id := id; title := t; price := p;
                         first_seen := isoformat (clock E k);
                         last_checked := isoformat (clock E k) |} ;;
          commit E ;;
          modify (fun w => set_rss_items
                             (new_rss_item t p u id pubDate :: rss_items w) w) ;;
          modify (fun w => set_added (id :: added_ad_ids_this_run w) w) ;;
          modify (fun w => set_new_count (S (new_ads_added_count w)) w))
         (fun e =>
            if is_integrity_error e
            then log_msg (LogIntegrityError id) ;;
                 update_last_checked E (isoformat (clock E k)) id ;; commit E
            else if is_sqlite_error e
                 then log_msg (LogAdDbError id e) ;; rollback E
                 else raise e))
    (fun _ => announced E P old).
Proof.
  intros HP. destruct existing_ad.
  - apply hoare_consequence with (P' := pending E P old id)
                                 (Q' := fun _ => pending E P old id).
    + apply maintains_bind; [apply pending_update | intros _; apply pending_commit].
    + auto.
    + intros r w H. exact (proj1 H).
  - unfold lift, bind at 1.
    destruct (local_time E (clock E k)) as [pub|e0] eqn:Hpub;
      [|intros w H; exact (proj1 H)].
    apply (hoare_try_except
             (Q1 := fun r w => match r with
                               | Ok _ => announced E P old w
                               | Raise _ => pending E P old id w
                               end)).
    + apply announced_insert_path; [exact HP | exact Hpub].
    + intros a w H. exact H.
    + intros e.
      apply hoare_consequence with (P' := pending E P old id)
                                   (Q' := fun _ => pending E P old id).
      * destruct (is_integrity_error e).
        -- apply maintains_bind; [apply pending_log|]. intros _.
           apply maintains_bind; [apply pending_update | intros _; apply pending_commit].
        -- destruct (is_sqlite_error e).
           ++ apply maintains_bind; [apply pending_log | intros _; apply pending_rollback].
           ++ apply maintains_raise.
      * auto.
      * intros r w H. exact (proj1 H).
Qed.

Lemma announced_process_ad (x : ad) :
  P x -> maintains (announced E P old) (process_ad E x).
Proof.
  destruct x as [[[id t] p] u]. intros HP. unfold process_ad.
  apply (hoare_bind
           (Q1 := fun r w => announced E P old w
                             /\ forall added, r = Ok added -> added = added_ad_ids_this_run w)).
  - intros w H. cbn. split; [exact H|]. intros added Heq. inversion Heq. reflexivity.
  - intros added. destruct (mem id added) eqn:Hmem.
    + intros w [H _]. exact H.
    + apply mem_not_In in Hmem.
      apply hoare_consequence with (P' := pending E P old id)
                                   (Q' := fun _ => announced E P old).
      * unfold select_ad_id.
        apply (hoare_bind (Q1 := fun _ => pending E P old id)).
        -- apply maintains_bind; [apply pending_db_call | intros _; apply maintains_gets].
        -- intros existing_ad.
           apply (hoare_bind
                    (Q1 := fun r w => pending E P old id w
                                      /\ forall d, r = Ok d -> exists k, d = clock E k)).
           ++ intros w H. cbn. split.
              ** apply (pending_step id w); try reflexivity; [|exact H].
                 intros r _ Hd Ht. split; assumption.
              ** intros d Hd. inversion Hd. exists (clock_reads w). reflexivity.
           ++ intros now_utc w [Hpend Hk].
              destruct (Hk now_utc eq_refl) as [k Heq]. subst now_utc.
              apply (announced_after_now id t p u existing_ad k HP w Hpend).
           ++ intros e w H. exact (proj1 (proj1 H)).
        -- intros e w H. exact (proj1 H).
      * intros w [H Hadded]. split; [exact H|].
        rewrite <- (Hadded added eq_refl). exact Hmem.
      * auto.
  - intros e w [H _]. exact H.
Qed.

Lemma announced_process_url (source_url : str) :
  (forall x, In x (sighted cfg E source_url) -> P x) ->
  maintains (announced E P old) (process_url cfg E source_url).
Proof.
  intros HP. unfold process_url. unfold sighted in HP. apply maintains_try_except.
  - destruct (fetch E source_url) as [e | | content].
    + apply maintains_raise.
    + apply maintains_ret.
    + destruct (extract_ad_details cfg content source_url) as [|x l] eqn:Hads.
      * apply maintains_ret.
      * apply maintains_for_each_in. intros y Hy. apply announced_process_ad.
        apply HP. exact Hy.
  - intros e. apply maintains_log. intros w H.
    apply (announced_step w); try reflexivity; [|exact H].
    intros r _ Hd Ht. split; assumption.
Qed.

End Announced.

Lemma sources_announce
  (R : Runtime) (cfg : config) (E : env) (urls : list str) (w : world) :
  added_ad_ids_this_run w = [] ->
  new_ads_added_count w = 0%nat ->
  announced E (fun a => In a (flat_map (sighted cfg E) urls)) (rss_items w)
    (snd (for_each (process_url cfg E) urls w)).
Proof.
  intros Hadded Hcount.
  assert (Hstart : announced E (fun a => In a (flat_map (sighted cfg E) urls))
                     (rss_items w) w).
  { exists []. rewrite Hadded, Hcount. repeat split; try constructor. intros it []. }
  pose proof (@maintains_for_each_in str
                (announced E (fun a => In a (flat_map (sighted cfg E) urls)) (rss_items w))
                (process_url cfg E) urls) as Hloop.
  apply (Hloop
           (fun u Hu =>
              @announced_process_url R cfg E
                (fun a => In a (flat_map (sighted cfg E) urls)) (rss_items w) u
                (fun x Hx => proj2 (in_flat_map (sighted cfg E) urls x)
                               (ex_intro _ u (conj Hu Hx))))
           w Hstart).
Qed.

(** X6.  The live feed tells of nothing that is not in the ledger.  Take
    the loop of a pass over the sources, started with no identity handled
    and the counter at zero, whatever the database calls, the pages, the
    clock and the zone do.  It leaves the feed object with the items it
    held and, in front of them, one new item for each identity it marked as
    handled, the newest first; the counter is the number of these items and
    no two of them share a [guid].  Every new item was made from an ad that
    one of the source pages showed, at a reading of the clock: the item's
    [pubDate] is that reading in the local zone, and the committed ledger
    holds the row of that ad with [first_seen] and [last_checked] equal to
    the UTC text of that reading. *)
Theorem pushed_items_are_committed
  (R : Runtime) (cfg : config) (E : env) (urls : list str) (w : world) :
  added_ad_ids_this_run w = [] ->
  new_ads_added_count w = 0%nat ->
  let w' := snd (for_each (process_url cfg E) urls w) in
  exists new_items,
    rss_items w' = new_items ++ rss_items w
    /\ new_ads_added_count w' = List.length new_items
    /\ map guid new_items = added_ad_ids_this_run w'
    /\ NoDup (map guid new_items)
    /\ forall it, In it new_items ->
         exists a k,
           In a (flat_map (sighted cfg E) urls)
           /\ local_time E (clock E k) = Ok (pubDate it)
           /\ it = new_rss_item (ad_title a) (ad_price a) (ad_link_url a) (ad_hash a)
                     (pubDate it)
           /\ In (row_of_ad a (isoformat (clock E k))) (disk w').
Proof.
  intros Hadded Hcount. cbv zeta.
  destruct (sources_announce R cfg E urls w Hadded Hcount)
    as (new_items & H1 & H2 & H3 & H4 & H5).
  exists new_items.
  split; [exact H1|]. split; [exact H3|]. split; [exact H2|].
  split; [rewrite H2; exact H4|].
  intros it Hit. destruct (H5 it Hit) as (a & k & Ha & Hpub & Hform & Hd & _).
  exists a, k. split; [exact Ha|]. split; [exact Hpub|].
  split; [exact Hform | exact Hd].
Qed.

Lemma pushed_items_are_committed_witness :
  exists new_items,
    rss_items (snd (for_each (process_url (R := example_runtime run_pages)
                                two_source_config quiet_env)
                      [example_source; other_source] (world_with [])))
    = new_items ++ []
    /\ List.length new_items = 2%nat.
Proof.
  destruct (pushed_items_are_committed (example_runtime run_pages) two_source_config
              quiet_env [example_source; other_source] (world_with []))
    as (new_items & H1 & H2 & _).
  - reflexivity.
  - reflexivity.
  - exists new_items. split; [exact H1|]. rewrite <- H2. vm_compute. reflexivity.
Defined.

(* --------------------------------------------------------------------- *)
(** ** A pass that gets no connection *)

(** X7.  When [sqlite3.connect] raises a [sqlite3.Error], a pass that got
    the lock gives up at once: it returns normally, has made that one call
    into sqlite3 and none to the clock, leaves the ledger and the feed
    object as they were, logs that there is no connection, and releases the
    lock. *)
Theorem pass_without_connection
  (R : Runtime) (cfg : config) (E : env) (w : world) (e : exn) :
  job_lock w = false ->
  db_fault E (db_calls w) = Some e ->
  is_sqlite_error e = true ->
  let w' := snd (check_for_new_ads cfg E w) in
  fst (check_for_new_ads cfg E w) = Ok tt
  /\ disk w' = disk w /\ txn w' = txn w
  /\ rss_items w' = rss_items w /\ lastBuildDate w' = lastBuildDate w
  /\ log w' = log w ++ [LogNoConnection]
  /\ job_lock w' = false
  /\ db_calls w' = S (db_calls w) /\ clock_reads w' = clock_reads w.
Proof.
  intros Hlock Hfault Hsql. cbv zeta.
  unfold check_for_new_ads. rewrite try_acquire_free by exact Hlock.
  unfold pass_locked, pass_try, open_connection, get_db_connection, db_call, log_msg.
  unfold try_finally, try_except, bind, modify, ret, raise. cbn.
  rewrite Hfault. cbn. rewrite Hsql. cbn.
  repeat split; reflexivity.
Qed.

Lemma pass_without_connection_witness :
  log (snd (check_for_new_ads (R := example_runtime run_pages) two_source_config
              (faulty_env 0 OperationalError) (world_with [bike_row])))
  = [LogNoConnection]
  /\ disk (snd (check_for_new_ads (R := example_runtime run_pages) two_source_config
                  (faulty_env 0 OperationalError) (world_with [bike_row])))
     = [bike_row].
Proof.
  destruct (pass_without_connection (example_runtime run_pages) two_source_config
              (faulty_env 0 OperationalError) (world_with [bike_row]) OperationalError)
    as (_ & Hd & _ & _ & _ & Hl & _).
  - reflexivity.
  - reflexivity.
  - reflexivity.
  - split; [rewrite Hl; reflexivity | rewrite Hd; reflexivity].
Defined.

(* --------------------------------------------------------------------- *)
(** ** When the job raises *)

Section NoDatabaseError.

Context {R : Runtime}.
Variable cfg : config.
Variable E : env.

Hypothesis Hfaults : forall k e, db_fault E k = Some e -> is_database_error e = false.

Lemma nde_bind (A B : Type) (m : M A) (k : A -> M B) :
  (forall w, no_database_error (fst (m w))) ->
  (forall a w, no_database_error (fst (k a w))) ->
  forall w, no_database_error (fst (bind m k w)).
Proof.
  intros Hm Hk w. unfold bind. specialize (Hm w).
  destruct (m w) as [[a|e] w1]; [apply Hk | exact Hm].
Qed.

Lemma nde_try_except (A : Type) (m : M A) (h : exn -> M A) :
  (forall w, no_database_error (fst (m w))) ->
  (forall e w, is_database_error e = false -> no_database_error (fst (h e w))) ->
  forall w, no_database_error (fst (try_except m h w)).
Proof.
  intros Hm Hh w. unfold try_except. specialize (Hm w).
  destruct (m w) as [[a|e] w1]; [exact I | apply Hh; exact Hm].
Qed.

Lemma nde_db_call (w : world) : no_database_error (fst (db_call E w)).
Proof.
  unfold db_call. destruct (db_fault E (db_calls w)) as [e|] eqn:He; [|exact I].
  exact (Hfaults _ _ He).
Qed.

Lemma nde_modify (f : world -> world) (w : world) :
  no_database_error (fst (modify f w)).
Proof. exact I. Qed.

Lemma nde_open_connection (w : world) : no_database_error (fst (open_connection E w)).
Proof.
  unfold open_connection, get_db_connection. apply nde_bind.
  - apply nde_try_except.
    + apply nde_bind; [apply nde_db_call|]. intros _ w1. exact I.
    + intros e w1 He. destruct (is_sqlite_error e); [exact I | exact He].
  - intros c w1. exact I.
Qed.

Lemma nde_rollback (w : world) : no_database_error (fst (rollback E w)).
Proof.
  unfold rollback. apply nde_bind; [apply nde_db_call | intros _ w1; exact I].
Qed.

Lemma nde_prune (days : nat) (w : world) :
  no_database_error (fst (prune_old_ads E days w)).
Proof.
  unfold prune_old_ads. apply nde_try_except.
  - apply nde_bind; [intros w1; exact I|]. intros now_utc.
    apply nde_bind.
    { intros w1. unfold lift, sub_days.
      destruct (Z.ltb (year (minus_days now_utc days)) 1); [reflexivity | exact I]. }
    intros cutoff. apply nde_bind.
    { unfold delete_older. apply nde_bind; [apply nde_db_call|]. intros _ w1. exact I. }
    intros n. apply nde_bind.
    { unfold commit. apply nde_bind; [apply nde_db_call|]. intros _ w1. exact I. }
    intros _ w1. exact I.
  - intros e w1 He. destruct (is_sqlite_error e); [|exact He].
    apply nde_bind; [intros w2; exact I | intros _; apply nde_rollback].
Qed.

Lemma nde_pass_try (w : world) : no_database_error (fst (pass_try cfg E w)).
Proof.
  unfold pass_try. apply nde_bind; [apply nde_open_connection|].
  intros [|]; [|intros w1; exact I].
  apply nde_bind; [apply nde_modify|]. intros _.
  apply nde_bind.
  { intros w1. rewrite sources_return. exact I. }
  intros _. apply nde_bind; [apply nde_prune|]. intros _ w1. exact I.
Qed.

Lemma pass_locked_returns (w : world) : fst (pass_locked cfg E w) = Ok tt.
Proof.
  unfold pass_locked. rewrite bind_modify, bind_modify.
  unfold try_finally, try_except.
  match goal with
  | |- context [bind (pass_try cfg E) ?k ?w0] =>
      pose proof (nde_pass_try w0) as Hp; unfold bind;
      destruct (pass_try cfg E w0) as [[b|e] w1]
  end.
  - reflexivity.
  - cbn in Hp. unfold log_msg, modify. cbn [fst snd]. rewrite Hp. reflexivity.
Qed.

End NoDatabaseError.

(** X8.  The scheduled job raises only after a database error: in a run
    in which no call into sqlite3 raises a [sqlite3.DatabaseError],
    whatever else the calls, the pages and the clock do, [check_for_new_ads]
    returns normally, with the lock free. *)
Theorem pass_returns_without_database_error
  (R : Runtime) (cfg : config) (E : env) (w : world) :
  (forall k e, db_fault E k = Some e -> is_database_error e = false) ->
  fst (check_for_new_ads cfg E w) = Ok tt
  /\ (job_lock w = false -> job_lock (snd (check_for_new_ads cfg E w)) = false).
Proof.
  intros Hfaults. unfold check_for_new_ads, try_acquire.
  destruct (job_lock w) eqn:Hlock.
  - split; [reflexivity | discriminate].
  - split; [apply (@pass_locked_returns R cfg E Hfaults)|].
    intros _. apply pass_locked_releases.
Qed.

Lemma pass_returns_without_database_error_witness :
  fst (check_for_new_ads (R := example_runtime run_pages) two_source_config
         (faulty_env 2 InterfaceError) (world_with [bike_row]))
  = Ok tt.
Proof.
  apply (pass_returns_without_database_error (example_runtime run_pages)
           two_source_config (faulty_env 2 InterfaceError) (world_with [bike_row])).
  intros k e. unfold faulty_env. cbn.
  destruct (Nat.eqb k 2); [|discriminate].
  intros H. inversion H. reflexivity.
Defined.

(* --------------------------------------------------------------------- *)
(** ** The feed build *)

Section FeedBuild.

Context {R : Runtime}.
Variable E : env.

Lemma same_ledger_db_call (w0 : world) :
  maintains (same_ledger_and_lock w0) (db_call E).
Proof. apply maintains_db_call. intros w H. exact H. Qed.

Lemma same_ledger_now (w0 : world) : maintains (same_ledger_and_lock w0) (now E).
Proof. apply maintains_now. intros w H. exact H. Qed.

Lemma same_ledger_open_connection (w0 : world) :
  maintains (same_ledger_and_lock w0) (open_connection E).
Proof.
  unfold open_connection, get_db_connection.
  apply maintains_bind.
  - apply maintains_try_except.
    + apply maintains_bind; [apply same_ledger_db_call|]. intros _.
      apply maintains_bind; [|intros _; apply maintains_ret].
      apply maintains_modify. intros w H. exact H.
    + intros e. destruct (is_sqlite_error e); [apply maintains_ret | apply maintains_raise].
  - intros c. apply maintains_bind; [|intros _; apply maintains_ret].
    apply maintains_modify. intros w H. exact H.
Qed.

Lemma same_ledger_generate (w0 : world) :
  maintains (same_ledger_and_lock w0) (generate_rss_feed_from_db E).
Proof.
  unfold generate_rss_feed_from_db.
  apply maintains_bind; [apply maintains_modify; intros w H; exact H|]. intros _.
  apply (hoare_try_finally (Q1 := fun _ => same_ledger_and_lock w0)).
  - apply maintains_try_except.
    + apply maintains_bind; [apply same_ledger_open_connection|].
      intros [|]; [|apply maintains_ret].
      apply maintains_bind; [apply same_ledger_now|]. intros now_utc.
      apply maintains_bind; [intros w H; exact H|]. intros relevant_period_start.
      apply maintains_bind.
      { unfold select_recent. apply maintains_bind; [apply same_ledger_db_call|].
        intros _. apply maintains_gets. }
      intros changes.
      apply maintains_bind; [apply maintains_modify; intros w H; exact H|]. intros _.
      apply maintains_bind; [apply same_ledger_now|]. intros built.
      apply maintains_modify. intros w H. exact H.
    + intros e. apply maintains_modify. intros w H. exact H.
  - intros r w H. unfold close. destruct (conn w); exact H.
Qed.

Lemma generate_returns (w : world) : fst (generate_rss_feed_from_db E w) = Ok tt.
Proof.
  unfold generate_rss_feed_from_db. rewrite bind_modify.
  unfold try_finally, try_except.
  match goal with
  | |- context [match ?b ?x with _ => _ end] => destruct (b x) as [[[]|e] w1]
  end; reflexivity.
Qed.

End FeedBuild.

(** X9.  Serving the feed writes nothing: in every environment, a call of
    the [/rss] handler (and the feed build in it) leaves the committed
    ledger as it was, and neither takes nor frees the lock of the job nor
    touches what a running pass counts. *)
Theorem feed_request_writes_nothing (R : Runtime) (E : env) (w : world) :
  same_ledger_and_lock w (snd (generate_rss_feed_from_db E w))
  /\ same_ledger_and_lock w (snd (rss E w)).
Proof.
  assert (Hstart : same_ledger_and_lock w w) by (repeat split).
  pose proof (@same_ledger_generate R E w w Hstart) as Hgen.
  split; [exact Hgen|].
  unfold rss. unfold bind at 1.
  destruct (generate_rss_feed_from_db E w) as [[[]|e] w1]; cbn [fst snd] in *.
  - rewrite bind_gets, bind_gets.
    destruct (to_xml_raises E); exact Hgen.
  - exact Hgen.
Qed.

(** X10.  The [/rss] handler always answers: whatever the database calls
    and the clock do it does not raise, and its answer is the plain
    status 500 exactly when [to_xml] raises; otherwise it is the feed
    document with the items and the build date the feed object holds after
    the build. *)
Theorem feed_request_always_answers (R : Runtime) (E : env) (w : world) :
  let w' := snd (generate_rss_feed_from_db E w) in
  (to_xml_raises E = true -> rss E w = (Ok Status500, w'))
  /\ (to_xml_raises E = false ->
      rss E w = (Ok (FeedXml (rss_items w') (lastBuildDate w')), w')).
Proof.
  cbv zeta.
  assert (Heq : rss E w
                = (if to_xml_raises E then ret Status500
                   else ret (FeedXml
                               (rss_items (snd (generate_rss_feed_from_db E w)))
                               (lastBuildDate (snd (generate_rss_feed_from_db E w)))))
                    (snd (generate_rss_feed_from_db E w))).
  { unfold rss. unfold bind at 1.
    pose proof (@generate_returns R E w) as Hgen.
    destruct (generate_rss_feed_from_db E w) as [[[]|e] w1]; cbn [fst snd] in *;
      [|discriminate].
    rewrite bind_gets, bind_gets. reflexivity. }
  split; intros H; rewrite Heq, H; reflexivity.
Qed.

(* --------------------------------------------------------------------- *)
(** ** The feed query *)

Lemma str_ltb_trans (a b c : str) :
  str_ltb a b = true -> str_ltb b c = true -> str_ltb a c = true.
Proof.
  revert b c. induction a as [|x a IH]; intros [|y b] [|z c] Hab Hbc;
    simpl in *; try discriminate; try reflexivity.
  apply orb_true_iff in Hab. apply orb_true_iff in Hbc. apply orb_true_iff.
  destruct Hab as [Hxy | Hxy]; destruct Hbc as [Hyz | Hyz].
  - left. apply N.ltb_lt in Hxy, Hyz. apply N.ltb_lt. lia.
  - apply andb_true_iff in Hyz. destruct Hyz as [Hyz _]. apply N.eqb_eq in Hyz.
    subst z. left. exact Hxy.
  - apply andb_true_iff in Hxy. destruct Hxy as [Hxy _]. apply N.eqb_eq in Hxy.
    subst y. left. exact Hyz.
  - apply andb_true_iff in Hxy. apply andb_true_iff in Hyz.
    destruct Hxy as [Hxy Hab]. destruct Hyz as [Hyz Hbc].
    apply N.eqb_eq in Hxy, Hyz. subst y z. right.
    rewrite N.eqb_refl. simpl. apply (IH b c); assumption.
Qed.

Lemma str_ltb_total (a b : str) :
  str_ltb a b = false -> str_ltb b a = false -> a = b.
Proof.
  revert b. induction a as [|x a IH]; intros [|y b] Hab Hba;
    simpl in *; try discriminate; [reflexivity|].
  apply orb_false_iff in Hab. apply orb_false_iff in Hba.
  destruct Hab as [Hxy Hab]. destruct Hba as [Hyx Hba].
  apply N.ltb_ge in Hxy, Hyx. assert (x = y) by lia. subst y.
  rewrite N.eqb_refl in *. simpl in *. f_equal. apply IH; assumption.
Qed.

Lemma not_older_trans (a b c : row) :
  not_older a b -> not_older b c -> not_older a c.
Proof.
  unfold not_older. intros Hab Hbc.
  destruct (str_ltb (last_checked a) (last_checked c)) eqn:Hac; [|reflexivity].
  destruct (str_ltb (last_checked c) (last_checked b)) eqn:Hcb.
  - rewrite (str_ltb_trans _ _ _ Hac Hcb) in Hab. discriminate.
  - rewrite (str_ltb_total _ _ Hbc Hcb) in Hab. rewrite Hab in Hac. discriminate.
Qed.

Lemma not_older_after (a b : row) :
  str_ltb (last_checked a) (last_checked b) = true -> not_older b a.
Proof.
  unfold not_older. intros Hab.
  destruct (str_ltb (last_checked b) (last_checked a)) eqn:Hba; [|reflexivity].
  pose proof (str_ltb_trans _ _ _ Hab Hba) as H.
  rewrite str_ltb_irrefl in H. discriminate.
Qed.

Lemma insert_desc_permutation (r : row) (l : table) :
  Permutation (insert_desc r l) (r :: l).
Proof.
  induction l as [|x l IH]; simpl; [apply Permutation_refl|].
  destruct (str_ltb (last_checked r) (last_checked x)); [|apply Permutation_refl].
  apply (perm_trans (l' := x :: r :: l)); [apply perm_skip; exact IH | apply perm_swap].
Qed.

Lemma insert_desc_sorted (r : row) (l : table) :
  StronglySorted not_older l -> StronglySorted not_older (insert_desc r l).
Proof.
  induction l as [|x l IH]; intros Hs; simpl.
  - constructor; constructor.
  - inversion Hs as [|? ? Hl Hx]; subst.
    destruct (str_ltb (last_checked r) (last_checked x)) eqn:Hrx.
    + constructor; [apply IH; exact Hl|].
      rewrite Forall_forall. intros y Hy.
      apply (Permutation_in (l' := r :: l)) in Hy; [|apply insert_desc_permutation].
      destruct Hy as [<-|Hy]; [apply not_older_after; exact Hrx|].
      rewrite Forall_forall in Hx. apply Hx. exact Hy.
    + constructor; [exact Hs|].
      constructor; [exact Hrx|].
      rewrite Forall_forall in *. intros y Hy.
      apply (not_older_trans r x y); [exact Hrx | apply Hx; exact Hy].
Qed.

Lemma sort_desc_permutation (l : table) :
  Permutation (fold_right insert_desc [] l) l.
Proof.
  induction l as [|r l IH]; simpl; [constructor|].
  apply (perm_trans (l' := r :: fold_right insert_desc [] l));
    [apply insert_desc_permutation | apply perm_skip; exact IH].
Qed.

Lemma sort_desc_sorted (l : table) :
  StronglySorted not_older (fold_right insert_desc [] l).
Proof.
  induction l as [|r l IH]; simpl; [constructor | apply insert_desc_sorted; exact IH].
Qed.

Lemma sql_recent_In (since : str) (t : table) (r : row) :
  In r (sql_recent since t) -> In r t /\ checked_since since r = true.
Proof.
  unfold sql_recent. intros H.
  assert (H' : In r (fold_right insert_desc []
                       (rev (filter (fun r => negb (str_ltb (last_checked r) since)) t)))).
  { rewrite <- (firstn_skipn 100). apply in_or_app. left. exact H. }
  apply (Permutation_in
           (l' := rev (filter (fun r => negb (str_ltb (last_checked r) since)) t)))
    in H'; [|apply sort_desc_permutation].
  apply in_rev in H'. apply filter_In in H'. exact H'.
Qed.

Lemma sql_recent_length (since : str) (t : table) :
  (List.length (sql_recent since t) <= 100)%nat.
Proof. unfold sql_recent. apply firstn_le_length. Qed.

(** X11.  The rows the feed query fetches, when the call succeeds: they
    are the newest 100 of the rows checked since the given time.  With
    [rest] the rows that the [LIMIT] cuts off, the fetched rows followed by
    [rest] are exactly the rows of the connection's view with
    [last_checked >= since], each once, in an order in which no row is
    older than one after it; at most 100 rows are fetched, and none is cut
    off unless 100 are fetched. *)
Theorem feed_query_takes_the_newest (E : env) (since : str) (w : world) :
  db_fault E (db_calls w) = None ->
  exists rows rest,
    fst (select_recent E since w) = Ok rows
    /\ (List.length rows <= 100)%nat
    /\ (rest <> [] -> List.length rows = 100%nat)
    /\ Permutation (rows ++ rest) (filter (checked_since since) (txn w))
    /\ StronglySorted not_older (rows ++ rest).
Proof.
  intros H0.
  set (sorted := fold_right insert_desc []
                   (rev (filter (checked_since since) (txn w)))).
  exists (firstn 100 sorted), (skipn 100 sorted).
  split.
  { unfold select_recent, db_call, bind, gets. rewrite H0. reflexivity. }
  split; [apply firstn_le_length|].
  split.
  { intros Hrest. apply firstn_length_le.
    destruct (Nat.le_gt_cases 100 (List.length sorted)) as [Hle|Hgt]; [exact Hle|].
    exfalso. apply Hrest. apply skipn_all2. lia. }
  rewrite firstn_skipn.
  split; [|apply sort_desc_sorted].
  apply (perm_trans (l' := rev (filter (checked_since since) (txn w))));
    [apply sort_desc_permutation | apply Permutation_sym, Permutation_rev].
Qed.

Lemma feed_query_takes_the_newest_witness :
  exists rows rest,
    fst (select_recent quiet_env (lit "2024-05-10T00:00:00+00:00")
           (world_with [old_row; bike_row])) = Ok rows
    /\ Permutation (rows ++ rest) [bike_row].
Proof.
  destruct (feed_query_takes_the_newest quiet_env (lit "2024-05-10T00:00:00+00:00")
              (world_with [old_row; bike_row]))
    as (rows & rest & H1 & _ & _ & H2 & _).
  - reflexivity.
  - exists rows, rest. split; [exact H1 | exact H2].
Defined.

Section FeedItems.

Context {R : Runtime}.
Variable E : env.

Lemma generate_quiet (w : world) (start : datetime) :
  db_fault E (db_calls w) = None ->
  db_fault E (S (db_calls w)) = None ->
  sub_days (clock E (clock_reads w)) 7 = Ok start ->
  rss_items (snd (generate_rss_feed_from_db E w))
  = flat_map (item_of_change E) (sql_recent (isoformat start) (disk w))
  /\ lastBuildDate (snd (generate_rss_feed_from_db E w)) = clock E (S (clock_reads w)).
Proof.
  intros H0 H1 Hcut.
  unfold generate_rss_feed_from_db, open_connection, get_db_connection,
    select_recent, now, lift, db_call.
  unfold try_finally, try_except, bind, gets, modify, raise, ret. cbn.
  rewrite H0. cbn. rewrite Hcut. cbn. rewrite H1. cbn.
  split; reflexivity.
Qed.

Lemma item_of_change_length (l : table) :
  (List.length (flat_map (item_of_change E) l) <= List.length l)%nat.
Proof.
  induction l as [|r l IH]; simpl; [lia|].
  rewrite length_app. unfold item_of_change at 1.
  destruct (isoparse (last_checked r)) as [dt|]; [|simpl; lia].
  destruct (local_time E dt); simpl; lia.
Qed.

(** The items of a row: one, when its [last_checked] parses and converts
    to local time, and else none. *)
Lemma item_of_change_In (r : row) (it : rss_item) :
  In it (item_of_change E r)
  <-> exists dt,
        isoparse (last_checked r) = Some dt
        /\ local_time E dt = Ok (pubDate it)
        /\ it = new_rss_item (title r) (price r) (url r) (ad_id r) (pubDate it).
Proof.
  unfold item_of_change. split.
  - intros Hin. destruct (isoparse (last_checked r)) as [dt|]; [|contradiction].
    destruct (local_time E dt) as [pub|e] eqn:Hpub; [|contradiction].
    destruct Hin as [<-|[]]. exists dt. cbn. split; [reflexivity|].
    split; [exact Hpub | reflexivity].
  - intros [dt [Hparse [Hpub Hform]]]. rewrite Hparse, Hpub. left.
    symmetry. exact Hform.
Qed.

End FeedItems.

(** X12.  What a successful feed build puts into the feed (both database
    calls succeed and the start of the seven-day window is a date): at most
    100 items, and the build date is the time read after the query.  Each
    item is made from a committed row whose [last_checked] is at or after
    the start of the window, parses, and converts to local time: that
    local time is the [pubDate], the row's [url] the link, its [ad_id] the
    [guid] and the title is ["<title> - <price>"].  Every fetched row whose
    [last_checked] parses and converts has its item; a fetched row whose
    [last_checked] does not parse, or whose conversion to local time raises,
    is skipped: no item carries its identity. *)
Theorem feed_items_come_from_recent_rows
  (R : Runtime) (E : env) (w : world) (start : datetime) :
  db_fault E (db_calls w) = None ->
  db_fault E (S (db_calls w)) = None ->
  sub_days (clock E (clock_reads w)) 7 = Ok start ->
  let w' := snd (generate_rss_feed_from_db E w) in
  (List.length (rss_items w') <= 100)%nat
  /\ lastBuildDate w' = clock E (S (clock_reads w))
  /\ (forall it, In it (rss_items w') ->
        exists r dt,
          In r (disk w)
          /\ str_ltb (last_checked r) (isoformat start) = false
          /\ isoparse (last_checked r) = Some dt
          /\ local_time E dt = Ok (pubDate it)
          /\ it = new_rss_item (title r) (price r) (url r) (ad_id r) (pubDate it))
  /\ (forall r dt pub,
        In r (sql_recent (isoformat start) (disk w)) ->
        isoparse (last_checked r) = Some dt ->
        local_time E dt = Ok pub ->
        In (new_rss_item (title r) (price r) (url r) (ad_id r) pub) (rss_items w'))
  /\ (unique_ids (disk w) ->
      forall r,
        In r (sql_recent (isoformat start) (disk w)) ->
        (isoparse (last_checked r) = None
         \/ exists dt e, isoparse (last_checked r) = Some dt
                         /\ local_time E dt = Raise e) ->
        ~ In (ad_id r) (map guid (rss_items w'))).
Proof.
  intros H0 H1 Hcut. cbv zeta.
  destruct (@generate_quiet R E w start H0 H1 Hcut) as [Hitems Hbuilt].
  rewrite Hitems, Hbuilt.
  assert (Hfrom : forall it,
             In it (flat_map (item_of_change E) (sql_recent (isoformat start) (disk w))) ->
             exists r dt,
               In r (disk w)
               /\ str_ltb (last_checked r) (isoformat start) = false
               /\ isoparse (last_checked r) = Some dt
               /\ local_time E dt = Ok (pubDate it)
               /\ it = new_rss_item (title r) (price r) (url r) (ad_id r) (pubDate it)).
  { intros it Hit. apply in_flat_map in Hit. destruct Hit as [r [Hr Hit]].
    apply sql_recent_In in Hr. destruct Hr as [Hr Hsince].
    unfold checked_since in Hsince. apply negb_true_iff in Hsince.
    apply item_of_change_In in Hit. destruct Hit as [dt [Hparse [Hpub Hform]]].
    exists r, dt. split; [exact Hr|]. split; [exact Hsince|].
    split; [exact Hparse|]. split; [exact Hpub | exact Hform]. }
  split.
  { apply (Nat.le_trans _ (List.length (sql_recent (isoformat start) (disk w))));
      [apply item_of_change_length | apply sql_recent_length]. }
  split; [reflexivity|]. split; [exact Hfrom|]. split.
  - intros r dt pub Hr Hparse Hpub. apply in_flat_map. exists r. split; [exact Hr|].
    apply item_of_change_In. exists dt. cbn. split; [exact Hparse|].
    split; [exact Hpub | reflexivity].
  - intros Hu r Hr Hskip Hin. apply in_map_iff in Hin. destruct Hin as [it [Hguid Hit]].
    destruct (Hfrom it Hit) as (r' & dt' & Hr' & _ & Hparse' & Hpub' & Hform).
    assert (Hsame : r' = r).
    { apply (@unique_ids_same_row (disk w) r' r Hu Hr').
      - apply sql_recent_In in Hr. exact (proj1 Hr).
      - rewrite <- Hguid. rewrite Hform. reflexivity. }
    subst r'. destruct Hskip as [Hnone | [dt [e [Hparse Hraise]]]].
    + rewrite Hnone in Hparse'. discriminate.
    + rewrite Hparse in Hparse'. inversion Hparse'. subst dt'.
      rewrite Hraise in Hpub'. discriminate.
Qed.

Lemma feed_items_come_from_recent_rows_witness :
  map guid (rss_items (snd (generate_rss_feed_from_db (R := example_runtime run_pages)
                              quiet_env (world_with [old_row; bike_row]))))
  = [id7]
  /\ lastBuildDate (snd (generate_rss_feed_from_db (R := example_runtime run_pages)
                           quiet_env (world_with [old_row; bike_row])))
     = example_clock 1.
Proof.
  destruct (feed_items_come_from_recent_rows (example_runtime run_pages) quiet_env
              (world_with [old_row; bike_row])
              {| year := 2024; month := 5; day := 13; hour := 12; minute := 0;
                 second := 0; microsecond := 0 |})
    as (_ & Hbuilt & _ & _ & _).
  - reflexivity.
  - reflexivity.
  - reflexivity.
  - split; [vm_compute; reflexivity | exact Hbuilt].
Defined.

(* --------------------------------------------------------------------- *)
(** ** Pruning that fails *)

(** X13.  A failed pruning deletes nothing.  When the [DELETE] raises a
    [sqlite3.Error], or the [DELETE] succeeds and its [commit] raises one,
    and the [rollback] then succeeds, [prune_old_ads] returns normally, the
    committed ledger is as it was and the connection's view is back to it;
    the error is logged and no count of deleted rows is. *)
Theorem failed_prune_deletes_nothing
  (E : env) (days_to_keep : nat) (w : world) (cutoff : datetime) (e : exn) :
  sub_days (clock E (clock_reads w)) days_to_keep = Ok cutoff ->
  is_sqlite_error e = true ->
  (db_fault E (db_calls w) = Some e /\ db_fault E (S (db_calls w)) = None)
  \/ (db_fault E (db_calls w) = None /\ db_fault E (S (db_calls w)) = Some e
      /\ db_fault E (S (S (db_calls w))) = None) ->
  let w' := snd (prune_old_ads E days_to_keep w) in
  fst (prune_old_ads E days_to_keep w) = Ok tt
  /\ disk w' = disk w
  /\ txn w' = disk w
  /\ log w' = log w ++ [LogPruneError e].
Proof.
  intros Hcut Hsql Hfaults. cbv zeta.
  unfold prune_old_ads, now, lift, delete_older, commit, log_msg, rollback, db_call.
  unfold try_except, bind, gets, modify, raise, ret. cbn.
  rewrite Hcut. cbn.
  destruct Hfaults as [[H0 H1] | [H0 [H1 H2]]].
  - rewrite H0. cbn. rewrite Hsql. cbn. rewrite H1. cbn. repeat split; reflexivity.
  - rewrite H0. cbn. rewrite H1. cbn. rewrite Hsql. cbn. rewrite H2. cbn.
    repeat split; reflexivity.
Qed.

Lemma failed_prune_deletes_nothing_witness :
  disk (snd (prune_old_ads (faulty_env 1 OperationalError) 14
               (world_with [old_row; bike_row])))
  = [old_row; bike_row]
  /\ log (snd (prune_old_ads (faulty_env 1 OperationalError) 14
                 (world_with [old_row; bike_row])))
     = [LogPruneError OperationalError].
Proof.
  destruct (failed_prune_deletes_nothing (faulty_env 1 OperationalError) 14
              (world_with [old_row; bike_row])
              {| year := 2024; month := 5; day := 6; hour := 12; minute := 0;
                 second := 0; microsecond := 0 |} OperationalError)
    as (_ & Hd & _ & Hl).
  - reflexivity.
  - reflexivity.
  - right. repeat split; reflexivity.
  - split; [rewrite Hd; reflexivity | rewrite Hl; reflexivity].
Defined.

(* --------------------------------------------------------------------- *)
(** ** A listing whose insert fails *)

(** X14.  An error on the insert path costs that one listing only.  For a
    listing that was not handled in the pass and that the [SELECT] does not
    find, at a time that converts to the local zone: when the [INSERT]
    raises a [sqlite3.Error] other than
    [IntegrityError], or the [INSERT] succeeds and its [commit] raises one,
    and the [rollback] then succeeds, [process_ad] returns normally; the
    committed ledger is as it was and the connection's view is back to it,
    the listing is neither pushed to the feed nor counted nor marked as
    handled, the error is logged, and the loop goes on with the next
    listing. *)
Theorem failed_insert_is_skipped
  (E : env) (w : world) (id t p u : str) (rest : list ad) (e : exn)
  (pub : local_datetime) :
  ~ In id (added_ad_ids_this_run w) ->
  db_fault E (db_calls w) = None ->
  existsb (has_ad_id id) (txn w) = false ->
  local_time E (clock E (clock_reads w)) = Ok pub ->
  is_sqlite_error e = true ->
  is_integrity_error e = false ->
  (db_fault E (S (db_calls w)) = Some e /\ db_fault E (S (S (db_calls w))) = None)
  \/ (db_fault E (S (db_calls w)) = None /\ db_fault E (S (S (db_calls w))) = Some e
      /\ db_fault E (S (S (S (db_calls w)))) = None) ->
  let w' := snd (process_ad E (id, t, p, u) w) in
  fst (process_ad E (id, t, p, u) w) = Ok tt
  /\ disk w' = disk w
  /\ txn w' = disk w
  /\ rss_items w' = rss_items w
  /\ added_ad_ids_this_run w' = added_ad_ids_this_run w
  /\ new_ads_added_count w' = new_ads_added_count w
  /\ log w' = log w ++ [LogAdDbError id e]
  /\ for_each (process_ad E) ((id, t, p, u) :: rest) w = for_each (process_ad E) rest w'.
Proof.
  intros Hadded H0 Hex Hpub Hsql Hint Hfaults. cbv zeta.
  apply mem_not_In in Hadded.
  cbn [for_each]. unfold bind at 1.
  unfold process_ad, select_ad_id, insert_ad, update_last_checked, commit, rollback,
    now, log_msg, lift, db_call.
  unfold try_except, bind, gets, modify, raise, ret. cbn.
  rewrite Hadded. cbn. rewrite H0. cbn. rewrite Hex. cbn. rewrite Hpub. cbn.
  destruct Hfaults as [[H1 H2] | [H1 [H2 H3]]].
  - rewrite H1. cbn. rewrite Hint, Hsql. cbn. rewrite H2. cbn.
    repeat split; reflexivity.
  - rewrite H1. cbn. rewrite Hex. cbn. rewrite H2. cbn. rewrite Hint, Hsql. cbn.
    rewrite H3. cbn. repeat split; reflexivity.
Qed.

Lemma failed_insert_is_skipped_witness :
  map ad_id
    (disk (snd (for_each (process_ad (faulty_env 1 OperationalError))
                  [bike_ad; (id8, lit "Red bike", lit "$20", link8)]
                  (world_with []))))
  = [id8].
Proof.
  destruct (failed_insert_is_skipped (faulty_env 1 OperationalError) (world_with [])
              id7 (lit "Bike") (lit "$10") link7
              [(id8, lit "Red bike", lit "$20", link8)] OperationalError
              {| wall := {| year := 2024; month := 5; day := 20; hour := 22;
                            minute := 0; second := 0; microsecond := 0 |};
                 utcoffset_seconds := 36000 |})
    as (_ & _ & _ & _ & _ & _ & _ & Hgo).
  - intros [].
  - reflexivity.
  - reflexivity.
  - reflexivity.
  - reflexivity.
  - reflexivity.
  - left. split; reflexivity.
  - apply (f_equal (fun r : result unit * world => map ad_id (disk (snd r)))) in Hgo.
    etransitivity; [exact Hgo|]. vm_compute. reflexivity.
Defined.

(* --------------------------------------------------------------------- *)
(** ** Loading the configuration *)

Lemma key_is_found (d : dict) (k : str) : In k (keys d) -> dict_get d k <> None.
Proof.
  induction d as [|[k' v] d IH]; simpl; [intros []|].
  intros [Hk | Hk].
  - subst k'. rewrite str_eqb_refl. discriminate.
  - destruct (str_eqb k' k); [discriminate | apply IH; exact Hk].
Qed.

(** X15.  Which configuration files [load_from_json] accepts, and what it
    leaves on the monitor.  It returns exactly when the file holds a JSON
    object whose [url_filters], if there is one, is an object ([null] is
    not).  Then [self.url_filters] is the [url_filters] of the file (empty
    when the file has none), the monitored sources are its keys in the
    order of the file, each with its policy entry, and they are the sources
    the pipeline's configuration has.  Whenever the file holds a JSON
    object, each of the six settings is the value the file gives it and,
    where the file does not mention it, the value it had, also when the
    check of [url_filters] then raises.  A file that is not JSON, or whose
    [url_filters] is not an object, raises [ValueError]; a JSON document
    that is not an object raises [AttributeError]; a missing file raises
    [FileNotFoundError]; whenever the call raises, [url_filters] and the
    monitored sources are as before, and unless the file holds a JSON
    object nothing is assigned at all. *)
Theorem load_from_json_accepts (file : config_file) (self : monitor_settings) :
  let outcome := fst (load_from_json file self) in
  let self' := snd (load_from_json file self) in
  (outcome = Loaded
   <-> exists data,
         file = Document (JDict data)
         /\ is_object (get_or data (lit "url_filters") (JDict [])) = true)
  /\ (forall data, file = Document (JDict data) ->
        (outcome = Loaded ->
         JDict (self_url_filters self') = get_or data (lit "url_filters") (JDict [])
         /\ self_urls_to_monitor self' = keys (self_url_filters self')
         /\ urls_to_monitor (config_of self') = self_urls_to_monitor self'
         /\ (forall u, In u (self_urls_to_monitor self') ->
                       dict_get (self_url_filters self') u <> None))
        /\ self_server_ip self' = get_or data (lit "server_ip") (self_server_ip self)
        /\ self_server_port self'
           = get_or data (lit "server_port") (self_server_port self)
        /\ self_currency self' = get_or data (lit "currency") (self_currency self)
        /\ self_refresh_interval_minutes self'
           = get_or data (lit "refresh_interval_minutes")
               (self_refresh_interval_minutes self)
        /\ self_log_filename self'
           = get_or data (lit "log_filename") (self_log_filename self)
        /\ self_database self' = get_or data (lit "database_name") (self_database self))
  /\ (outcome <> Loaded ->
      self_url_filters self' = self_url_filters self
      /\ self_urls_to_monitor self' = self_urls_to_monitor self)
  /\ ((forall data, file <> Document (JDict data)) -> self' = self)
  /\ (file = NotJson -> outcome = RaisesOther ValueError)
  /\ (file = NoSuchFile -> outcome = RaisesFileNotFoundError)
  /\ (forall v, file = Document v ->
        (is_object v = false -> outcome = RaisesOther AttributeError)
        /\ (forall data, v = JDict data ->
              is_object (get_or data (lit "url_filters") (JDict [])) = false ->
              outcome = RaisesOther ValueError)).
Proof.
  cbv zeta. unfold load_from_json.
  destruct file as [| |v].
  - cbn [fst snd]. split; [split; [discriminate | intros [data [H _]]; discriminate]|].
    split; [intros data H; discriminate|]. split; [auto|]. split; [reflexivity|].
    split; [discriminate|]. split; [reflexivity|]. intros v H. discriminate.
  - cbn [fst snd]. split; [split; [discriminate | intros [data [H _]]; discriminate]|].
    split; [intros data H; discriminate|]. split; [auto|]. split; [reflexivity|].
    split; [reflexivity|]. split; [discriminate|]. intros v H. discriminate.
  - destruct v as [| b | n | x | s | l | data];
      try (cbn [fst snd];
           split; [split; [discriminate | intros [data [H _]]; discriminate]|];
           split; [intros data H; discriminate|]; split; [auto|];
           split; [reflexivity|]; split; [discriminate|]; split; [discriminate|];
           intros v H; inversion H; subst v; split; [reflexivity|];
           intros data Hd; discriminate).
    destruct (get_or data (lit "url_filters") (JDict [])) as [| b | n | x | s | l | d]
      eqn:Hraw;
      try (cbn [fst snd self_urls_to_monitor self_url_filters self_currency
                self_database self_server_ip self_server_port
                self_refresh_interval_minutes self_log_filename];
           split;
           [split; [discriminate
                   | intros [data' [H Hobj]]; inversion H; subst data';
                     rewrite Hraw in Hobj; discriminate]|];
           split;
           [intros data' H; inversion H; subst data';
            split; [discriminate|]; repeat split; reflexivity|];
           split; [auto|];
           split; [intros H; exfalso; apply (H data); reflexivity|];
           split; [discriminate|]; split; [discriminate|];
           intros v H; inversion H; subst v; split; [discriminate|];
           intros data' Hd _; reflexivity).
    cbn [fst snd self_urls_to_monitor self_url_filters self_currency self_database
         self_server_ip self_server_port self_refresh_interval_minutes
         self_log_filename config_of urls_to_monitor url_filters].
    split.
    { split; [|reflexivity]. intros _. exists data. split; [reflexivity|].
      rewrite Hraw. reflexivity. }
    split.
    { intros data' H. inversion H. subst data'.
      split; [|repeat split; reflexivity].
      intros _. split; [symmetry; exact Hraw|]. split; [reflexivity|].
      split; [reflexivity | apply key_is_found]. }
    split; [intros H; contradiction H; reflexivity|].
    split; [intros H; exfalso; apply (H data); reflexivity|].
    split; [discriminate|]. split; [discriminate|].
    intros v H. inversion H. subst v. split; [discriminate|].
    intros data' Hd Hobj. inversion Hd. subst data'. rewrite Hraw in Hobj. discriminate.
Qed.

Lemma load_from_json_accepts_witness :
  fst (load_from_json example_file initial_settings) = Loaded
  /\ self_urls_to_monitor (snd (load_from_json example_file initial_settings))
     = [example_source]
  /\ self_currency (snd (load_from_json example_file initial_settings))
     = JStr (lit "EUR")
  /\ self_database (snd (load_from_json example_file initial_settings))
     = JStr DEFAULT_DB_NAME.
Proof.
  destruct (load_from_json_accepts example_file initial_settings)
    as (Hiff & Hobject & _).
  assert (Hloaded : fst (load_from_json example_file initial_settings) = Loaded).
  { apply Hiff. eexists. split; reflexivity. }
  destruct (Hobject _ eq_refl) as (Hfilters & _ & _ & Hcurrency & _ & _ & Hdatabase).
  destruct (Hfilters Hloaded) as (Hraw & Hurls & _).
  split; [exact Hloaded|]. split; [|split].
  - rewrite Hurls. change (get_or _ (lit "url_filters") (JDict []))
      with (JDict [(example_source, JDict [])]) in Hraw.
    inversion Hraw as [Hd]. reflexivity.
  - rewrite Hcurrency. reflexivity.
  - rewrite Hdatabase. reflexivity.
Defined.

(* --------------------------------------------------------------------- *)
(** ** A new listing gets its item *)

Lemma In_entries (id : str) (t : table) (r : row) :
  In r t -> ad_id r = id -> In r (entries id t).
Proof.
  intros Hin Hid. unfold entries. apply filter_In. split; [exact Hin|].
  apply has_ad_id_true. exact Hid.
Qed.

Lemma row_of_ad_inj (a a' : ad) (stamp stamp' : str) :
  row_of_ad a' stamp' = row_of_ad a stamp -> a' = a /\ stamp' = stamp.
Proof.
  destruct a as [[[h t] p] u]. destruct a' as [[[h' t'] p'] u'].
  unfold row_of_ad, ad_link_url, ad_hash, ad_title, ad_price. cbn [fst snd].
  intros H. inversion H. split; reflexivity.
Qed.

(** X16.  Every listing that is new to the ledger gets its feed item.
    Take the loop of a pass over the sources in which no database call
    raises and the conversion to the local zone succeeds, started with
    nothing uncommitted, no identity handled and the counter at zero, and a
    listing that the ledger does not have, first sighted in this pass as
    the ad [a].  Afterwards the feed object holds an item made from [a]
    (its title, price, link, and its identity as [guid]) at a reading of
    the clock: the item's [pubDate] is that reading in the local zone, and
    the single ledger entry of the listing is the row of [a] whose
    [first_seen] and [last_checked] are the UTC text of that reading. *)
Theorem new_listing_gets_its_item
  (R : Runtime) (cfg : config) (E : env) (urls : list str) (w : world) (a : ad) :
  no_fault_from E (db_calls w) ->
  zone_converts E ->
  settled w ->
  added_ad_ids_this_run w = [] ->
  new_ads_added_count w = 0%nat ->
  entries (ad_hash a) (txn w) = [] ->
  first_sighting (ad_hash a) (flat_map (sighted cfg E) urls) = Some a ->
  let w' := snd (for_each (process_url cfg E) urls w) in
  exists it k,
    In it (rss_items w')
    /\ local_time E (clock E k) = Ok (pubDate it)
    /\ it = new_rss_item (ad_title a) (ad_price a) (ad_link_url a) (ad_hash a) (pubDate it)
    /\ entries (ad_hash a) (disk w') = [row_of_ad a (isoformat (clock E k))].
Proof.
  intros Hq Hzone Hsettled Hadded Hcount Hnone Hfirst. cbv zeta.
  pose proof (sources_announce R cfg E urls w Hadded Hcount) as Hann.
  destruct (@advances_sources R cfg E Hzone urls w Hq Hsettled)
    as (w' & Hrun & _ & [_ Hdisk'] & _ & _ & Hnew & _).
  rewrite Hrun in *. cbn [snd] in *.
  assert (Habsent : absent (ad_hash a) w).
  { split; [exact Hnone|]. rewrite Hadded. intros []. }
  destruct (Hnew (ad_hash a) a Habsent Hfirst) as [k0 [Hent Hin]].
  destruct Hann as (new_items & H1 & H2 & _ & _ & H5).
  rewrite <- H2 in Hin. apply in_map_iff in Hin. destruct Hin as [it [Hguid Hit]].
  destruct (H5 it Hit) as (a' & k & _ & Hpub & Hform & _ & Ht).
  assert (Hid : ad_hash a' = ad_hash a).
  { rewrite <- Hguid. rewrite Hform. reflexivity. }
  pose proof (In_entries (ad_hash a) (txn w') _ Ht Hid) as Hrow.
  rewrite Hent in Hrow. destruct Hrow as [Hrow|[]].
  symmetry in Hrow. apply row_of_ad_inj in Hrow. destruct Hrow as [Ha' Hstamp].
  subst a'. exists it, k.
  split; [rewrite H1; apply in_or_app; left; exact Hit|].
  split; [exact Hpub|]. split; [exact Hform|].
  rewrite Hdisk', Hent, Hstamp. reflexivity.
Qed.

Lemma new_listing_gets_its_item_witness :
  exists it,
    In it (rss_items (snd (for_each (process_url (R := example_runtime run_pages)
                                       two_source_config quiet_env)
                             [example_source; other_source] (world_with []))))
    /\ guid it = id7.
Proof.
  destruct (new_listing_gets_its_item (example_runtime run_pages) two_source_config
              quiet_env [example_source; other_source] (world_with []) bike_ad)
    as (it & k & Hin & _ & Hform & _).
  - intros k _. reflexivity.
  - exact (proj1 (example_zone_converts 0 ValueError)).
  - split; [constructor | reflexivity].
  - reflexivity.
  - reflexivity.
  - reflexivity.
  - reflexivity.
  - exists it. split; [exact Hin|]. rewrite Hform. reflexivity.
Defined.

(* --------------------------------------------------------------------- *)
(** ** The feed window and the retention *)

Lemma lex_ltb_irrefl (l : list Z) : lex_ltb l l = false.
Proof.
  induction l as [|x l IH]; simpl; [reflexivity|].
  rewrite Z.ltb_irrefl, Z.eqb_refl, IH. reflexivity.
Qed.

Lemma lex_ltb_trans (a b c : list Z) :
  lex_ltb a b = true -> lex_ltb b c = true -> lex_ltb a c = true.
Proof.
  revert b c. induction a as [|x a IH]; intros [|y b] [|z c] Hab Hbc;
    simpl in *; try discriminate.
  apply orb_true_iff in Hab. apply orb_true_iff in Hbc. apply orb_true_iff.
  destruct Hab as [Hxy | Hxy]; destruct Hbc as [Hyz | Hyz].
  - left. apply Z.ltb_lt in Hxy, Hyz. apply Z.ltb_lt. lia.
  - apply andb_true_iff in Hyz. destruct Hyz as [Hyz _]. apply Z.eqb_eq in Hyz.
    subst z. left. exact Hxy.
  - apply andb_true_iff in Hxy. destruct Hxy as [Hxy _]. apply Z.eqb_eq in Hxy.
    subst y. left. exact Hyz.
  - apply andb_true_iff in Hxy. apply andb_true_iff in Hyz.
    destruct Hxy as [Hxy Hab]. destruct Hyz as [Hyz Hbc].
    apply Z.eqb_eq in Hxy, Hyz. subst y z. right.
    rewrite Z.eqb_refl. simpl. apply (IH b c); assumption.
Qed.

Lemma prev_day_is_earlier (d : datetime) : dt_ltb (prev_day d) d = true.
Proof.
  unfold prev_day, dt_ltb, dt_fields, with_date.
  destruct (Z.ltb_spec 1 (day d)) as [Hd|Hd].
  - cbn. rewrite Z.ltb_irrefl, !Z.eqb_refl. cbn.
    replace (day d - 1 <? day d)%Z with true by (symmetry; apply Z.ltb_lt; lia).
    rewrite !orb_true_r. reflexivity.
  - destruct (Z.ltb_spec 1 (month d)) as [Hm|Hm].
    + cbn. rewrite Z.ltb_irrefl, Z.eqb_refl. cbn.
      replace (month d - 1 <? month d)%Z with true by (symmetry; apply Z.ltb_lt; lia).
      reflexivity.
    + cbn.
      replace (year d - 1 <? year d)%Z with true by (symmetry; apply Z.ltb_lt; lia).
      reflexivity.
Qed.

Lemma minus_days_not_later (n : nat) (d : datetime) :
  dt_ltb d (minus_days d n) = false.
Proof.
  revert d. induction n as [|n IH]; intros d; simpl.
  - apply lex_ltb_irrefl.
  - destruct (dt_ltb d (minus_days (prev_day d) n)) eqn:H; [|reflexivity].
    pose proof (lex_ltb_trans _ _ _ (prev_day_is_earlier d) H) as H'.
    change (dt_ltb (prev_day d) (minus_days (prev_day d) n) = true) in H'.
    rewrite IH in H'. discriminate.
Qed.

Lemma minus_days_add (n m : nat) (d : datetime) :
  minus_days d (n + m) = minus_days (minus_days d n) m.
Proof.
  revert d. induction n as [|n IH]; intros d; simpl; [reflexivity | apply IH].
Qed.

Lemma sub_days_value (d d' : datetime) (n : nat) :
  sub_days d n = Ok d' -> d' = minus_days d n.
Proof.
  unfold sub_days. destruct (Z.ltb (year (minus_days d n)) 1); [discriminate|].
  intros H. inversion H. reflexivity.
Qed.

(** The order of instants, by the date and the time of day. *)
Lemma dt_ltb_keys (a b : datetime) :
  in_range_but_year a -> in_range_but_year b ->
  dt_ltb a b = true
  <-> (date_key a < date_key b
       \/ (date_key a = date_key b /\ time_key a < time_key b))%Z.
Proof.
  unfold in_range_but_year, dt_ltb, dt_fields, date_key, time_key.
  destruct a as [y m d h mi s u], b as [y' m' d' h' mi' s' u']. cbn.
  intros Ha Hb.
  rewrite !orb_true_iff, !andb_true_iff, !Z.ltb_lt, !Z.eqb_eq.
  split; intros H; lia.
Qed.

Lemma prev_day_time (d : datetime) : time_key (prev_day d) = time_key d.
Proof.
  unfold prev_day.
  destruct (Z.ltb 1 (day d)); [reflexivity|].
  destruct (Z.ltb 1 (month d)); reflexivity.
Qed.

Lemma prev_day_on_calendar (d : datetime) : on_calendar d -> on_calendar (prev_day d).
Proof.
  intros [Hr Hd]. split; [apply prev_day_in_range; exact Hr|].
  unfold prev_day.
  destruct (Z.ltb_spec 1 (day d)); [cbn; lia|].
  destruct (Z.ltb_spec 1 (month d)); cbn; [lia|].
  unfold days_in_month. cbn. lia.
Qed.

(** The day before keeps the order of the dates. *)
Lemma prev_day_date (a b : datetime) :
  on_calendar a -> on_calendar b ->
  ((date_key a < date_key b -> date_key (prev_day a) < date_key (prev_day b))
   /\ (date_key a = date_key b -> date_key (prev_day a) = date_key (prev_day b)))%Z.
Proof.
  unfold on_calendar, in_range_but_year, prev_day, date_key, with_date.
  destruct a as [y m d h mi s u], b as [y' m' d' h' mi' s' u']. cbn.
  intros [Ha Hda] [Hb Hdb].
  pose proof (days_in_month_range y (m - 1)) as D1.
  pose proof (days_in_month_range y' (m' - 1)) as D2.
  destruct (Z.eq_dec y y') as [->|Hy].
  - destruct (Z.eq_dec m (m' - 1)) as [->|Hm].
    + destruct (Z.ltb_spec 1 d), (Z.ltb_spec 1 (m' - 1)), (Z.ltb_spec 1 d'),
        (Z.ltb_spec 1 m'); cbn; lia.
    + destruct (Z.eq_dec m m') as [->|Hm'].
      * destruct (Z.ltb_spec 1 d), (Z.ltb_spec 1 d'), (Z.ltb_spec 1 m'); cbn; lia.
      * destruct (Z.ltb_spec 1 d), (Z.ltb_spec 1 m), (Z.ltb_spec 1 d'),
          (Z.ltb_spec 1 m'); cbn; lia.
  - destruct (Z.ltb_spec 1 d), (Z.ltb_spec 1 m), (Z.ltb_spec 1 d'),
      (Z.ltb_spec 1 m'); cbn; lia.
Qed.

Lemma prev_day_monotone (a b : datetime) :
  on_calendar a -> on_calendar b ->
  dt_ltb b a = false -> dt_ltb (prev_day b) (prev_day a) = false.
Proof.
  intros Ha Hb Hab.
  destruct (dt_ltb (prev_day b) (prev_day a)) eqn:Hp; [|reflexivity].
  apply (dt_ltb_keys (prev_day b) (prev_day a)
           (prev_day_in_range (proj1 Hb)) (prev_day_in_range (proj1 Ha))) in Hp.
  rewrite !prev_day_time in Hp.
  destruct (prev_day_date a b Ha Hb) as [Hlt Heq].
  assert (Hnot : ~ (date_key b < date_key a
                    \/ (date_key b = date_key a /\ time_key b < time_key a))%Z).
  { intros H. apply (dt_ltb_keys b a (proj1 Hb) (proj1 Ha)) in H.
    rewrite H in Hab. discriminate. }
  exfalso. lia.
Qed.

Lemma minus_days_on_calendar (n : nat) :
  forall d, on_calendar d -> on_calendar (minus_days d n).
Proof.
  induction n as [|n IH]; intros d Hd; simpl; [exact Hd|].
  apply IH. apply prev_day_on_calendar. exact Hd.
Qed.

(** [timedelta] arithmetic keeps the order of two instants. *)
Lemma minus_days_monotone (n : nat) :
  forall a b, on_calendar a -> on_calendar b ->
    dt_ltb b a = false -> dt_ltb (minus_days b n) (minus_days a n) = false.
Proof.
  induction n as [|n IH]; intros a b Ha Hb Hab; simpl; [exact Hab|].
  apply IH; [apply prev_day_on_calendar; exact Ha
            |apply prev_day_on_calendar; exact Hb
            |apply prev_day_monotone; assumption].
Qed.

Lemma real_date_on_calendar (d : datetime) : real_date d -> on_calendar d.
Proof.
  intros [Hv Hd]. split; [|exact Hd].
  unfold valid_datetime in Hv. unfold in_range_but_year. lia.
Qed.

(** The start of the feed window of a request is not before the cutoff of
    a pruning that happened no later. *)
Lemma window_after_cutoff (pruned_at feed_at : datetime) :
  real_date pruned_at -> real_date feed_at ->
  dt_ltb feed_at pruned_at = false ->
  dt_ltb (minus_days feed_at 7) (minus_days pruned_at 14) = false.
Proof.
  intros Hp Hf Hord.
  apply real_date_on_calendar in Hp, Hf.
  pose proof (minus_days_monotone 7 pruned_at feed_at Hp Hf Hord) as H1.
  pose proof (minus_days_not_later 7 (minus_days pruned_at 7)) as H2.
  rewrite <- minus_days_add in H2. change (7 + 7)%nat with 14%nat in H2.
  pose proof (proj1 (minus_days_on_calendar 7 _ Hp)) as R7.
  pose proof (proj1 (minus_days_on_calendar 14 _ Hp)) as R14.
  pose proof (proj1 (minus_days_on_calendar 7 _ Hf)) as Rf.
  destruct (dt_ltb (minus_days feed_at 7) (minus_days pruned_at 14)) eqn:H3;
    [|reflexivity].
  apply (dt_ltb_keys _ _ Rf R14) in H3.
  assert (N1 : ~ (date_key (minus_days feed_at 7) < date_key (minus_days pruned_at 7)
                  \/ (date_key (minus_days feed_at 7) = date_key (minus_days pruned_at 7)
                      /\ time_key (minus_days feed_at 7)
                         < time_key (minus_days pruned_at 7)))%Z).
  { intros H. apply (dt_ltb_keys _ _ Rf R7) in H. rewrite H in H1. discriminate. }
  assert (N2 : ~ (date_key (minus_days pruned_at 7) < date_key (minus_days pruned_at 14)
                  \/ (date_key (minus_days pruned_at 7) = date_key (minus_days pruned_at 14)
                      /\ time_key (minus_days pruned_at 7)
                         < time_key (minus_days pruned_at 14)))%Z).
  { intros H. apply (dt_ltb_keys _ _ R7 R14) in H. rewrite H in H2. discriminate. }
  exfalso. lia.
Qed.

Lemma filter_implied {A : Type} (f g : A -> bool) (l : list A) :
  (forall x, f x = true -> g x = true) -> filter f (filter g l) = filter f l.
Proof.
  intros H. induction l as [|x l IH]; simpl; [reflexivity|].
  destruct (g x) eqn:Hg; simpl.
  - rewrite IH. reflexivity.
  - destruct (f x) eqn:Hf; [|exact IH].
    rewrite (H x Hf) in Hg. discriminate.
Qed.

(** The feed query does not see a deletion whose cutoff is not after the
    start of its window. *)
Lemma recent_after_delete (since cutoff : str) (t : table) :
  str_ltb since cutoff = false ->
  sql_recent since (sql_delete cutoff t) = sql_recent since t.
Proof.
  intros Horder. unfold sql_recent, sql_delete.
  rewrite filter_implied; [reflexivity|].
  intros r Hsince. apply negb_true_iff in Hsince. apply negb_true_iff.
  destruct (str_ltb (last_checked r) cutoff) eqn:Hlt; [|reflexivity].
  destruct (str_ltb cutoff since) eqn:Hcs.
  - rewrite (str_ltb_trans _ _ _ Hlt Hcs) in Hsince. discriminate.
  - rewrite (str_ltb_total _ _ Horder Hcs) in Hsince. rewrite Hsince in Hlt.
    discriminate.
Qed.

Section FeedAfterPruning.

Context {R : Runtime}.
Variable E : env.

(** The items that [generate_rss_feed_from_db] leaves in the feed object,
    by the outcome of its steps. *)
Lemma generate_items (w : world) :
  rss_items (snd (generate_rss_feed_from_db E w))
  = match db_fault E (db_calls w) with
    | Some e => if is_sqlite_error e then rss_items w else []
    | None =>
        match sub_days (clock E (clock_reads w)) 7 with
        | Raise _ => []
        | Ok relevant_period_start =>
            match db_fault E (S (db_calls w)) with
            | Some _ => []
            | None => flat_map (item_of_change E)
                        (sql_recent (isoformat relevant_period_start) (disk w))
            end
        end
    end.
Proof.
  unfold generate_rss_feed_from_db, open_connection, get_db_connection,
    select_recent, now, lift, db_call.
  unfold try_finally, try_except, bind, gets, modify, raise, ret. cbn.
  destruct (db_fault E (db_calls w)) as [e|]; cbn.
  - destruct (is_sqlite_error e); reflexivity.
  - destruct (sub_days (clock E (clock_reads w)) 7) as [start|e]; cbn; [|reflexivity].
    destruct (db_fault E (S (db_calls w))); reflexivity.
Qed.

End FeedAfterPruning.

(** X17.  Pruning never changes what the feed shows.  A quiet pass
    ([check_for_new_ads] from a free lock with no call into sqlite3 raising)
    ends by pruning with a retention of 14 days, at the clock reading
    [pruned_at]; [wl] is the state in which its loop over the sources ends.
    A feed request ([generate_rss_feed_from_db], window of 7 days) whose
    clock reading [feed_at] is not before [pruned_at] builds the same items
    from the ledger that the pass leaves as from the ledger of [wl], which
    the pruning has not touched yet, whatever text the [last_checked] of
    the rows holds. *)
Theorem shown_rows_survive_pruning
  (R : Runtime) (cfg : config) (E : env) (w wf : world) :
  job_lock w = false ->
  no_fault_from E (db_calls w) ->
  zone_converts E ->
  unique_ids (disk w) ->
  let wl := snd (for_each (process_url cfg E) (urls_to_monitor cfg)
                   (connected (set_new_count 0 (set_conn false (set_job_lock true w))))) in
  let pruned_at := clock E (clock_reads wl) in
  let feed_at := clock E (clock_reads wf) in
  real_date pruned_at ->
  real_date feed_at ->
  dt_ltb feed_at pruned_at = false ->
  rss_items (snd (generate_rss_feed_from_db E
                    (set_disk (disk (snd (check_for_new_ads cfg E w))) wf)))
  = rss_items (snd (generate_rss_feed_from_db E (set_disk (disk wl) wf))).
Proof.
  intros Hlock Hq Hzone Hu wl pruned_at feed_at Hp Hf Hord.
  rewrite (@check_for_new_ads_ledger R cfg E Hzone w Hlock Hq Hu).
  fold wl. fold pruned_at.
  destruct (sub_days pruned_at 14) as [cutoff_date|e] eqn:Hc; [|reflexivity].
  rewrite !generate_items. cbn [db_calls clock_reads set_disk disk rss_items].
  fold feed_at.
  destruct (db_fault E (db_calls wf)); [reflexivity|].
  destruct (sub_days feed_at 7) as [relevant_period_start|e] eqn:Hs; [|reflexivity].
  destruct (db_fault E (S (db_calls wf))); [reflexivity|].
  rewrite recent_after_delete; [reflexivity|].
  pose proof (@sub_days_valid feed_at relevant_period_start 7 (proj1 Hf) Hs) as Hvs.
  pose proof (@sub_days_valid pruned_at cutoff_date 14 (proj1 Hp) Hc) as Hvc.
  apply sub_days_value in Hs, Hc.
  rewrite (@isoformat_ltb _ _ Hvs Hvc). subst.
  apply window_after_cutoff; assumption.
Qed.

Lemma shown_rows_survive_pruning_witness :
  rss_items
    (snd (generate_rss_feed_from_db (R := example_runtime run_pages) quiet_env
            (snd (check_for_new_ads (R := example_runtime run_pages)
                    two_source_config quiet_env (world_with [old_row; bike_row])))))
  = rss_items
      (snd (generate_rss_feed_from_db (R := example_runtime run_pages) quiet_env
              (set_disk
                 (disk (snd (for_each
                               (process_url (R := example_runtime run_pages)
                                  two_source_config quiet_env)
                               (urls_to_monitor two_source_config)
                               (connected
                                  (set_new_count 0
                                     (set_conn false
                                        (set_job_lock true
                                           (world_with [old_row; bike_row]))))))))
                 (snd (check_for_new_ads (R := example_runtime run_pages)
                         two_source_config quiet_env
                         (world_with [old_row; bike_row])))))).
Proof.
  etransitivity;
    [|apply (shown_rows_survive_pruning (example_runtime run_pages)
               two_source_config quiet_env (world_with [old_row; bike_row])
               (snd (check_for_new_ads (R := example_runtime run_pages)
                       two_source_config quiet_env
                       (world_with [old_row; bike_row]))))].
  - vm_compute. reflexivity.
  - reflexivity.
  - intros k _. reflexivity.
  - exact (proj1 (example_zone_converts 0 ValueError)).
  - unfold unique_ids. vm_compute. repeat constructor; simpl; intuition discriminate.
  - vm_compute. intuition discriminate.
  - vm_compute. intuition discriminate.
  - vm_compute. reflexivity.
Defined.
